(** * accounting-js: a shallow embedding of [dist/accounting.es.js]

    The library formats numbers and money amounts as strings and parses
    such strings back.  JavaScript numbers are IEEE-754 binary64 values,
    modelled by Rocq's primitive [float]; JavaScript strings are
    sequences of code units, modelled by [list ascii] (code units below
    256).  The first part models the built-ins of the language that the
    library calls; the library's own functions follow, one definition per
    source function, under the source's names; the properties come last. *)

From Stdlib Require Import ZArith Floats Ascii String List Lia Bool Decimal DecimalPos.
From stdpp Require Import gmap.
Import ListNotations.
Set Warnings "-inexact-float,-register-all".

Local Open Scope Z_scope.

(** ** Strings *)

Definition jstring := list ascii.

Definition str (s : string) : jstring := list_ascii_of_string s.

Definition ascii_in (lo hi c : ascii) : bool :=
  (N_of_ascii lo <=? N_of_ascii c)%N && (N_of_ascii c <=? N_of_ascii hi)%N.

Definition is_digit (c : ascii) : bool := ascii_in "0" "9" c.

Definition is_char (a c : ascii) : bool := Ascii.eqb a c.

Fixpoint mem_char (c : ascii) (s : jstring) : bool :=
  match s with
  | [] => false
  | a :: s' => Ascii.eqb a c || mem_char c s'
  end.

(** [is_prefix p s]: [s] starts with [p]. *)
Fixpoint is_prefix (p s : jstring) : bool :=
  match p, s with
  | [], _ => true
  | x :: p', y :: s' => Ascii.eqb x y && is_prefix p' s'
  | _ :: _, [] => false
  end.

(** First occurrence of [pat] in [s]: the text before it and the text
    after it.  The empty pattern occurs at position 0. *)
Fixpoint find_sub (pat s : jstring) : option (jstring * jstring) :=
  if is_prefix pat s then Some ([], skipn (length pat) s)
  else match s with
       | [] => None
       | c :: s' =>
           match find_sub pat s' with
           | Some (pre, post) => Some (c :: pre, post)
           | None => None
           end
       end.

(** [String.prototype.indexOf]: index of the first occurrence, or -1. *)
Definition indexOf (s pat : jstring) : Z :=
  match find_sub pat s with
  | Some (pre, _) => Z.of_nat (length pre)
  | None => -1
  end.

(** [String.prototype.substr(start, len)] and [substr(start)] for
    non-negative arguments. *)
Definition substr2 (s : jstring) (start len : nat) : jstring :=
  firstn len (skipn start s).

Definition substr1 (s : jstring) (start : nat) : jstring := skipn start s.

(** [String.prototype.split(sep)] with a string separator.  [skip] counts
    the code units of a separator occurrence still to be passed over and
    [cur] holds the piece being read, reversed. *)
Fixpoint split_go (sep s : jstring) (cur : jstring) (skip : nat) : list jstring :=
  match s with
  | [] => [rev cur]
  | c :: s' =>
      match skip with
      | S k => split_go sep s' cur k
      | O =>
          if is_prefix sep s
          then rev cur :: split_go sep s' [] (length sep - 1)
          else split_go sep s' (c :: cur) O
      end
  end.

Definition split (s sep : jstring) : list jstring :=
  match sep with
  | [] => map (fun c => [c]) s
  | _ => split_go sep s [] O
  end.

(** [new Array(n + 1).join(' ')]: [n] spaces. *)
Definition spaces (n : nat) : jstring := repeat " "%char n.

(** *** Replacement templates

    [GetSubstitution] of the language specification: how the replacement
    string of [String.prototype.replace] is expanded.  [matched] is the
    matched text, [pre] and [post] the text before and after it, and
    [captures] the capture groups (none for a string pattern). *)

Definition digit_val (c : ascii) : nat :=
  N.to_nat (N_of_ascii c - N_of_ascii "0").

Fixpoint get_substitution (matched pre post : jstring) (captures : list jstring)
    (repl : jstring) : jstring :=
  match repl with
  | [] => []
  | c :: r =>
      if negb (Ascii.eqb c "$") then
        c :: get_substitution matched pre post captures r
      else
        match r with
        | [] => [c]
        | d :: r1 =>
            if Ascii.eqb d "$" then
              "$"%char :: get_substitution matched pre post captures r1
            else if Ascii.eqb d "&" then
              matched ++ get_substitution matched pre post captures r1
            else if Ascii.eqb d "`" then
              pre ++ get_substitution matched pre post captures r1
            else if Ascii.eqb d "'" then
              post ++ get_substitution matched pre post captures r1
            else if is_digit d then
              let one :=
                let n := digit_val d in
                match n, nth_error captures (n - 1) with
                | S _, Some cap =>
                    cap ++ get_substitution matched pre post captures r1
                | _, _ => c :: get_substitution matched pre post captures r
                end in
              match r1 with
              | d2 :: r2 =>
                  if is_digit d2 then
                    let nn := (10 * digit_val d + digit_val d2)%nat in
                    match nn, nth_error captures (nn - 1) with
                    | S _, Some cap =>
                        cap ++ get_substitution matched pre post captures r2
                    | _, _ => one
                    end
                  else one
              | [] => one
              end
            else c :: get_substitution matched pre post captures r
        end
  end.

(** [s.replace(pat, repl)] with a string pattern: the first occurrence
    only. *)
Definition replace_str (s pat repl : jstring) : jstring :=
  match find_sub pat s with
  | Some (pre, post) => pre ++ get_substitution pat pre post [] repl ++ post
  | None => s
  end.

(** *** The regular expressions of the library

    Every regular expression in the source is a sequence of quantified
    character classes, with one look-ahead and one end anchor.  The
    matcher below is the backtracking matcher of the language restricted
    to that fragment: quantifiers are greedy and give characters back. *)

Inductive quant := One | Opt | Star | Plus.

Inductive item :=
  | Cls (p : ascii -> bool) (q : quant)
  | Ahead (p : ascii -> bool)
  | AtEnd.

Definition regex := list item.

(** [rx_match r s]: the text matched at the start of [s] and the rest. *)
Fixpoint rx_match (r : regex) (s : jstring) {struct r} : option (jstring * jstring) :=
  match r with
  | [] => Some ([], s)
  | AtEnd :: r' => match s with [] => rx_match r' s | _ => None end
  | Ahead p :: r' =>
      match s with
      | c :: _ => if p c then rx_match r' s else None
      | [] => None
      end
  | Cls p q :: r' =>
      let one (k : jstring -> option (jstring * jstring)) (s : jstring) :=
        match s with
        | c :: s' =>
            if p c then
              match k s' with
              | Some (m, t) => Some (c :: m, t)
              | None => None
              end
            else None
        | [] => None
        end in
      let star :=
        fix star (s : jstring) : option (jstring * jstring) :=
          match s with
          | c :: s' =>
              if p c then
                match star s' with
                | Some (m, t) => Some (c :: m, t)
                | None => rx_match r' s
                end
              else rx_match r' s
          | [] => rx_match r' s
          end in
      match q with
      | One => one (rx_match r') s
      | Opt => match one (rx_match r') s with
               | Some x => Some x
               | None => rx_match r' s
               end
      | Star => star s
      | Plus => one star s
      end
  end.

(** Leftmost match: text before, matched text, text after. *)
Fixpoint rx_search (r : regex) (s : jstring) : option (jstring * jstring * jstring) :=
  match rx_match r s with
  | Some (m, t) => Some ([], m, t)
  | None =>
      match s with
      | [] => None
      | c :: s' =>
          match rx_search r s' with
          | Some (pre, m, t) => Some (c :: pre, m, t)
          | None => None
          end
      end
  end.

(** [s.replace(/r/, repl)]: the leftmost match only.  [caps] computes the
    capture groups from the matched text. *)
Definition rx_replace (r : regex) (caps : jstring -> list jstring)
    (repl : jstring) (s : jstring) : jstring :=
  match rx_search r s with
  | Some (pre, m, t) => pre ++ get_substitution m pre t (caps m) repl ++ t
  | None => s
  end.

(** [s.replace(/r/g, repl)]: every match, left to right, each search
    resuming where the previous match ended.  [done] is the text already
    passed, reversed; [n] bounds the number of matches by the length of
    the text. *)
Fixpoint rx_replace_all_from (n : nat) (r : regex) (caps : jstring -> list jstring)
    (repl : jstring) (done s : jstring) : jstring :=
  match n with
  | O => s
  | S n' =>
      match rx_search r s with
      | None => s
      | Some (pre, m, t) =>
          let before := rev done ++ pre in
          let out := pre ++ get_substitution m before t (caps m) repl in
          match m, t with
          | [], [] => out
          | [], c :: t' =>
              out ++ c :: rx_replace_all_from n' r caps repl (c :: rev before) t'
          | _, _ =>
              out ++ rx_replace_all_from n' r caps repl (rev m ++ rev before) t
          end
      end
  end.

Definition rx_replace_all (r : regex) (caps : jstring -> list jstring)
    (repl : jstring) (s : jstring) : jstring :=
  rx_replace_all_from (S (length s)) r caps repl [] s.

(** [s.match(/r/g)]: the list of matched texts, or [None] for [null]. *)
Fixpoint rx_match_all_from (n : nat) (r : regex) (s : jstring) : list jstring :=
  match n with
  | O => []
  | S n' =>
      match rx_search r s with
      | None => []
      | Some (_, m, t) =>
          match m, t with
          | [], [] => [m]
          | [], _ :: t' => m :: rx_match_all_from n' r t'
          | _, _ => m :: rx_match_all_from n' r t
          end
      end
  end.

Definition rx_match_all (r : regex) (s : jstring) : option (list jstring) :=
  match rx_match_all_from (S (length s)) r s with
  | [] => None
  | l => Some l
  end.

Definition no_caps (m : jstring) : list jstring := [].

(** The single group of a pattern of the shape [\((...)\)]: the matched
    text without its first and last character. *)
Definition inner_cap (m : jstring) : list jstring := [removelast (tl m)].

(** The single group of [(\d{3})(?=\d)]: the whole matched text. *)
Definition whole_cap (m : jstring) : list jstring := [m].

Definition is_line_terminator (c : ascii) : bool :=
  Ascii.eqb c "010" || Ascii.eqb c "013".

Definition dot (c : ascii) : bool := negb (is_line_terminator c).

Definition any_but (a c : ascii) : bool := negb (Ascii.eqb a c).

(** ** Numbers

    A JavaScript number is a binary64 value: the primitive [float].  Sums,
    products, quotients and comparisons are the primitive operations.  The
    built-ins that are defined on the exact value of a number (rounding to
    an integer, decimal rendering, parsing) go through [Prim2SF], which
    exposes sign, mantissa and exponent, and compute with integers. *)

Definition jnumber := float.
Bind Scope float_scope with jnumber.

(** ToNumber(undefined). *)
Definition undefined_number : jnumber := nan.

Definition isNaN (x : jnumber) : bool := is_nan x.

Definition Math_abs (x : jnumber) : jnumber := PrimFloat.abs x.

(** The number nearest to an integer (ties to even); [szero] is the sign
    given to a zero result. *)
Definition Z2float (n : Z) (szero : bool) : jnumber :=
  SF2Prim (binary_normalize prec emax n 0 szero).

(** The number nearest to [num / den], for [0 <= num] and [0 < den]. *)
Definition ratio2float (s : bool) (num den : Z) : jnumber :=
  match num with
  | Z0 => SF2Prim (S754_zero s)
  | _ =>
      let '(q, e, l) := SFdiv_core_binary prec emax num 0 den 0 in
      SF2Prim (binary_round_aux prec emax s q e l)
  end.

(** [Math.floor], [Math.ceil], [Math.round]: [f n d] is the integer wanted
    for the exact value [n / d]; a zero result keeps the sign of the
    argument. *)
Definition round_with (f : Z -> Z -> Z) (x : jnumber) : jnumber :=
  match Prim2SF x with
  | S754_finite s m e =>
      if 0 <=? e then x
      else Z2float (f (cond_Zopp s (Zpos m)) (2 ^ (- e))) s
  | _ => x
  end.

Definition Math_floor : jnumber -> jnumber := round_with (fun n d => n / d).

Definition Math_ceil : jnumber -> jnumber := round_with (fun n d => - ((- n) / d)).

(** Nearest integer, ties towards +infinity. *)
Definition Math_round : jnumber -> jnumber :=
  round_with (fun n d => (2 * n + d) / (2 * d)).

(** The exact value of a number when it is an integer. *)
Definition integer_value (x : jnumber) : option Z :=
  match Prim2SF x with
  | S754_zero _ => Some 0
  | S754_finite s m e =>
      if 0 <=? e then Some (cond_Zopp s (Zpos m * 2 ^ e))
      else if Zpos m mod 2 ^ (- e) =? 0
           then Some (cond_Zopp s (Zpos m / 2 ^ (- e)))
           else None
  | _ => None
  end.

(** [Math.pow(10, p)].  The library calls it on the result of
    [checkPrecision] only.  For an integer exponent the model is the
    number nearest to the exact power.  For a fractional exponent, which
    arises only when the default precision itself has been replaced by a
    fraction, engines return an approximation that is not modelled; the
    model gives NaN there. *)
Definition Math_pow10 (p : jnumber) : jnumber :=
  match Prim2SF p with
  | S754_nan => nan
  | S754_infinity false => infinity
  | S754_infinity true => 0%float
  | _ =>
      match integer_value p with
      | Some n =>
          if 400 <? n then infinity
          else if n <? -400 then 0%float
          else if 0 <=? n then Z2float (10 ^ n) false
          else ratio2float false 1 (10 ^ (- n))
      | None => nan
      end
  end.

(** *** Decimal digits *)

Fixpoint uint_digits (d : uint) : jstring :=
  match d with
  | Nil => []
  | D0 d => "0"%char :: uint_digits d
  | D1 d => "1"%char :: uint_digits d
  | D2 d => "2"%char :: uint_digits d
  | D3 d => "3"%char :: uint_digits d
  | D4 d => "4"%char :: uint_digits d
  | D5 d => "5"%char :: uint_digits d
  | D6 d => "6"%char :: uint_digits d
  | D7 d => "7"%char :: uint_digits d
  | D8 d => "8"%char :: uint_digits d
  | D9 d => "9"%char :: uint_digits d
  end.

(** The decimal digits of a non-negative integer, ["0"] for zero. *)
Definition Z_digits (n : Z) : jstring :=
  match n with
  | Zpos p => uint_digits (Pos.to_uint p)
  | _ => ["0"%char]
  end.

(** The value of a string of decimal digits. *)
Definition digits_Z (s : jstring) : Z :=
  fold_left (fun acc c => 10 * acc + Z.of_nat (digit_val c)) s 0.

Definition zeros (n : nat) : jstring := repeat "0"%char n.

(** *** ToIntegerOrInfinity *)

Inductive extint := Fin (n : Z) | PosInf | NegInf.

Definition ToIntegerOrInfinity (x : jnumber) : extint :=
  match Prim2SF x with
  | S754_nan | S754_zero _ => Fin 0
  | S754_infinity false => PosInf
  | S754_infinity true => NegInf
  | S754_finite s m e =>
      Fin (cond_Zopp s (if 0 <=? e then Zpos m * 2 ^ e else Zpos m / 2 ^ (- e)))
  end.

(** *** Number::toString

    The exact value of a positive finite number is [num / den].
    [decimal_exponent] is the [n] with [10^(n-1) <= num/den < 10^n]. *)

Definition exact_ratio (m : positive) (e : Z) : Z * Z :=
  if 0 <=? e then (Zpos m * 2 ^ e, 1) else (Zpos m, 2 ^ (- e)).

Fixpoint scale_up (fuel : nat) (num den : Z) (j : Z) : Z :=
  match fuel with
  | O => j
  | S f => if den <=? num then j else scale_up f (10 * num) den (j + 1)
  end.

Definition decimal_exponent (num den : Z) : Z :=
  if den <=? num then Z.of_nat (length (Z_digits (num / den)))
  else - scale_up 400 (10 * num) den 0.

(** [s * 10^p] as a ratio. *)
Definition scaled (s p : Z) : Z * Z :=
  if 0 <=? p then (s * 10 ^ p, 1) else (s, 10 ^ (- p)).

(** Does the decimal [s * 10^p] denote the number [x]? *)
Definition denotes (x : jnumber) (s p : Z) : bool :=
  let '(a, b) := scaled s p in
  PrimFloat.eqb (ratio2float false a b) x.

(** Distance between [s * 10^p] and [num / den], times [den * 10^|p|]. *)
Definition distance (num den s p : Z) : Z :=
  let '(a, b) := scaled s p in Z.abs (a * den - num * b).

(** The shortest digits [(s, k, n)] with [s * 10^(n-k)] denoting [x]:
    [k] runs from 1 upwards; at each [k] the two neighbours of the exact
    value are tried, the closer one first, the even one on a tie. *)
Fixpoint shortest_from (fuel : nat) (x : jnumber) (num den n0 k : Z) : Z * Z * Z :=
  match fuel with
  | O => (0, 1, 1)
  | S f =>
      let p := n0 - k in
      let lo := if 0 <=? p then num / (den * 10 ^ p) else (num * 10 ^ (- p)) / den in
      let hi := lo + 1 in
      let ok_lo := (10 ^ (k - 1) <=? lo) && denotes x lo p in
      let ok_hi := denotes x hi p in
      let norm s := if s =? 10 ^ k then (10 ^ (k - 1), k, n0 + 1) else (s, k, n0) in
      let dlo := distance num den lo p in
      let dhi := distance num den hi p in
      if ok_lo && ok_hi then
        if dlo <? dhi then norm lo
        else if dhi <? dlo then norm hi
        else if Z.even lo then norm lo else norm hi
      else if ok_lo then norm lo
      else if ok_hi then norm hi
      else shortest_from f x num den n0 (k + 1)
  end.

Definition shortest_digits (x : jnumber) (m : positive) (e : Z) : Z * Z * Z :=
  let '(num, den) := exact_ratio m e in
  shortest_from 20 x num den (decimal_exponent num den) 1.

(** Steps 7 to 10 of Number::toString for a positive finite number. *)
Definition render_shortest (s k n : Z) : jstring :=
  let ds := Z_digits s in
  if (k <=? n) && (n <=? 21) then ds ++ zeros (Z.to_nat (n - k))
  else if (0 <? n) && (n <=? 21) then
    firstn (Z.to_nat n) ds ++ "."%char :: skipn (Z.to_nat n) ds
  else if (-6 <? n) && (n <=? 0) then
    "0"%char :: "."%char :: zeros (Z.to_nat (- n)) ++ ds
  else
    let e := n - 1 in
    let sign := if e <? 0 then "-"%char else "+"%char in
    let tail := "e"%char :: sign :: Z_digits (Z.abs e) in
    match ds with
    | [] => tail
    | d :: rest =>
        match rest with
        | [] => d :: tail
        | _ => d :: "."%char :: rest ++ tail
        end
    end.

Definition Number_toString (x : jnumber) : jstring :=
  match Prim2SF x with
  | S754_nan => str "NaN"
  | S754_zero _ => str "0"
  | S754_infinity false => str "Infinity"
  | S754_infinity true => str "-Infinity"
  | S754_finite sg m e =>
      let '(s, k, n) := shortest_digits (Math_abs x) m e in
      (if sg then ["-"%char] else []) ++ render_shortest s k n
  end.

(** *** Errors *)

Inductive JSError := TypeError | RangeError | SyntaxError.

Inductive Outcome (A : Type) :=
  | Ret (a : A)
  | Throw (e : JSError).
Arguments Ret {A} a.
Arguments Throw {A} e.

Definition bind {A B} (o : Outcome A) (k : A -> Outcome B) : Outcome B :=
  match o with
  | Ret a => k a
  | Throw e => Throw e
  end.

Notation "'try' x := a 'in' b" := (bind a (fun x => b))
  (at level 10, x name, a at level 100, b at level 200).

(** *** Number.prototype.toFixed

    [fd] is the argument as passed; a digit count outside 0 to 100 raises
    a RangeError.  For a finite [x] below [10^21] in magnitude the digits
    are those of the integer [n] for which [n / 10^f - x] is closest to
    zero, the larger [n] on a tie; from [10^21] on, and for NaN and the
    infinities, the result is that of Number::toString. *)
Definition fixed_int (m : positive) (e : Z) (f : Z) : Z :=
  if 0 <=? e then Zpos m * 2 ^ e * 10 ^ f
  else (2 * Zpos m * 10 ^ f + 2 ^ (- e)) / (2 * 2 ^ (- e)).

Definition fixed_render (n : Z) (f : Z) : jstring :=
  let ds := Z_digits n in
  if f =? 0 then ds
  else
    let fl := Z.to_nat f in
    let ds := zeros (fl + 1 - length ds) ++ ds in
    let k := length ds in
    firstn (k - fl) ds ++ "."%char :: skipn (k - fl) ds.

Definition Number_toFixed (x : jnumber) (fd : jnumber) : Outcome jstring :=
  match ToIntegerOrInfinity fd with
  | Fin f =>
      if (f <? 0) || (100 <? f) then Throw RangeError
      else
        match Prim2SF x with
        | S754_finite sg m e =>
            let sign := if sg then ["-"%char] else [] in
            if PrimFloat.leb 1e21 (Math_abs x)
            then Ret (sign ++ Number_toString (Math_abs x))
            else Ret (sign ++ fixed_render (fixed_int m e f) f)
        | S754_zero _ => Ret (fixed_render 0 f)
        | _ => Ret (Number_toString x)
        end
  | _ => Throw RangeError
  end.

(** *** parseInt and parseFloat *)

Definition is_space (c : ascii) : bool :=
  match N_of_ascii c with
  | 9%N | 10%N | 11%N | 12%N | 13%N | 32%N | 160%N => true
  | _ => false
  end.

Fixpoint trim_start (s : jstring) : jstring :=
  match s with
  | c :: s' => if is_space c then trim_start s' else s
  | [] => []
  end.

(** The longest prefix of characters satisfying [p], and the rest. *)
Fixpoint span (p : ascii -> bool) (s : jstring) : jstring * jstring :=
  match s with
  | c :: s' =>
      if p c then let '(a, b) := span p s' in (c :: a, b) else ([], s)
  | [] => ([], [])
  end.

(** An optional sign: [true] for a minus. *)
Definition read_sign (s : jstring) : bool * jstring :=
  match s with
  | c :: s' =>
      if Ascii.eqb c "-" then (true, s')
      else if Ascii.eqb c "+" then (false, s')
      else (false, s)
  | [] => (false, [])
  end.

(** [parseInt(s, 10)]. *)
Definition parseInt10 (s : jstring) : jnumber :=
  let '(neg, r) := read_sign (trim_start s) in
  let '(ds, _) := span is_digit r in
  match ds with
  | [] => nan
  | _ => Z2float (cond_Zopp neg (digits_Z ds)) neg
  end.

(** The number nearest to [mant * 10^ex], for [0 <= mant]. *)
Definition decimal2float (neg : bool) (mant ex : Z) : jnumber :=
  if mant =? 0 then SF2Prim (S754_zero neg)
  else
    let d := Z.of_nat (length (Z_digits mant)) in
    if 310 <? d + ex then SF2Prim (S754_infinity neg)
    else if d + ex <? -330 then SF2Prim (S754_zero neg)
    else if 0 <=? ex then Z2float (cond_Zopp neg (mant * 10 ^ ex)) neg
    else ratio2float neg mant (10 ^ (- ex)).

(** The exponent part of a decimal literal, 0 when there is none. *)
Definition read_exponent (s : jstring) : Z :=
  match s with
  | c :: s' =>
      if Ascii.eqb c "e" || Ascii.eqb c "E" then
        let '(neg, r) := read_sign s' in
        let '(ds, _) := span is_digit r in
        match ds with
        | [] => 0
        | _ => cond_Zopp neg (digits_Z ds)
        end
      else 0
  | [] => 0
  end.

(** [parseFloat(s)]: the value of the longest prefix that is a decimal
    literal, NaN when there is none. *)
Definition parseFloat (s : jstring) : jnumber :=
  let '(neg, r) := read_sign (trim_start s) in
  if is_prefix (str "Infinity") r then SF2Prim (S754_infinity neg)
  else
    let '(ip, r1) := span is_digit r in
    let '(fp, r2) :=
      match r1 with
      | c :: r1' => if Ascii.eqb c "." then span is_digit r1' else ([], r1)
      | [] => ([], r1)
      end in
    match ip ++ fp with
    | [] => nan
    | ds => decimal2float neg (digits_Z ds) (read_exponent r2 - Z.of_nat (length fp))
    end.

(** ** The library: data *)

(** [format] is a template string, or an object with a [pos] template
    and optional [neg] and [zero] templates.  A settings object carries
    all nine fields of the source's typedef, each with a value of its
    documented type. *)
Inductive Format :=
  | FString (s : jstring)
  | FObject (pos : jstring) (neg zero : option jstring).

Record Settings := {
  symbol : jstring;
  format : Format;
  decimal : jstring;
  thousand : jstring;
  precision : jnumber;
  grouping : jnumber;
  stripZeros : bool;
  fallback : jnumber;
  round : jnumber
}.

(** The initial value of the default settings object (source lines
    44 to 54). *)
Definition settings : Settings := {|
  symbol := str "$";
  format := FString (str "%s%v");
  decimal := str ".";
  thousand := str ",";
  precision := 2%float;
  grouping := 3%float;
  stripZeros := false;
  fallback := 0%float;
  round := 0%float
|}.

(** A per-call options object: any subset of the fields. *)
Record Opts := {
  o_symbol : option jstring;
  o_format : option Format;
  o_decimal : option jstring;
  o_thousand : option jstring;
  o_precision : option jnumber;
  o_grouping : option jnumber;
  o_stripZeros : option bool;
  o_fallback : option jnumber;
  o_round : option jnumber
}.

(** The object literal [{}]. *)
Definition no_opts : Opts :=
  {| o_symbol := None; o_format := None; o_decimal := None;
     o_thousand := None; o_precision := None; o_grouping := None;
     o_stripZeros := None; o_fallback := None; o_round := None |}.

(** A settings object seen as an options object with every field. *)
Definition all_opts (s : Settings) : Opts :=
  {| o_symbol := Some (symbol s); o_format := Some (format s);
     o_decimal := Some (decimal s); o_thousand := Some (thousand s);
     o_precision := Some (precision s); o_grouping := Some (grouping s);
     o_stripZeros := Some (stripZeros s); o_fallback := Some (fallback s);
     o_round := Some (round s) |}.

(** Values handed to the library: numbers, strings, arrays of them. *)
Inductive JVal :=
  | VNum (x : jnumber)
  | VStr (s : jstring)
  | VArr (l : list JVal).

(** Numbers and arrays of numbers, the documented arguments of
    [formatNumber] and [formatMoney]. *)
Inductive JNum :=
  | NNum (x : jnumber)
  | NArr (l : list JNum).

(** Formatted results: strings and arrays of them. *)
Inductive JOut :=
  | OStr (s : jstring)
  | OArr (l : list JOut).

(** ** The store

    The only object the library shares between calls is [settings].  The
    store maps references to objects; [settings_ref] is the reference of
    the default settings object, the other cells are the merged option
    objects that the calls create. *)

Definition loc := positive.

Abbreviation Heap := (gmap positive Settings).

Definition settings_ref : loc := 1%positive.

Definition initial_heap : Heap := {[ settings_ref := settings ]}.

(** Reading the global [settings]. *)
Definition read_settings (h : Heap) : Settings :=
  default settings (h !! settings_ref).

(** One source object of [objectAssign]: [to[key] = from[key]] for every
    key of [from]. *)
Definition assign (to : Settings) (from : Opts) : Settings := {|
  symbol := default (symbol to) (o_symbol from);
  format := default (format to) (o_format from);
  decimal := default (decimal to) (o_decimal from);
  thousand := default (thousand to) (o_thousand from);
  precision := default (precision to) (o_precision from);
  grouping := default (grouping to) (o_grouping from);
  stripZeros := default (stripZeros to) (o_stripZeros from);
  fallback := default (fallback to) (o_fallback from);
  round := default (round to) (o_round from)
|}.

(** [objectAssign(target, ...sources)] writes into the object that
    [target] refers to and returns that reference. *)
Definition objectAssign (target : loc) (sources : list Opts) (h : Heap) : Heap :=
  match h !! target with
  | Some t => <[ target := fold_left assign sources t ]> h
  | None => h
  end.

(** [objectAssign({}, settings, opts)]: the target is a new object; it
    receives every field of [settings] and then the fields of [opts].
    The new cell is created holding the copy of [settings], the state of
    the target after the first source. *)
Definition new_ref (h : Heap) : loc := fresh (dom h : gset positive).

Definition merge_options (opts : Opts) (h : Heap) : loc * Heap :=
  let target := new_ref h in
  let h1 := <[ target := read_settings h ]> h in
  (target, objectAssign target [opts] h1).

(** [settings.decimal], [settings.fallback] and [settings.precision],
    for the functions whose parameters carry the same names. *)
Definition settings_decimal (st : Settings) : jstring := decimal st.
Definition settings_fallback (st : Settings) : jnumber := fallback st.
Definition settings_precision (st : Settings) : jnumber := precision st.

(** ** unformat (source lines 82 to 113) *)

(** Membership in the character class [0-9-(-)-] followed by the
    characters of [decimal]: a digit, a minus sign, a parenthesis, or a
    character of [decimal].  This is the meaning of the class for a
    [decimal] that contains none of the class metacharacters (backslash,
    closing bracket, minus sign). *)
Definition kept (decimal : jstring) (c : ascii) : bool :=
  is_digit c || is_char "-" c || ascii_in "(" ")" c || mem_char c decimal.

Definition plain_decimal (decimal : jstring) : bool :=
  negb (mem_char "\" decimal || mem_char "]" decimal || mem_char "-" decimal).

(** The pattern of line 100: an opening parenthesis, a group made of
    minus signs, digits, at most one character that is not a closing
    parenthesis and one digit or more, then a closing parenthesis. *)
Definition rx_bracketed : regex :=
  [Cls (is_char "(") One; Cls (is_char "-") Star; Cls is_digit Star;
   Cls (any_but ")") Opt; Cls is_digit Plus; Cls (is_char ")") One].

(** The pattern of line 101: an opening parenthesis, a group of any
    characters of one line, a closing parenthesis. *)
Definition rx_brackets : regex :=
  [Cls (is_char "(") One; Cls dot Star; Cls (is_char ")") One].

(** The pattern of lines 107 and 108: a minus sign. *)
Definition rx_minus : regex := [Cls (is_char "-") One].

(** The value after the four replacements of lines 98 to 101. *)
Definition cleaned (decimal value : jstring) : jstring :=
  let regex := [Cls (fun c => negb (kept decimal c)) One] in
  rx_replace rx_brackets inner_cap []
    (rx_replace_all rx_bracketed inner_cap (str "-$1")
       (replace_str (rx_replace_all regex no_caps [] value) decimal (str "."))).

(** [(s.match(/-/g) || 2).length % 2]: the number 2 has no [length], so
    without a match the result is [undefined % 2], NaN. *)
Definition negative_flag (s : jstring) : jnumber :=
  match rx_match_all rx_minus s with
  | Some l => Z2float (Z.of_nat (length l) mod 2) false
  | None => nan
  end.

(** ToBoolean of a number. *)
Definition truthy (x : jnumber) : bool :=
  negb (is_nan x || PrimFloat.eqb x 0%float).

Definition unformat_string (decimal : jstring) (fallback : jnumber)
    (value : jstring) : jnumber :=
  let unformattedValueString := cleaned decimal value in
  let negative := negative_flag unformattedValueString in
  let absUnformatted :=
    parseFloat (rx_replace_all rx_minus no_caps [] unformattedValueString) in
  let unformatted :=
    (absUnformatted * (if truthy negative then (-1) else 1))%float in
  if negb (isNaN unformatted) then unformatted else fallback.

Fixpoint unformat_with (decimal : jstring) (fallback : jnumber) (value : JVal) : JVal :=
  match value with
  | VArr l => VArr (map (unformat_with decimal fallback) l)
  | VNum x => VNum x
  | VStr s => VNum (unformat_string decimal fallback s)
  end.

(** [st] is the value of [settings] when the call is made; an absent
    argument is [None].  The definition is the function of the code for
    the separators that [plain_decimal] accepts.  With a backslash, a
    closing bracket or a minus sign in the separator, the expression
    built at line 97 is another class, or [new RegExp] raises a
    SyntaxError when the first string is parsed: the statements about
    what a string parses to carry [plain_decimal] as a hypothesis. *)
Definition unformat (st : Settings) (value : JVal) (decimal : option jstring)
    (fallback : option jnumber) : JVal :=
  unformat_with (default (settings_decimal st) decimal)
                (default (settings_fallback st) fallback) value.

(** ** checkPrecision and toFixed (source lines 118 to 161) *)

Definition checkPrecision (val base : jnumber) : jnumber :=
  let val := Math_round (Math_abs val) in
  if isNaN val then base else val.

Definition toFixed (st : Settings) (value precision round : jnumber) : Outcome jstring :=
  let precision := checkPrecision precision (settings_precision st) in
  let power := Math_pow10 precision in
  let roundMethod :=
    if PrimFloat.ltb 0 round then Math_ceil
    else if PrimFloat.ltb round 0 then Math_floor
    else Math_round in
  Number_toFixed (roundMethod ((value + 1e-11) * power) / power)%float precision.

(** ** stripInsignificantZeros (source lines 253 to 263) *)

(** The pattern of line 256: one zero or more, then the end of the
    string. *)
Definition rx_trailing_zeros : regex := [Cls (is_char "0") Plus; AtEnd].

(** [parts[1].replace] raises a TypeError when [parts[1]] is undefined. *)
Definition stripInsignificantZeros (s decimal : jstring) : Outcome jstring :=
  let parts := split s decimal in
  let integerPart := nth 0 parts (str "undefined") in
  match nth_error parts 1 with
  | None => Throw TypeError
  | Some part1 =>
      let decimalPart := rx_replace rx_trailing_zeros no_caps [] part1 in
      if (0 <? length decimalPart)%nat
      then Ret (integerPart ++ decimal ++ decimalPart)
      else Ret integerPart
  end.

(** ** formatNumber (source lines 287 to 309) *)

(** The pattern of line 306: three digits, followed by a digit that
    stays outside the match. *)
Definition rx_group : regex :=
  [Cls is_digit One; Cls is_digit One; Cls is_digit One; Ahead is_digit].

(** String concatenation with a possibly undefined operand. *)
Definition or_undefined (o : option jstring) : jstring :=
  default (str "undefined") o.

(** Lines 300 to 306, on the merged options [opts]: the value of the
    variable [formatted].  [st] is the value of the global [settings],
    which [toFixed] reads. *)
Definition formatted_text (st opts : Settings) (number : jnumber) : Outcome jstring :=
  let negative := if PrimFloat.ltb number 0 then str "-" else [] in
  try fixed := toFixed st (Math_abs number) (precision opts) (round opts) in
  let base := Number_toString (parseInt10 fixed) in
  let mod_ := if (3 <? length base)%nat then (length base mod 3)%nat else 0%nat in
  try decimals :=
    (if PrimFloat.ltb 0 (precision opts) then
       try fixed' := toFixed st (Math_abs number) (precision opts) undefined_number in
       Ret (decimal opts ++ or_undefined (nth_error (split fixed' (str ".")) 1))
     else Ret []) in
  Ret (negative
       ++ (if (0 <? mod_)%nat then substr2 base 0 mod_ ++ thousand opts else [])
       ++ rx_replace_all rx_group whole_cap (str "$1" ++ thousand opts) (substr1 base mod_)
       ++ decimals).

(** Lines 300 to 308. *)
Definition formatNumber_calc (st opts : Settings) (number : jnumber) : Outcome jstring :=
  try formatted := formatted_text st opts number in
  if stripZeros opts then stripInsignificantZeros formatted (decimal opts)
  else Ret formatted.

Definition deref (h : Heap) (l : loc) : Settings := default settings (h !! l).

(** A call on a number: merge the options (line 298), then compute. *)
Definition formatNumber_scalar (number : jnumber) (opts : Opts) (h : Heap)
    : Outcome jstring * Heap :=
  let '(o, h1) := merge_options opts h in
  (formatNumber_calc (read_settings h1) (deref h1 o) number, h1).

Definition out_str {A} (r : Outcome jstring * A) : Outcome JOut * A :=
  match r with
  | (Ret s, a) => (Ret (OStr s), a)
  | (Throw e, a) => (Throw e, a)
  end.

Definition out_arr {A} (r : Outcome (list JOut) * A) : Outcome JOut * A :=
  match r with
  | (Ret l, a) => (Ret (OArr l), a)
  | (Throw e, a) => (Throw e, a)
  end.

(** [array.map(f)] for an [f] that works on the store and may throw:
    the elements are visited in order, and the first exception ends the
    call. *)
Definition map_M {A B} (f : A -> Heap -> Outcome B * Heap)
    : list A -> Heap -> Outcome (list B) * Heap :=
  fix map_ (l : list A) (h : Heap) : Outcome (list B) * Heap :=
    match l with
    | [] => (Ret [], h)
    | val :: l' =>
        match f val h with
        | (Ret r, h1) =>
            match map_ l' h1 with
            | (Ret rs, h2) => (Ret (r :: rs), h2)
            | (Throw e, h2) => (Throw e, h2)
            end
        | (Throw e, h1) => (Throw e, h1)
        end
    end.

Fixpoint formatNumber (number : JNum) (opts : Opts) (h : Heap) {struct number}
    : Outcome JOut * Heap :=
  match number with
  | NArr l => out_arr (map_M (fun val => formatNumber val opts) l h)
  | NNum x => out_str (formatNumber_scalar x opts h)
  end.

(** ** checkCurrencyFormat (source lines 342 to 355) *)

Definition contains (s pat : jstring) : bool :=
  match find_sub pat s with Some _ => true | None => false end.

Definition checkCurrencyFormat (format : Format) : Format :=
  match format with
  | FString f =>
      if contains f (str "%v") then
        FObject f
          (Some (replace_str (replace_str f (str "-") []) (str "%v") (str "-%v")))
          (Some f)
      else format
  | _ => format
  end.

(** [formats.pos], [formats.neg], [formats.zero]; a string has none of
    these properties. *)
Definition get_pos (formats : Format) : option jstring :=
  match formats with FObject p _ _ => Some p | FString _ => None end.

Definition get_neg (formats : Format) : option jstring :=
  match formats with FObject _ n _ => n | FString _ => None end.

Definition get_zero (formats : Format) : option jstring :=
  match formats with FObject _ _ z => z | FString _ => None end.

(** Lines 404 to 410 and 465 to 471. *)
Definition choose_format (formats : Format) (amount : jnumber) : option jstring :=
  if PrimFloat.ltb 0 amount then get_pos formats
  else if PrimFloat.ltb amount 0 then get_neg formats
  else get_zero formats.

(** ** formatMoney (source lines 385 to 414) *)

(** Lines 413 and 474: [useFormat.replace] raises a TypeError when
    [useFormat] is undefined; [formatNumber] receives the merged options
    object. *)
Definition render (useFormat : option jstring) (opts : Settings) (x : jnumber)
    (h : Heap) : Outcome jstring * Heap :=
  match useFormat with
  | None => (Throw TypeError, h)
  | Some t =>
      let with_symbol := replace_str t (str "%s") (symbol opts) in
      match formatNumber_scalar (Math_abs x) (all_opts opts) h with
      | (Ret v, h1) => (Ret (replace_str with_symbol (str "%v") v), h1)
      | (Throw e, h1) => (Throw e, h1)
      end
  end.

Definition formatMoney_scalar (amount : jnumber) (opts : Opts) (h : Heap)
    : Outcome jstring * Heap :=
  let '(o, h1) := merge_options opts h in
  let opts := deref h1 o in
  let formats := checkCurrencyFormat (format opts) in
  let useFormat := choose_format formats amount in
  render useFormat opts amount h1.

Fixpoint formatMoney (amount : JNum) (opts : Opts) (h : Heap) {struct amount}
    : Outcome JOut * Heap :=
  match amount with
  | NArr l => out_arr (map_M (fun value => formatMoney value opts) l h)
  | NNum x => out_str (formatMoney_scalar x opts h)
  end.

(** ** formatColumn (source lines 436 to 492) *)

Definition as_number (v : JVal) : jnumber :=
  match v with VNum x => x | _ => nan end.

(** The second pass, lines 484 to 491. *)
Definition pad (padAfterSymbol : bool) (symbol : jstring) (maxLength : nat)
    (val : JOut) : JOut :=
  match val with
  | OStr s =>
      if (length s <? maxLength)%nat then
        if padAfterSymbol
        then OStr (replace_str s symbol (symbol ++ spaces (maxLength - length s)))
        else OStr (spaces (maxLength - length s) ++ s)
      else val
  | OArr _ => val
  end.

(** One element of the first pass, lines 455 to 480: the formatted
    element and the new [maxLength].  [column] formats a nested array. *)
Definition format_cell (column : JVal -> Opts -> Heap -> Outcome (list JOut) * Heap)
    (formats : Format) (opts : Settings) (val : JVal) (maxLength : nat) (h : Heap)
    : Outcome JOut * Heap * nat :=
  match val with
  | VArr _ => (out_arr (column val (all_opts opts) h), maxLength)
  | _ =>
      let val :=
        as_number (unformat (read_settings h) val (Some (decimal opts)) None) in
      let useFormat := choose_format formats val in
      match render useFormat opts val h with
      | (Ret fVal, h') => ((Ret (OStr fVal), h'), Nat.max maxLength (length fVal))
      | (Throw e, h') => ((Throw e, h'), maxLength)
      end
  end.

(** The first pass, lines 454 to 481: [list.map] threading [maxLength]
    and the store through the elements. *)
Definition first_pass (column : JVal -> Opts -> Heap -> Outcome (list JOut) * Heap)
    (formats : Format) (opts : Settings)
    : list JVal -> nat -> Heap -> Outcome (list JOut * nat) * Heap :=
  fix map_ (l : list JVal) (maxLength : nat) (h : Heap)
    : Outcome (list JOut * nat) * Heap :=
    match l with
    | [] => (Ret ([], maxLength), h)
    | val :: l' =>
        let '(r, h', m) := format_cell column formats opts val maxLength h in
        match r with
        | Ret x =>
            match map_ l' m h' with
            | (Ret (xs, m'), h'') => (Ret (x :: xs, m'), h'')
            | (Throw e, h'') => (Throw e, h'')
            end
        | Throw e => (Throw e, h')
        end
    end.

(** [list_] is the source's [list], an array here. *)
Fixpoint formatColumn_array (list_ : JVal) (opts : Opts) (h : Heap) {struct list_}
    : Outcome (list JOut) * Heap :=
  match list_ with
  | VArr l =>
      let '(o, h1) := merge_options opts h in
      let opts := deref h1 o in
      let formats := checkCurrencyFormat (format opts) in
      match get_pos formats with
      | None => (Throw TypeError, h1)
      | Some pos =>
          let padAfterSymbol := indexOf pos (str "%s") <? indexOf pos (str "%v") in
          match first_pass formatColumn_array formats opts l O h1 with
          | (Ret (formatted, maxLength), h2) =>
              (Ret (map (pad padAfterSymbol (symbol opts) maxLength) formatted), h2)
          | (Throw e, h2) => (Throw e, h2)
          end
      end
  | _ =>
      (* [list.map] is not a function; the options have been merged *)
      let '(_, h1) := merge_options opts h in (Throw TypeError, h1)
  end.

(** [list_] as passed: [None] for null or undefined.  A falsy argument
    gives the empty array; one that is not an array has no [map]. *)
Definition formatColumn (list_ : option JVal) (opts : Opts) (h : Heap)
    : Outcome (list JOut) * Heap :=
  match list_ with
  | None => (Ret [], h)
  | Some (VNum x) => if truthy x then formatColumn_array (VNum x) opts h else (Ret [], h)
  | Some (VStr []) => (Ret [], h)
  | Some v => formatColumn_array v opts h
  end.

(** ** The read-only entry points as calls on the store *)

Definition unformat_call (value : JVal) (decimal : option jstring)
    (fallback : option jnumber) (h : Heap) : Outcome JVal * Heap :=
  (Ret (unformat (read_settings h) value decimal fallback), h).

Definition toFixed_call (value precision round : jnumber) (h : Heap)
    : Outcome jstring * Heap :=
  (toFixed (read_settings h) value precision round, h).

(** * Notions used in the statements *)

(** ** Option objects: one field set on top of [o] *)

Definition with_symbol (v : jstring) (o : Opts) : Opts :=
  {| o_symbol := Some v; o_format := o_format o; o_decimal := o_decimal o;
     o_thousand := o_thousand o; o_precision := o_precision o;
     o_grouping := o_grouping o; o_stripZeros := o_stripZeros o;
     o_fallback := o_fallback o; o_round := o_round o |}.

Definition with_format (v : Format) (o : Opts) : Opts :=
  {| o_symbol := o_symbol o; o_format := Some v; o_decimal := o_decimal o;
     o_thousand := o_thousand o; o_precision := o_precision o;
     o_grouping := o_grouping o; o_stripZeros := o_stripZeros o;
     o_fallback := o_fallback o; o_round := o_round o |}.

Definition with_precision (v : jnumber) (o : Opts) : Opts :=
  {| o_symbol := o_symbol o; o_format := o_format o; o_decimal := o_decimal o;
     o_thousand := o_thousand o; o_precision := Some v;
     o_grouping := o_grouping o; o_stripZeros := o_stripZeros o;
     o_fallback := o_fallback o; o_round := o_round o |}.

Definition with_stripZeros (v : bool) (o : Opts) : Opts :=
  {| o_symbol := o_symbol o; o_format := o_format o; o_decimal := o_decimal o;
     o_thousand := o_thousand o; o_precision := o_precision o;
     o_grouping := o_grouping o; o_stripZeros := Some v;
     o_fallback := o_fallback o; o_round := o_round o |}.

Definition with_round (v : jnumber) (o : Opts) : Opts :=
  {| o_symbol := o_symbol o; o_format := o_format o; o_decimal := o_decimal o;
     o_thousand := o_thousand o; o_precision := o_precision o;
     o_grouping := o_grouping o; o_stripZeros := o_stripZeros o;
     o_fallback := o_fallback o; o_round := Some v |}.

(** ** Texts *)

(** The number of minus signs of a text, and the text without them. *)
Definition count_minus (s : jstring) : nat :=
  length (List.filter (is_char "-") s).

Definition without_minus (s : jstring) : jstring :=
  List.filter (fun c => negb (is_char "-" c)) s.

(** The rounding as the specification words it: scale the value by the
    power of ten first, then add the epsilon. *)
Definition toFixed_scale_then_add (st : Settings) (value precision round : jnumber)
    : Outcome jstring :=
  let precision := checkPrecision precision (settings_precision st) in
  let power := Math_pow10 precision in
  let roundMethod :=
    if PrimFloat.ltb 0 round then Math_ceil
    else if PrimFloat.ltb round 0 then Math_floor
    else Math_round in
  Number_toFixed (roundMethod (value * power + 1e-11) / power)%float precision.

(** A text made of decimal digits. *)
Definition all_digits (s : jstring) : Prop :=
  Forall (fun c => is_digit c = true) s.

(** The first and the last character of a text. *)
Definition starts_with (c : ascii) (s : jstring) : bool :=
  match s with d :: _ => Ascii.eqb c d | [] => false end.

Fixpoint ends_with (c : ascii) (s : jstring) : bool :=
  match s with
  | [] => false
  | [d] => Ascii.eqb c d
  | _ :: s' => ends_with c s'
  end.

(** A replacement text is plain when none of its dollar signs starts a
    replacement pattern: no dollar sign is followed by a dollar sign, an
    ampersand, a backquote, a quote or a digit.  A plain text stands for
    itself. *)
Definition starts_pattern (d : ascii) : bool :=
  Ascii.eqb d "$" || Ascii.eqb d "&" || Ascii.eqb d "`" || Ascii.eqb d "'"
  || is_digit d.

Fixpoint plain_replacement (repl : jstring) : bool :=
  match repl with
  | [] => true
  | c :: r =>
      (if Ascii.eqb c "$"
       then match r with d :: _ => negb (starts_pattern d) | [] => true end
       else true)
      && plain_replacement r
  end.

(** Replacement of the first occurrence, the replacement text taken
    literally. *)
Definition replace_first (pat new s : jstring) : jstring :=
  match find_sub pat s with
  | Some (a, b) => a ++ new ++ b
  | None => s
  end.

(** A template without its first minus sign. *)
Definition without_first_minus (f : jstring) : jstring :=
  replace_first (str "-") [] f.

(** The negative template as the specification words it: every literal
    minus sign of the template removed, and a minus inserted before the
    value placeholder. *)
Definition neg_all_minus_removed (f : jstring) : jstring :=
  replace_first (str "%v") (str "-%v") (without_minus f).

(** ** Calls *)

(** A function on the store keeps the cells that exist when it is
    called. *)
Definition keeps_cells {A} (f : Heap -> A * Heap) : Prop :=
  forall (h : Heap) (l : loc) (s : Settings),
    h !! l = Some s -> snd (f h) !! l = Some s.

(** Line 413: the two replacements. *)
Definition substitute (useFormat symbol value : jstring) : jstring :=
  replace_str (replace_str useFormat (str "%s") symbol) (str "%v") value.

(** What [formatMoney] computes for a number from the merged options
    [cfg] and the selected template: lines 412 to 413. *)
Definition money (st cfg : Settings) (useFormat : option jstring) (amount : jnumber)
    : Outcome jstring :=
  match useFormat with
  | None => Throw TypeError
  | Some t =>
      try v := formatNumber_calc st cfg (Math_abs amount) in
      Ret (substitute t (symbol cfg) v)
  end.

(** A result with a minus sign in front. *)
Definition with_minus (r : Outcome jstring) : Outcome jstring :=
  match r with
  | Ret s => Ret ("-"%char :: s)
  | Throw e => Throw e
  end.

(** A text result as a result of the public functions. *)
Definition as_out (r : Outcome jstring) : Outcome JOut :=
  match r with
  | Ret s => Ret (OStr s)
  | Throw e => Throw e
  end.

(** A text without a dollar sign. *)
Definition dollar_free (s : jstring) : Prop :=
  Forall (fun c => Ascii.eqb c "$" = false) s.

(** ** Shapes of nested arrays *)

(** The nesting of a value: a leaf, or an array of shapes. *)
Inductive Shape :=
  | Leaf
  | Node (l : list Shape).

Fixpoint shape_of (v : JVal) : Shape :=
  match v with
  | VArr l => Node (map shape_of l)
  | _ => Leaf
  end.

Fixpoint shape_of_num (n : JNum) : Shape :=
  match n with
  | NArr l => Node (map shape_of_num l)
  | NNum _ => Leaf
  end.

Fixpoint shape_of_out (r : JOut) : Shape :=
  match r with
  | OArr l => Node (map shape_of_out l)
  | OStr _ => Leaf
  end.

(** Every leaf is a number. *)
Fixpoint all_numbers (v : JVal) : bool :=
  match v with
  | VNum _ => true
  | VStr _ => false
  | VArr l => forallb all_numbers l
  end.

(** No leaf is the number NaN. *)
Fixpoint no_NaN (v : JVal) : bool :=
  match v with
  | VNum x => negb (isNaN x)
  | VStr _ => true
  | VArr l => forallb no_NaN l
  end.

(** ** What one item of a pattern can match *)

Definition item_matches (it : item) (m : jstring) : Prop :=
  match it with
  | Cls p One => exists c, m = [c] /\ p c = true
  | Cls p Opt => m = [] \/ exists c, m = [c] /\ p c = true
  | Cls p Star => Forall (fun c => p c = true) m
  | Cls p Plus => m <> [] /\ Forall (fun c => p c = true) m
  | Ahead _ => m = []
  | AtEnd => m = []
  end.

(** ** Results of a call on an array *)

(** The results of the elements, in order, up to the first exception. *)
Fixpoint sequence {A} (l : list (Outcome A)) : Outcome (list A) :=
  match l with
  | [] => Ret []
  | Ret a :: l' =>
      match sequence l' with
      | Ret r => Ret (a :: r)
      | Throw e => Throw e
      end
  | Throw e :: _ => Throw e
  end.

(** A list of results as the result of the public functions. *)
Definition as_arr (r : Outcome (list JOut)) : Outcome JOut :=
  match r with
  | Ret l => Ret (OArr l)
  | Throw e => Throw e
  end.

(** What [formatNumber] and [formatMoney] return, as functions of the
    value [st] of [settings] alone. *)
Fixpoint formatNumber_value (st : Settings) (opts : Opts) (number : JNum) : Outcome JOut :=
  match number with
  | NArr l => as_arr (sequence (map (formatNumber_value st opts) l))
  | NNum x => as_out (formatNumber_calc st (assign st opts) x)
  end.

Fixpoint formatMoney_value (st : Settings) (opts : Opts) (amount : JNum) : Outcome JOut :=
  match amount with
  | NArr l => as_arr (sequence (map (formatMoney_value st opts) l))
  | NNum x =>
      as_out (money st (assign st opts)
                (choose_format (checkCurrencyFormat (format (assign st opts))) x) x)
  end.

(** ** Occurrences that cannot overlap *)

(** A non-empty end of [u] and the text [w] can start the same text:
    an occurrence of [w] can begin inside an occurrence of [u]. *)
Definition clash (u w : jstring) : Prop :=
  exists l l2 x y, u = l ++ l2 /\ l2 <> [] /\ l2 ++ x = w ++ y.

Definition no_overlap (keep pat : jstring) : Prop :=
  ~ clash pat keep /\ ~ clash keep pat.

(** The ways of cutting a pattern of two characters. *)
Ltac split_pattern H :=
  match type of H with
  | _ = ?l ++ _ => destruct l as [|? [|? [|? ?]]]; simplify_eq/=
  end.

(** ** The integer part of a formatted number *)

(** Lines 303 and 306: the digits [base] with the thousands separator,
    the part of [formatted] between the sign and the decimals. *)
Definition grouped (thousand base : jstring) : jstring :=
  let mod_ := if (3 <? length base)%nat then (length base mod 3)%nat else 0%nat in
  (if (0 <? mod_)%nat then substr2 base 0 mod_ ++ thousand else [])
  ++ rx_replace_all rx_group whole_cap (str "$1" ++ thousand) (substr1 base mod_).

(** [Array.prototype.join]. *)
Fixpoint join (sep : jstring) (l : list jstring) : jstring :=
  match l with
  | [] => []
  | [x] => x
  | x :: l' => x ++ sep ++ join sep l'
  end.

(** Groups of digits: one to three digits first, then three at a time. *)
Definition groups_of_three (l : list jstring) : Prop :=
  match l with
  | [] => True
  | g :: rest =>
      (1 <= length g <= 3)%nat /\ Forall (fun g' => length g' = 3%nat) rest
  end.

(** [k] pieces of three characters. *)
Fixpoint chunks3 (k : nat) (s : jstring) : list jstring :=
  match k with
  | O => []
  | S k' => firstn 3 s :: chunks3 k' (skipn 3 s)
  end.

(** ** The text of a formatted number *)

(** The sign, and the digits after the separator [c]: nothing when
    there is no digit. *)
Definition minus_if (neg : bool) : jstring := if neg then str "-" else [].

Definition fraction (c : ascii) (fp : jstring) : jstring :=
  match fp with
  | [] => []
  | _ => c :: fp
  end.

(** * Properties *)

(** ** Single-character patterns *)

Lemma rx_match_single p s :
  rx_match [Cls p One] s =
  match s with
  | c :: s' => if p c then Some ([c], s') else None
  | [] => None
  end.
Proof. destruct s as [|c s']; simpl; [reflexivity|]. destruct (p c); reflexivity. Qed.

Lemma rx_search_single p s :
  rx_search [Cls p One] s =
  match span (fun c => negb (p c)) s with
  | (pre, c :: t) => Some (pre, [c], t)
  | (_, []) => None
  end.
Proof.
  induction s as [|c s IH].
  - reflexivity.
  - cbn [rx_search]. rewrite rx_match_single. cbn [span].
    destruct (p c) eqn:Hp; cbn [negb]; [reflexivity|].
    rewrite IH. destruct (span (fun c0 => negb (p c0)) s) as [pre [|d t]]; reflexivity.
Qed.

Lemma span_length p s : (length (snd (span p s)) <= length s)%nat.
Proof.
  induction s as [|c s IH]; simpl; [lia|].
  destruct (p c); [|simpl; lia].
  destruct (span p s); simpl in *; lia.
Qed.

Lemma span_filter_false p s :
  List.filter p (fst (span (fun c => negb (p c)) s)) = [].
Proof.
  induction s as [|c s IH]; simpl; [reflexivity|].
  destruct (p c) eqn:Hp; simpl; [reflexivity|].
  destruct (span (fun c0 => negb (p c0)) s); simpl in *. rewrite Hp. exact IH.
Qed.

Lemma span_app p s : fst (span p s) ++ snd (span p s) = s.
Proof.
  induction s as [|c s IH]; simpl; [reflexivity|].
  destruct (p c); [|reflexivity].
  destruct (span p s); simpl in *. now rewrite IH.
Qed.

Lemma span_head p s c t : snd (span (fun c => negb (p c)) s) = c :: t -> p c = true.
Proof.
  induction s as [|d s IH]; simpl; [discriminate|].
  destruct (p d) eqn:Hp; simpl.
  - intros [= <- _]. exact Hp.
  - destruct (span (fun c0 => negb (p c0)) s); simpl in *. exact IH.
Qed.

(** [s.match(/c/g)] lists one match per occurrence. *)
Lemma rx_match_all_single p n s :
  (length s < n)%nat ->
  rx_match_all_from n [Cls p One] s = map (fun c => [c]) (List.filter p s).
Proof.
  revert s. induction n as [|n IH]; intros s Hn; [lia|].
  cbn [rx_match_all_from]. rewrite rx_search_single.
  pose proof (span_app (fun c => negb (p c)) s) as Happ.
  pose proof (span_filter_false p s) as Hpre.
  pose proof (span_length (fun c => negb (p c)) s) as Hlen.
  pose proof (span_head p s) as Hhd.
  destruct (span (fun c => negb (p c)) s) as [pre [|c t]]; simpl in *.
  - rewrite <- Happ, app_nil_r, Hpre. reflexivity.
  - specialize (Hhd c t eq_refl).
    rewrite <- Happ, List.filter_app, Hpre. simpl. rewrite Hhd. simpl.
    rewrite <- IH by lia. destruct t; reflexivity.
Qed.

(** [s.replace(/c/g, '')] deletes every occurrence. *)
Lemma rx_replace_all_single p n done s :
  (length s < n)%nat ->
  rx_replace_all_from n [Cls p One] no_caps [] done s = List.filter (fun c => negb (p c)) s.
Proof.
  revert done s. induction n as [|n IH]; intros done s Hn; [lia|].
  cbn [rx_replace_all_from]. rewrite rx_search_single.
  pose proof (span_app (fun c => negb (p c)) s) as Happ.
  pose proof (span_length (fun c => negb (p c)) s) as Hlen.
  pose proof (span_head p s) as Hhd.
  assert (Hpre : List.filter (fun c => negb (p c)) (fst (span (fun c => negb (p c)) s))
                 = fst (span (fun c => negb (p c)) s)).
  { clear. induction s as [|c s IH]; simpl; [reflexivity|].
    destruct (p c) eqn:Hp; simpl; [reflexivity|].
    destruct (span (fun c0 => negb (p c0)) s); simpl in *. rewrite Hp. simpl. now rewrite IH. }
  destruct (span (fun c => negb (p c)) s) as [pre [|c t]]; simpl in *.
  - rewrite <- Happ, app_nil_r, Hpre. reflexivity.
  - specialize (Hhd c t eq_refl).
    subst s. rewrite List.filter_app, Hpre. simpl. rewrite Hhd. simpl.
    rewrite app_nil_r. f_equal. apply IH. rewrite length_app in Hn. simpl in Hn. lia.
Qed.

(** ** unformat: the sign rule *)

Lemma of_nat_mod2 n : Z.of_nat n mod 2 = if Nat.odd n then 1 else 0.
Proof.
  rewrite Zmod_odd. replace (Z.odd (Z.of_nat n)) with (Nat.odd n); [reflexivity|].
  induction n as [|n IH]; [reflexivity|].
  rewrite Nat.odd_succ, Nat2Z.inj_succ, Z.odd_succ.
  rewrite <- Nat.negb_odd, <- Z.negb_odd, IH. reflexivity.
Qed.

(** The flag of line 107 is truthy exactly when the number of minus
    signs is odd; without any minus sign it is NaN, which is falsy. *)
Lemma negative_flag_parity s :
  truthy (negative_flag s) = Nat.odd (count_minus s).
Proof.
  unfold negative_flag, rx_match_all, rx_minus, count_minus.
  rewrite rx_match_all_single by lia.
  destruct (List.filter (is_char "-") s) as [|c l] eqn:E; [reflexivity|].
  cbn [map length]. rewrite length_map, of_nat_mod2.
  destruct (Nat.odd (S (length l))); reflexivity.
Qed.

Lemma strip_minus s :
  rx_replace_all rx_minus no_caps [] s = without_minus s.
Proof. unfold rx_replace_all, rx_minus. apply rx_replace_all_single. lia. Qed.

Lemma unformat_string_eq decimal fallback value :
  unformat_string decimal fallback value =
  let c := cleaned decimal value in
  let product :=
    (parseFloat (without_minus c) * (if Nat.odd (count_minus c) then (-1) else 1))%float in
  if isNaN product then fallback else product.
Proof.
  unfold unformat_string. cbv zeta.
  rewrite negative_flag_parity, strip_minus.
  destruct (isNaN _); reflexivity.
Qed.

(** *** Multiplying by 1 and by -1 is exact *)

Lemma digits_shift52 m :
  Zpos (digits2_pos (m * 4503599627370496)) = Zpos (digits2_pos m) + 52.
Proof. rewrite !Pos.mul_xO_r, Pos.mul_1_r. cbn [digits2_pos]. lia. Qed.

Lemma SFmul_unit x sgn :
  valid_binary x = true ->
  SF64mul x (S754_finite sgn 4503599627370496 (-52))
  = match x with
    | S754_zero s => S754_zero (xorb s sgn)
    | S754_infinity s => S754_infinity (xorb s sgn)
    | S754_nan => S754_nan
    | S754_finite s m e => S754_finite (xorb s sgn) m e
    end.
Proof.
  destruct x as [s|s| |s m e]; try reflexivity.
  unfold SF64mul; cbn [SpecFloat.valid_binary SFmul]. unfold bounded, canonical_mantissa.
  intros H. apply andb_true_iff in H. destruct H as [Hc Hb].
  apply Z.eqb_eq in Hc.
  unfold binary_round_aux, shr_fexp. cbn [Zdigits2].
  rewrite digits_shift52.
  replace (fexp prec emax (Zpos (digits2_pos m) + 52 + (e + -52)) - (e + -52)) with 52
    by (replace (Zpos (digits2_pos m) + 52 + (e + -52))
          with (Zpos (digits2_pos m) + e) by lia; lia).
  rewrite !Pos.mul_xO_r, Pos.mul_1_r.
  cbn [shr shr_record_of_loc SpecFloat.iter_pos shr_1 orb loc_of_shr_record shr_m
       round_nearest_even].
  replace (e + -52 + 52) with e by lia.
  cbn [Zdigits2]. rewrite Hc, Z.sub_diag. cbn [shr shr_m shr_record_of_loc].
  now rewrite Hb.
Qed.

Lemma mul_one (x : jnumber) : (x * 1)%float = x.
Proof.
  apply Prim2SF_inj. rewrite mul_spec.
  change (Prim2SF 1) with (S754_finite false 4503599627370496 (-52)).
  rewrite SFmul_unit by apply Prim2SF_valid.
  destruct (Prim2SF x) as [[|]|[|]| |[|] m e]; reflexivity.
Qed.

Lemma mul_minus_one (x : jnumber) : (x * (-1))%float = (- x)%float.
Proof.
  apply Prim2SF_inj. rewrite mul_spec, opp_spec.
  change (Prim2SF (-1)) with (S754_finite true 4503599627370496 (-52)).
  rewrite SFmul_unit by apply Prim2SF_valid.
  destruct (Prim2SF x) as [[|]|[|]| |[|] m e]; reflexivity.
Qed.

Lemma isNaN_opp (x : jnumber) : isNaN (- x) = isNaN x.
Proof.
  unfold isNaN, is_nan. rewrite !FloatAxioms.eqb_spec, opp_spec. f_equal.
  unfold SFeqb.
  destruct (Prim2SF x) as [[|]|[|]| |[|] m e]; try reflexivity;
    cbn [SFopp negb SFcompare]; rewrite Z.compare_refl;
    change (PosDef.Pos.compare_cont Eq m m) with (Pos.compare m m);
    rewrite Pos.compare_refl; reflexivity.
Qed.

Lemma opp_positive_negative (x : jnumber) :
  PrimFloat.ltb 0 x = true ->
  PrimFloat.ltb (- x) 0 = true /\ PrimFloat.ltb x 0 = false /\ isNaN x = false.
Proof.
  unfold isNaN, is_nan. rewrite !ltb_spec, FloatAxioms.eqb_spec, opp_spec.
  change (Prim2SF 0) with (S754_zero false).
  unfold SFeqb.
  destruct (Prim2SF x) as [[|]|[|]| |[|] m e]; try discriminate; intros _;
    repeat split; try reflexivity.
  cbn [SFcompare]. rewrite Z.compare_refl.
  change (PosDef.Pos.compare_cont Eq m m) with (Pos.compare m m).
  rewrite Pos.compare_refl. reflexivity.
Qed.

(** C1 (the claim fails on the code).  [unformat] turns ["-(100)"] into
    ["--100"], which carries two minus signs, so the result is 100 and
    not -100; and the cleaned string ["-"] carries one minus sign while
    the result, the fallback 0, is not negative. *)
Lemma unformat_minus_bracket_counterexample :
  unformat settings (VStr (str "-(100)")) None None <> VNum (-100)
  /\ Nat.odd (count_minus (cleaned (str ".") (str "-"))) = true
  /\ PrimFloat.ltb (as_number (unformat settings (VStr (str "-")) None None)) 0 = false.
Proof.
  split; [|split; vm_compute; reflexivity].
  intro H.
  apply (f_equal (fun v => PrimFloat.ltb (as_number v) 0)) in H.
  vm_compute in H. discriminate H.
Qed.

(** C1, amended.  For every string, with a decimal separator free of
    class metacharacters, let [m] be the magnitude parsed from the
    cleaned string without its minus signs.  [unformat] returns the
    fallback when [m] is not a number, [-m] when the cleaned string
    carries an odd number of minus signs and [m] otherwise (no minus
    sign counts as even); so whenever [m] is positive, the result is
    negative if and only if the count of minus signs is odd.  In
    particular [unformat("(1.99)")] is -1.99, [unformat("--100")] is 100
    and [unformat("-(100)")] is 100. *)
Theorem unformat_sign_rule st value decimal fallback :
  plain_decimal (default (settings_decimal st) decimal) = true ->
  let c := cleaned (default (settings_decimal st) decimal) value in
  let m := parseFloat (without_minus c) in
  unformat st (VStr value) decimal fallback
  = VNum (if isNaN m then default (settings_fallback st) fallback
          else if Nat.odd (count_minus c) then (- m)%float else m)
  /\ (PrimFloat.ltb 0 m = true ->
      (PrimFloat.ltb (as_number (unformat st (VStr value) decimal fallback)) 0 = true
       <-> Nat.odd (count_minus c) = true))
  /\ unformat settings (VStr (str "(1.99)")) None None = VNum (-1.99)
  /\ unformat settings (VStr (str "--100")) None None = VNum 100
  /\ unformat settings (VStr (str "-(100)")) None None = VNum 100.
Proof.
  intros _ c m.
  assert (E : unformat st (VStr value) decimal fallback
              = VNum (if isNaN m then default (settings_fallback st) fallback
                      else if Nat.odd (count_minus c) then (- m)%float else m)).
  { unfold unformat. cbn [unformat_with]. rewrite unformat_string_eq. cbv zeta.
    fold c. fold m. destruct (Nat.odd (count_minus c)).
    - rewrite mul_minus_one, isNaN_opp. reflexivity.
    - rewrite mul_one. reflexivity. }
  split; [exact E|]. split; [|repeat split; vm_compute; reflexivity].
  intros Hpos. rewrite E. cbn [as_number].
  destruct (opp_positive_negative m Hpos) as (H1 & H2 & H3). rewrite H3.
  destruct (Nat.odd (count_minus c)); [rewrite H1 | rewrite H2]; split; congruence.
Qed.

Lemma unformat_sign_rule_witness :
  unformat settings (VStr (str "$ -1,234.50")) None None = VNum (-1234.5)
  /\ PrimFloat.ltb (as_number (unformat settings (VStr (str "$ -1,234.50")) None None)) 0
     = true.
Proof.
  destruct (unformat_sign_rule settings (str "$ -1,234.50") None None) as (H & S & _).
  - vm_compute. reflexivity.
  - split.
    + rewrite H. vm_compute. reflexivity.
    + apply S; vm_compute; reflexivity.
Defined.

(** ** toFixed *)

Lemma uint_digits_all d : all_digits (uint_digits d).
Proof. induction d; simpl; constructor; (reflexivity || assumption). Qed.

Lemma uint_digits_nil d : uint_digits d = [] -> d = Nil.
Proof. destruct d; simpl; (reflexivity || discriminate). Qed.

Lemma Z_digits_all n : all_digits (Z_digits n).
Proof.
  destruct n; simpl; try (constructor; [reflexivity|constructor]).
  apply uint_digits_all.
Qed.

Lemma Z_digits_nonempty n : Z_digits n <> [].
Proof.
  destruct n; simpl; try discriminate.
  intro H. apply uint_digits_nil in H. now apply DecimalPos.Unsigned.to_uint_nonnil in H.
Qed.

Lemma zeros_all n : all_digits (zeros n).
Proof. induction n; simpl; constructor; (reflexivity || assumption). Qed.

(** The rendering of [Number.prototype.toFixed]: an integer part, and
    for a positive digit count a point and exactly that many digits. *)
Lemma fixed_render_shape n f :
  0 <= f ->
  exists ip fp,
    fixed_render n f = ip ++ (if f =? 0 then [] else "."%char :: fp)
    /\ ip <> [] /\ all_digits ip /\ all_digits fp /\ length fp = Z.to_nat f.
Proof.
  intros Hf. unfold fixed_render.
  destruct (f =? 0) eqn:E.
  - apply Z.eqb_eq in E. subst f.
    exists (Z_digits n), []. rewrite app_nil_r.
    repeat split; [apply Z_digits_nonempty | apply Z_digits_all | constructor].
  - apply Z.eqb_neq in E.
    set (fl := Z.to_nat f).
    set (ds := zeros (fl + 1 - length (Z_digits n)) ++ Z_digits n).
    assert (Hlen : (fl + 1 <= length ds)%nat).
    { unfold ds. rewrite length_app. unfold zeros. rewrite repeat_length. lia. }
    assert (Hall : all_digits ds).
    { unfold ds. apply Forall_app. split; [apply zeros_all | apply Z_digits_all]. }
    exists (firstn (length ds - fl) ds), (skipn (length ds - fl) ds).
    rewrite <- (firstn_skipn (length ds - fl) ds) in Hall.
    apply Forall_app in Hall. destruct Hall as [H1 H2].
    repeat split; try assumption.
    + intro H0. apply (f_equal (@length ascii)) in H0.
      rewrite length_firstn in H0. simpl in H0. lia.
    + rewrite length_skipn. lia.
Qed.

Lemma Prim2SF_finite_cases x :
  is_finite x = true ->
  (exists s, Prim2SF x = S754_zero s) \/ (exists s m e, Prim2SF x = S754_finite s m e).
Proof.
  unfold is_finite, Prim2SF. intros H.
  apply negb_true_iff, orb_false_iff in H. destruct H as [-> H2]. 
  destruct (is_zero x); [left; eauto|]. rewrite H2.
  destruct (Z.frexp x) as [r ex].
  destruct (shr_fexp prec emax _ _ _) as [sh e'].
  destruct (shr_m sh); [left; eauto | right; eauto | left; eauto].
Qed.

(** C4 (the claim fails on the code).  With the value scaled first and
    the epsilon added afterwards, 0.124999999995 would round to ["0.12"]
    at two places; the code adds the epsilon first and returns ["0.13"].
    And from 10^21 on the rendering has no digit after a decimal point:
    [toFixed(1e22, 2)] is ["1e+22"]. *)
Lemma toFixed_epsilon_counterexample :
  toFixed settings 0.124999999995 2 0 = Ret (str "0.13")
  /\ toFixed_scale_then_add settings 0.124999999995 2 0 = Ret (str "0.12")
  /\ toFixed settings 0.124999999995 2 0
     <> toFixed_scale_then_add settings 0.124999999995 2 0
  /\ toFixed settings 1e22 2 0 = Ret (str "1e+22").
Proof.
  assert (H1 : toFixed settings 0.124999999995 2 0 = Ret (str "0.13"))
    by (vm_compute; reflexivity).
  assert (H2 : toFixed_scale_then_add settings 0.124999999995 2 0 = Ret (str "0.12"))
    by (vm_compute; reflexivity).
  split; [exact H1|]. split; [exact H2|]. split; [|vm_compute; reflexivity].
  rewrite H1, H2. vm_compute. discriminate.
Qed.

(** C4, amended.  [toFixed] adds the epsilon 1e-11 to the value, then
    scales the sum by 10^precision, applies the rounding primitive
    selected by the direction flag (ceiling if > 0, floor if < 0, nearest
    otherwise) and scales back down; when the normalised precision is an
    integer between 0 and 100 and the rounded number is finite and below
    10^21 in magnitude, the result is rendered with an optional minus
    sign, an integer part, and exactly precision digits after the
    decimal point.  In particular [toFixed(0.615, 2)] is ["0.62"] where
    the native rendering of 0.615 is ["0.61"]. *)
Theorem toFixed_rounding st value precision round f :
  let p := checkPrecision precision (settings_precision st) in
  let roundMethod :=
    if PrimFloat.ltb 0 round then Math_ceil
    else if PrimFloat.ltb round 0 then Math_floor
    else Math_round in
  let r := (roundMethod ((value + 1e-11) * Math_pow10 p) / Math_pow10 p)%float in
  ToIntegerOrInfinity p = Fin f ->
  0 <= f <= 100 ->
  is_finite r = true ->
  PrimFloat.leb 1e21 (Math_abs r) = false ->
  (toFixed st value precision round = Number_toFixed r p
   /\ exists sign ip fp,
        toFixed st value precision round
        = Ret (sign ++ ip ++ (if f =? 0 then [] else "."%char :: fp))
        /\ (sign = [] \/ sign = str "-")
        /\ ip <> [] /\ all_digits ip /\ all_digits fp
        /\ length fp = Z.to_nat f)
  /\ toFixed settings 0.615 2 0 = Ret (str "0.62")
  /\ Number_toFixed 0.615 2 = Ret (str "0.61").
Proof.
  intros p roundMethod r Hp Hf Hfin Hsmall.
  split; [|split; vm_compute; reflexivity].
  split; [reflexivity|].
  change (toFixed st value precision round) with (Number_toFixed r p).
  unfold Number_toFixed. rewrite Hp.
  replace ((f <? 0) || (100 <? f)) with false
    by (symmetry; apply orb_false_iff; split; [apply Z.ltb_ge | apply Z.ltb_ge]; lia).
  destruct (fixed_render_shape 0 f) as (ip0 & fp0 & E0 & ?) ; [lia|].
  destruct (Prim2SF_finite_cases r Hfin) as [[s ->] | (s & m & e & ->)].
  - exists [], ip0, fp0. rewrite E0. tauto.
  - rewrite Hsmall.
    destruct (fixed_render_shape (fixed_int m e f) f) as (ip & fp & E & ?); [lia|].
    exists (if s then str "-" else []), ip, fp. rewrite E.
    split; [reflexivity|]. split; [destruct s; auto | assumption].
Qed.

Lemma toFixed_rounding_witness :
  exists sign ip fp,
    toFixed settings 1234.5678 2 0
    = Ret (sign ++ ip ++ (if 2 =? 0 then [] else "."%char :: fp))
    /\ length fp = Z.to_nat 2.
Proof.
  destruct (toFixed_rounding settings 1234.5678 2 0 2) as [[_ (sign & ip & fp & H & _ & _ & _ & _ & L)] _].
  - vm_compute. reflexivity.
  - lia.
  - vm_compute. reflexivity.
  - vm_compute. reflexivity.
  - exists sign, ip, fp. split; assumption.
Defined.

(** ** Occurrences of a pattern in a string *)

Lemma is_prefix_skipn pat s :
  is_prefix pat s = true -> s = pat ++ skipn (length pat) s.
Proof.
  revert s. induction pat as [|x pat IH]; intros [|y s]; simpl; try easy.
  intros H. apply andb_true_iff in H. destruct H as [H1 H2].
  apply Ascii.eqb_eq in H1. subst y. f_equal. now apply IH.
Qed.

Lemma find_sub_some pat s pre post :
  find_sub pat s = Some (pre, post) -> s = pre ++ pat ++ post.
Proof.
  revert pre post. induction s as [|c s IH]; intros pre post.
  - simpl. destruct (is_prefix pat []) eqn:E; [|discriminate].
    intros [= <- <-]. now apply is_prefix_skipn in E.
  - cbn [find_sub]. destruct (is_prefix pat (c :: s)) eqn:E.
    + intros [= <- <-]. now apply is_prefix_skipn in E.
    + destruct (find_sub pat s) as [[a b]|]; [|discriminate].
      intros [= <- <-]. simpl. f_equal. now apply IH.
Qed.

Lemma contains_cons s pat c :
  contains (c :: s) pat = is_prefix pat (c :: s) || contains s pat.
Proof.
  unfold contains. cbn [find_sub].
  destruct (is_prefix pat (c :: s)); [reflexivity|].
  destruct (find_sub pat s) as [[a b]|]; reflexivity.
Qed.

Lemma is_prefix_pair p q c s :
  is_prefix [p; q] (c :: s) = Ascii.eqb p c && starts_with q s.
Proof. destruct s; simpl; [|rewrite andb_true_r]; reflexivity. Qed.

(** A two-character pattern occurs in [x ++ y] inside [x], inside [y],
    or astride the two. *)
Lemma contains_app_pair p q x y :
  contains (x ++ y) [p; q]
  = contains x [p; q] || contains y [p; q] || (ends_with p x && starts_with q y).
Proof.
  induction x as [|c x IH].
  - simpl. now rewrite orb_false_r.
  - cbn [app]. rewrite !contains_cons, !is_prefix_pair, IH.
    destruct x as [|d x].
    + cbn [app starts_with ends_with contains find_sub is_prefix].
      destruct (Ascii.eqb p c), (starts_with q y), (contains y [p; q]); reflexivity.
    + cbn [app starts_with]. change (ends_with p (c :: d :: x)) with (ends_with p (d :: x)).
      destruct (Ascii.eqb p c), (Ascii.eqb q d), (contains (d :: x) [p; q]),
        (contains y [p; q]), (ends_with p (d :: x) && starts_with q y); reflexivity.
Qed.

Lemma contains_no_first p q s : mem_char p s = false -> contains s [p; q] = false.
Proof.
  induction s as [|c s IH]; [reflexivity|].
  cbn [mem_char]. intros H. apply orb_false_iff in H. destruct H as [H1 H2].
  rewrite contains_cons, is_prefix_pair, IH by assumption.
  rewrite Ascii.eqb_sym, H1. reflexivity.
Qed.

Lemma ends_with_mem c s : mem_char c s = false -> ends_with c s = false.
Proof.
  induction s as [|d s IH]; [reflexivity|].
  cbn [mem_char]. intros H. apply orb_false_iff in H. destruct H as [H1 H2].
  destruct s as [|e s]; [simpl; now rewrite Ascii.eqb_sym | now apply IH].
Qed.

(** The first occurrence of a two-character pattern. *)
Lemma find_sub_pair_first p q x y :
  contains (x ++ [p]) [p; q] = false ->
  find_sub [p; q] (x ++ p :: q :: y) = Some (x, y).
Proof.
  induction x as [|c x IH]; intros H.
  - simpl. rewrite !Ascii.eqb_refl. reflexivity.
  - cbn [app] in *. rewrite contains_cons, is_prefix_pair in H.
    apply orb_false_iff in H. destruct H as [H1 H2].
    cbn [find_sub]. rewrite is_prefix_pair.
    replace (starts_with q (x ++ p :: q :: y)) with (starts_with q (x ++ [p]))
      by (destruct x; reflexivity).
    rewrite H1, IH by assumption. reflexivity.
Qed.


Lemma contains_false_find s pat : contains s pat = false -> find_sub pat s = None.
Proof. unfold contains. destruct (find_sub pat s); [discriminate|reflexivity]. Qed.

Lemma contains_true_find s pat :
  contains s pat = true -> exists a b, find_sub pat s = Some (a, b).
Proof. unfold contains. destruct (find_sub pat s) as [[a b]|]; [eauto|discriminate]. Qed.

Lemma get_substitution_plain m pre post caps repl :
  plain_replacement repl = true -> get_substitution m pre post caps repl = repl.
Proof.
  induction repl as [|c r IH]; [reflexivity|].
  cbn [plain_replacement]. intros H. apply andb_true_iff in H. destruct H as [H1 H2].
  cbn [get_substitution]. destruct (Ascii.eqb c "$"); cbn [negb].
  - destruct r as [|d r1]; [reflexivity|].
    apply negb_true_iff in H1. unfold starts_pattern in H1.
    repeat (apply orb_false_iff in H1; destruct H1 as [H1 ?]).
    repeat match goal with E : _ = false |- _ => rewrite E; clear E end.
    now rewrite IH.
  - now rewrite IH.
Qed.

Lemma replace_str_plain s pat repl :
  plain_replacement repl = true -> replace_str s pat repl = replace_first pat repl s.
Proof.
  intros H. unfold replace_str, replace_first.
  destruct (find_sub pat s) as [[a b]|]; [|reflexivity].
  now rewrite get_substitution_plain.
Qed.

(** ** checkCurrencyFormat *)

Lemma without_first_minus_contains f :
  contains f (str "%v") = true ->
  contains (without_first_minus f) (str "%v") = true.
Proof.
  unfold without_first_minus, replace_first.
  destruct (find_sub (str "-") f) as [[a b]|] eqn:E; [|trivial].
  apply find_sub_some in E. subst f.
  change (str "%v") with ["%"%char; "v"%char]. change (str "-") with ["-"%char].
  cbn [app]. rewrite !contains_app_pair, contains_cons, is_prefix_pair.
  cbn [starts_with]. 
  change (Ascii.eqb "%" "-") with false. change (Ascii.eqb "v" "-") with false.
  rewrite andb_false_r, orb_false_r. cbn [andb orb].
  intros H. apply orb_true_iff in H. destruct H as [-> | ->]; [reflexivity|].
  rewrite orb_true_r. reflexivity.
Qed.

(** C6 (read with every minus sign removed, the claim fails on the
    code).  In the template ["%s -- %v"] only the first of the two minus
    signs is removed. *)
Lemma checkCurrencyFormat_minus_counterexample :
  get_neg (checkCurrencyFormat (FString (str "%s -- %v"))) = Some (str "%s - -%v")
  /\ neg_all_minus_removed (str "%s -- %v") = str "%s  -%v"
  /\ get_neg (checkCurrencyFormat (FString (str "%s -- %v")))
     <> Some (neg_all_minus_removed (str "%s -- %v")).
Proof.
  repeat split; try (vm_compute; reflexivity).
  vm_compute. discriminate.
Qed.

(** C6, amended.  For every single-string template containing %v, the
    derived negative template is the template with its first literal
    minus sign (if any) removed and a minus inserted immediately before
    the first %v of the text so obtained; the positive template and the
    zero template are the template itself. *)
Theorem checkCurrencyFormat_string f :
  contains f (str "%v") = true ->
  exists c d,
    find_sub (str "%v") (without_first_minus f) = Some (c, d)
    /\ checkCurrencyFormat (FString f)
       = FObject f (Some (c ++ str "-%v" ++ d)) (Some f).
Proof.
  intros H.
  destruct (contains_true_find _ _ (without_first_minus_contains f H)) as (c & d & E).
  exists c, d. split; [exact E|].
  unfold checkCurrencyFormat. rewrite H.
  rewrite (replace_str_plain f (str "-") []) by reflexivity.
  rewrite replace_str_plain by reflexivity.
  fold (without_first_minus f). unfold replace_first at 1. rewrite E. reflexivity.
Qed.

Lemma checkCurrencyFormat_string_witness :
  exists c d,
    find_sub (str "%v") (without_first_minus (str "%s (-%v)")) = Some (c, d)
    /\ checkCurrencyFormat (FString (str "%s (-%v)"))
       = FObject (str "%s (-%v)") (Some (c ++ str "-%v" ++ d)) (Some (str "%s (-%v)")).
Proof.
  apply (checkCurrencyFormat_string (str "%s (-%v)")). vm_compute. reflexivity.
Defined.

(** ** The store: what a call writes *)

Lemma fresh_unused (h : Heap) : h !! new_ref h = None.
Proof.
  apply (not_elem_of_dom (D := gset positive)). unfold new_ref.
  apply (is_fresh (dom h : gset positive)).
Qed.

Lemma merge_options_eq opts (h : Heap) :
  merge_options opts h
  = (new_ref h, <[ new_ref h := assign (read_settings h) opts ]> h).
Proof.
  unfold merge_options, objectAssign.
  rewrite lookup_insert_eq. cbn [fold_left]. now rewrite insert_insert_eq.
Qed.

Lemma merge_options_keeps opts : keeps_cells (merge_options opts).
Proof.
  intros h l s H. rewrite merge_options_eq. cbn [snd].
  rewrite lookup_insert_ne; [exact H|].
  intros <-. rewrite fresh_unused in H. discriminate.
Qed.

Lemma formatNumber_scalar_keeps x opts : keeps_cells (formatNumber_scalar x opts).
Proof.
  intros h l s H. unfold formatNumber_scalar.
  pose proof (merge_options_keeps opts h l s H) as K.
  destruct (merge_options opts h) as [o h1]. exact K.
Qed.

Lemma render_keeps useFormat opts x : keeps_cells (render useFormat opts x).
Proof.
  intros h l s H. unfold render. destruct useFormat as [t|]; [|exact H].
  pose proof (formatNumber_scalar_keeps (Math_abs x) (all_opts opts) h l s H) as K.
  destruct (formatNumber_scalar (Math_abs x) (all_opts opts) h) as [[v|e] h1] eqn:E;
    try rewrite E in K; exact K.
Qed.

Lemma formatMoney_scalar_keeps x opts : keeps_cells (formatMoney_scalar x opts).
Proof.
  intros h l s H. unfold formatMoney_scalar.
  pose proof (merge_options_keeps opts h l s H) as K.
  destruct (merge_options opts h) as [o h1]. cbn [snd] in K.
  now apply render_keeps.
Qed.

Lemma out_str_snd {A} (r : Outcome jstring * A) : snd (out_str r) = snd r.
Proof. destruct r as [[?|?] ?]; reflexivity. Qed.

Lemma out_arr_snd {A} (r : Outcome (list JOut) * A) : snd (out_arr r) = snd r.
Proof. destruct r as [[?|?] ?]; reflexivity. Qed.

Lemma map_M_keeps {A B} (f : A -> Heap -> Outcome B * Heap) l :
  Forall (fun a => keeps_cells (f a)) l -> keeps_cells (map_M f l).
Proof.
  induction 1 as [|a l Ha _ IH]; intros h k s H; [exact H|].
  cbn [map_M]. pose proof (Ha h k s H) as K.
  destruct (f a h) as [[r|e] h1] eqn:E; try rewrite E in K; [|exact K].
  pose proof (IH h1 k s K) as K2. fold (map_M f) in *.
  destruct (map_M f l h1) as [[rs|e] h2] eqn:E2; try rewrite E2 in K2; exact K2.
Qed.

(** Induction on nested arrays. *)
Lemma JNum_nested_ind (P : JNum -> Prop) :
  (forall x, P (NNum x)) ->
  (forall l, Forall P l -> P (NArr l)) ->
  forall n, P n.
Proof.
  intros Hnum Harr. fix IH 1. intros [x|l].
  - apply Hnum.
  - apply Harr. induction l as [|a l IHl]; constructor; [apply IH | exact IHl].
Qed.

Lemma JVal_nested_ind (P : JVal -> Prop) :
  (forall x, P (VNum x)) ->
  (forall s, P (VStr s)) ->
  (forall l, Forall P l -> P (VArr l)) ->
  forall v, P v.
Proof.
  intros Hnum Hstr Harr. fix IH 1. intros [x|s|l].
  - apply Hnum.
  - apply Hstr.
  - apply Harr. induction l as [|a l IHl]; constructor; [apply IH | exact IHl].
Qed.

Lemma formatNumber_keeps number opts : keeps_cells (formatNumber number opts).
Proof.
  induction number as [x|l IH] using JNum_nested_ind; intros h k s H; cbn [formatNumber].
  - rewrite out_str_snd. now apply formatNumber_scalar_keeps.
  - rewrite out_arr_snd. now apply (map_M_keeps _ l IH).
Qed.

Lemma formatMoney_keeps amount opts : keeps_cells (formatMoney amount opts).
Proof.
  induction amount as [x|l IH] using JNum_nested_ind; intros h k s H; cbn [formatMoney].
  - rewrite out_str_snd. now apply formatMoney_scalar_keeps.
  - rewrite out_arr_snd. now apply (map_M_keeps _ l IH).
Qed.

Lemma format_cell_keeps column formats opts val m :
  (forall o, keeps_cells (column val o)) ->
  keeps_cells (fun h => fst (format_cell column formats opts val m h)).
Proof.
  intros Hc h k s H. unfold format_cell.
  assert (R : forall x,
    snd (fst (match render (choose_format formats x) opts x h with
              | (Ret fVal, h') => (Ret (OStr fVal), h', Nat.max m (length fVal))
              | (Throw e, h') => (@Throw JOut e, h', m)
              end)) !! k = Some s).
  { intros x. pose proof (render_keeps (choose_format formats x) opts x h k s H) as K.
    destruct (render (choose_format formats x) opts x h) as [[v|e] h'] eqn:E;
      try rewrite E in K; exact K. }
  destruct val as [x|t|l]; [apply R | apply R |].
  cbn [fst]. rewrite out_arr_snd. now apply Hc.
Qed.

Lemma first_pass_keeps column formats opts l :
  Forall (fun val => forall o, keeps_cells (column val o)) l ->
  forall m, keeps_cells (first_pass column formats opts l m).
Proof.
  induction 1 as [|val l Hv _ IH]; intros m h k s H; [exact H|].
  cbn [first_pass].
  pose proof (format_cell_keeps column formats opts val m Hv h k s H) as K.
  cbv beta in K.
  destruct (format_cell column formats opts val m h) as [[r h'] m'] eqn:E.
  try rewrite E in K. cbn [fst snd] in K.
  destruct r as [x|e]; [|exact K].
  pose proof (IH m' h' k s K) as K2. fold (first_pass column formats opts) in *.
  destruct (first_pass column formats opts l m' h') as [[[xs m'']|e] h''] eqn:E2;
    try rewrite E2 in K2; exact K2.
Qed.

Lemma formatColumn_array_keeps v : forall opts, keeps_cells (formatColumn_array v opts).
Proof.
  induction v as [x|t|l IH] using JVal_nested_ind; intros opts h k s H;
    cbn [formatColumn_array];
    pose proof (merge_options_keeps opts h k s H) as K;
    destruct (merge_options opts h) as [o h1]; cbn [snd] in K; try exact K.
  destruct (get_pos _) as [pos|]; [|exact K].
  pose proof (first_pass_keeps formatColumn_array
                (checkCurrencyFormat (format (deref h1 o))) (deref h1 o) l IH O h1 k s K) as K2.
  destruct (first_pass _ _ _ l O h1) as [[[xs m]|e] h2] eqn:E2; try rewrite E2 in K2; exact K2.
Qed.

Lemma formatColumn_keeps list_ opts : keeps_cells (formatColumn list_ opts).
Proof.
  intros h k s H. unfold formatColumn.
  destruct list_ as [[x|[|c t]|l]|]; try exact H;
    try (now apply formatColumn_array_keeps).
  destruct (truthy x); [now apply formatColumn_array_keeps | exact H].
Qed.

(** C9.  No formatting or parsing call changes the default settings
    object: whatever the arguments and the per-call options, the object
    that [settings_ref] refers to holds after the call the record it
    held before.  Each call writes its merged configuration into a cell
    of its own. *)
Theorem settings_never_mutated (h : Heap) (s : Settings) :
  h !! settings_ref = Some s ->
  (forall value decimal fallback,
      snd (unformat_call value decimal fallback h) !! settings_ref = Some s)
  /\ (forall value precision round,
      snd (toFixed_call value precision round h) !! settings_ref = Some s)
  /\ (forall number opts, snd (formatNumber number opts h) !! settings_ref = Some s)
  /\ (forall amount opts, snd (formatMoney amount opts h) !! settings_ref = Some s)
  /\ (forall list_ opts, snd (formatColumn list_ opts h) !! settings_ref = Some s).
Proof.
  intros H. repeat split; intros.
  - exact H.
  - exact H.
  - now apply formatNumber_keeps.
  - now apply formatMoney_keeps.
  - now apply formatColumn_keeps.
Qed.

Lemma settings_never_mutated_witness :
  snd (formatMoney (NArr [NNum 12345678; NNum (-0.5)]) (with_symbol (str "GBP") no_opts)
         initial_heap) !! settings_ref = Some settings.
Proof.
  destruct (settings_never_mutated initial_heap settings) as (_ & _ & _ & H & _).
  - reflexivity.
  - apply H.
Defined.

(** ** What a call on a number computes *)

Lemma assign_all_opts s cfg : assign s (all_opts cfg) = cfg.
Proof. destruct cfg; reflexivity. Qed.

Lemma merge_options_settings opts (h : Heap) st :
  h !! settings_ref = Some st ->
  read_settings (snd (merge_options opts h)) = st
  /\ snd (merge_options opts h) !! settings_ref = Some st
  /\ deref (snd (merge_options opts h)) (fst (merge_options opts h)) = assign st opts.
Proof.
  intros H. rewrite merge_options_eq. cbn [fst snd].
  assert (N : new_ref h <> settings_ref).
  { intros E. pose proof (fresh_unused h) as F. rewrite E, H in F. discriminate. }
  unfold read_settings, deref.
  rewrite lookup_insert_ne by exact N. rewrite lookup_insert_eq, H. cbn [default].
  repeat split; reflexivity.
Qed.

Lemma formatNumber_scalar_result x opts (h : Heap) st :
  h !! settings_ref = Some st ->
  fst (formatNumber_scalar x opts h) = formatNumber_calc st (assign st opts) x
  /\ snd (formatNumber_scalar x opts h) !! settings_ref = Some st.
Proof.
  intros H. unfold formatNumber_scalar.
  destruct (merge_options_settings opts h st H) as (E1 & E2 & E3).
  destruct (merge_options opts h) as [o h1]. cbn [fst snd] in *.
  now rewrite E1, E3.
Qed.

Lemma render_result useFormat cfg x (h : Heap) st :
  h !! settings_ref = Some st ->
  fst (render useFormat cfg x h) = money st cfg useFormat x.
Proof.
  intros H. unfold render, money. destruct useFormat as [t|]; [|reflexivity].
  destruct (formatNumber_scalar_result (Math_abs x) (all_opts cfg) h st H) as [E _].
  rewrite assign_all_opts in E.
  destruct (formatNumber_scalar (Math_abs x) (all_opts cfg) h) as [[v|e] h1];
    cbn [fst] in E; rewrite <- E; reflexivity.
Qed.

Lemma formatMoney_scalar_result amount opts (h : Heap) st :
  h !! settings_ref = Some st ->
  fst (formatMoney_scalar amount opts h)
  = money st (assign st opts)
      (choose_format (checkCurrencyFormat (format (assign st opts))) amount) amount.
Proof.
  intros H. unfold formatMoney_scalar.
  destruct (merge_options_settings opts h st H) as (E1 & E2 & E3).
  destruct (merge_options opts h) as [o h1]. cbn [fst snd] in *.
  rewrite E3. now apply render_result.
Qed.

Lemma out_str_fst {A} (r : Outcome jstring * A) :
  fst (out_str r) = match fst r with Ret s => Ret (OStr s) | Throw e => Throw e end.
Proof. destruct r as [[?|?] ?]; reflexivity. Qed.

(** ** Signs *)

Lemma Prim2SF_zero : Prim2SF 0 = S754_zero false.
Proof. reflexivity. Qed.

Lemma abs_not_negative x : PrimFloat.ltb (Math_abs x) 0 = false.
Proof.
  unfold Math_abs. rewrite ltb_spec, abs_spec, Prim2SF_zero.
  destruct (Prim2SF x) as [s|s| |s m e]; reflexivity.
Qed.

Lemma abs_abs x : Math_abs (Math_abs x) = Math_abs x.
Proof.
  unfold Math_abs. apply Prim2SF_inj. rewrite !abs_spec.
  destruct (Prim2SF x); reflexivity.
Qed.

Lemma abs_opp (x : jnumber) : Math_abs (- x) = Math_abs x.
Proof.
  unfold Math_abs. apply Prim2SF_inj.
  rewrite !abs_spec, opp_spec. destruct (Prim2SF x); reflexivity.
Qed.

Lemma negative_not_positive x : PrimFloat.ltb x 0 = true -> PrimFloat.ltb 0 x = false.
Proof.
  rewrite !ltb_spec, Prim2SF_zero.
  destruct (Prim2SF x) as [s|[|]| |[|] m e]; try reflexivity; discriminate.
Qed.

Lemma formatted_text_negative st cfg x :
  PrimFloat.ltb x 0 = true ->
  formatted_text st cfg x = with_minus (formatted_text st cfg (Math_abs x)).
Proof.
  intros Hneg. unfold formatted_text.
  rewrite Hneg, abs_not_negative, abs_abs.
  destruct (toFixed st (Math_abs x) (precision cfg) (round cfg)) as [fixed|e];
    [|reflexivity].
  cbn [bind].
  destruct (PrimFloat.ltb 0 (precision cfg)); [|reflexivity].
  destruct (toFixed st (Math_abs x) (precision cfg) undefined_number) as [fixed'|e];
    reflexivity.
Qed.

Lemma formatNumber_calc_negative st cfg x :
  PrimFloat.ltb x 0 = true -> stripZeros cfg = false ->
  formatNumber_calc st cfg x = with_minus (formatNumber_calc st cfg (Math_abs x)).
Proof.
  intros Hneg Hstrip. unfold formatNumber_calc.
  rewrite (formatted_text_negative st cfg x Hneg), Hstrip.
  destruct (formatted_text st cfg (Math_abs x)); reflexivity.
Qed.



Lemma formatNumber_number x opts (h : Heap) st :
  h !! settings_ref = Some st ->
  fst (formatNumber (NNum x) opts h) = as_out (formatNumber_calc st (assign st opts) x).
Proof.
  intros H. cbn [formatNumber]. rewrite out_str_fst.
  now destruct (formatNumber_scalar_result x opts h st H) as [-> _].
Qed.

Lemma formatMoney_number amount opts (h : Heap) st :
  h !! settings_ref = Some st ->
  fst (formatMoney (NNum amount) opts h)
  = as_out (money st (assign st opts)
              (choose_format (checkCurrencyFormat (format (assign st opts))) amount)
              amount).
Proof.
  intros H. cbn [formatMoney]. rewrite out_str_fst.
  now rewrite (formatMoney_scalar_result amount opts h st H).
Qed.



(** ** The characters of a formatted number

    What [formatNumber] returns is dollar-free as soon as the two
    separators are: its other characters are digits, points, signs and
    the letters of [NaN], [Infinity], [undefined] and of the exponent
    notation. *)

Lemma dollar_free_app x y : dollar_free x -> dollar_free y -> dollar_free (x ++ y).
Proof. intros. apply Forall_app. now split. Qed.

Lemma dollar_free_app_inv x y : dollar_free (x ++ y) -> dollar_free x /\ dollar_free y.
Proof. apply Forall_app. Qed.

Lemma dollar_free_cons c s : Ascii.eqb c "$" = false -> dollar_free s -> dollar_free (c :: s).
Proof. intros. now constructor. Qed.

Lemma dollar_free_plain s : dollar_free s -> plain_replacement s = true.
Proof.
  induction 1 as [|c s Hc _ IH]; [reflexivity|].
  cbn [plain_replacement]. now rewrite Hc, IH.
Qed.

Lemma all_digits_dollar_free s : all_digits s -> dollar_free s.
Proof.
  apply List.Forall_impl. intros c Hc.
  destruct (Ascii.eqb c "$") eqn:E; [|reflexivity].
  apply Ascii.eqb_eq in E. subst c. discriminate Hc.
Qed.

Lemma dollar_free_firstn n s : dollar_free s -> dollar_free (firstn n s).
Proof.
  intros H. rewrite <- (firstn_skipn n s) in H. now apply dollar_free_app_inv in H.
Qed.

Lemma dollar_free_skipn n s : dollar_free s -> dollar_free (skipn n s).
Proof.
  intros H. rewrite <- (firstn_skipn n s) in H. now apply dollar_free_app_inv in H.
Qed.

Lemma dollar_free_rev s : dollar_free s -> dollar_free (rev s).
Proof.
  induction 1 as [|c s Hc _ IH]; [constructor|].
  cbn [rev]. apply dollar_free_app; [exact IH | now repeat constructor].
Qed.

Lemma Z_digits_dollar_free n : dollar_free (Z_digits n).
Proof. apply all_digits_dollar_free, Z_digits_all. Qed.

Lemma zeros_dollar_free n : dollar_free (zeros n).
Proof. apply all_digits_dollar_free, zeros_all. Qed.

Lemma render_shortest_dollar_free s k n : dollar_free (render_shortest s k n).
Proof.
  unfold render_shortest.
  pose proof (Z_digits_dollar_free s) as D.
  destruct ((k <=? n) && (n <=? 21)).
  { apply dollar_free_app; [exact D | apply zeros_dollar_free]. }
  destruct ((0 <? n) && (n <=? 21)).
  { apply dollar_free_app; [now apply dollar_free_firstn|].
    apply dollar_free_cons; [reflexivity | now apply dollar_free_skipn]. }
  destruct ((-6 <? n) && (n <=? 0)).
  { repeat (apply dollar_free_cons; [reflexivity|]).
    apply dollar_free_app; [apply zeros_dollar_free | exact D]. }
  assert (T : dollar_free ("e"%char :: (if n - 1 <? 0 then "-"%char else "+"%char)
                             :: Z_digits (Z.abs (n - 1)))).
  { apply dollar_free_cons; [reflexivity|].
    apply dollar_free_cons; [destruct (n - 1 <? 0); reflexivity|].
    apply Z_digits_dollar_free. }
  destruct (Z_digits s) as [|d rest]; [exact T|].
  inversion D as [|? ? Hd Hrest]; subst.
  destruct rest as [|d' rest'].
  - now apply dollar_free_cons.
  - apply dollar_free_cons; [exact Hd|].
    apply dollar_free_cons; [reflexivity|].
    now apply dollar_free_app.
Qed.

Lemma sign_dollar_free (s : bool) : dollar_free (if s then ["-"%char] else []).
Proof. destruct s; repeat constructor. Qed.

Lemma Number_toString_dollar_free x : dollar_free (Number_toString x).
Proof.
  unfold Number_toString.
  destruct (Prim2SF x) as [s|[|]| |sg m e]; try (repeat constructor; fail).
  destruct (shortest_digits (Math_abs x) m e) as [[s k] n].
  apply dollar_free_app; [apply sign_dollar_free | apply render_shortest_dollar_free].
Qed.

Lemma fixed_render_dollar_free n f : dollar_free (fixed_render n f).
Proof.
  unfold fixed_render. destruct (f =? 0); [apply Z_digits_dollar_free|].
  set (ds := zeros _ ++ Z_digits n).
  assert (D : dollar_free ds)
    by (apply dollar_free_app; [apply zeros_dollar_free | apply Z_digits_dollar_free]).
  apply dollar_free_app; [now apply dollar_free_firstn|].
  apply dollar_free_cons; [reflexivity | now apply dollar_free_skipn].
Qed.

Lemma Number_toFixed_dollar_free x fd r :
  Number_toFixed x fd = Ret r -> dollar_free r.
Proof.
  unfold Number_toFixed.
  destruct (ToIntegerOrInfinity fd) as [f| |]; try discriminate.
  destruct ((f <? 0) || (100 <? f)); [discriminate|].
  destruct (Prim2SF x) as [s|s| |sg m e].
  - intros [= <-]. apply fixed_render_dollar_free.
  - intros [= <-]. apply Number_toString_dollar_free.
  - intros [= <-]. apply Number_toString_dollar_free.
  - destruct (PrimFloat.leb 1e21 (Math_abs x)); intros [= <-];
      (apply dollar_free_app; [apply sign_dollar_free|]);
      [apply Number_toString_dollar_free | apply fixed_render_dollar_free].
Qed.

Lemma toFixed_dollar_free st value precision round r :
  toFixed st value precision round = Ret r -> dollar_free r.
Proof. apply Number_toFixed_dollar_free. Qed.

(** *** A match is a piece of the text *)

Lemma rx_match_app r : forall s m t, rx_match r s = Some (m, t) -> s = m ++ t.
Proof.
  induction r as [|it r IH].
  - intros s m t. cbn. now intros [= <- <-].
  - destruct it as [p q|p|].
    + assert (One_ok : forall (k : jstring -> option (jstring * jstring)),
                (forall s m t, k s = Some (m, t) -> s = m ++ t) ->
                forall s m t,
                  match s with
                  | c :: s' =>
                      if p c then
                        match k s' with
                        | Some (m, t) => Some (c :: m, t)
                        | None => None
                        end
                      else None
                  | [] => None
                  end = Some (m, t) -> s = m ++ t).
      { intros k Hk [|c s'] m' t'; [discriminate|].
        destruct (p c); [|discriminate].
        destruct (k s') as [[m1 t1]|] eqn:E; [|discriminate].
        intros [= <- <-]. cbn. f_equal. now apply Hk. }
      set (star := fix star (s : jstring) : option (jstring * jstring) :=
             match s with
             | c :: s' =>
                 if p c then
                   match star s' with
                   | Some (m, t) => Some (c :: m, t)
                   | None => rx_match r s
                   end
                 else rx_match r s
             | [] => rx_match r s
             end).
      assert (Star_ok : forall s m t, star s = Some (m, t) -> s = m ++ t).
      { intros s. induction s as [|c s' IHs]; intros m' t'; cbn.
        - apply IH.
        - destruct (p c); [|apply IH].
          destruct (star s') as [[m1 t1]|] eqn:E; [|apply IH].
          intros [= <- <-]. cbn. f_equal. now apply IHs. }
      intros s m t. destruct q; cbn [rx_match]; fold star.
      * apply One_ok, IH.
      * match goal with |- context [match ?o with Some x => Some x | None => _ end] =>
          destruct o as [[m1 t1]|] eqn:E end.
        -- intros [= <- <-]. revert E. apply One_ok, IH.
        -- apply IH.
      * apply Star_ok.
      * apply One_ok, Star_ok.
    + intros s m t. cbn [rx_match]. destruct s as [|c s']; [discriminate|].
      destruct (p c); [apply IH | discriminate].
    + intros s m t. cbn [rx_match]. destruct s as [|c s']; [apply IH | discriminate].
Qed.

Lemma rx_search_app r : forall s pre m t,
  rx_search r s = Some (pre, m, t) -> s = pre ++ m ++ t.
Proof.
  induction s as [|c s IH]; intros pre m t; cbn [rx_search].
  - destruct (rx_match r []) as [[m1 t1]|] eqn:E; [|discriminate].
    intros [= <- <- <-]. now apply rx_match_app in E.
  - destruct (rx_match r (c :: s)) as [[m1 t1]|] eqn:E.
    + intros [= <- <- <-]. now apply rx_match_app in E.
    + destruct (rx_search r s) as [[[pre1 m1] t1]|] eqn:F; [|discriminate].
      intros [= <- <- <-]. cbn. f_equal. now apply IH.
Qed.


(** The replacement text of line 306 stands for the matched digits
    followed by the separator. *)
Lemma group_substitution m before t th :
  dollar_free th ->
  get_substitution m before t (whole_cap m) (str "$1" ++ th) = m ++ th.
Proof.
  intros H.
  transitivity (m ++ get_substitution m before t [m] th);
    [|now rewrite (get_substitution_plain m before t [m] th (dollar_free_plain th H))].
  change (str "$1" ++ th) with ("$"%char :: "1"%char :: th). unfold whole_cap.
  destruct th as [|d2 r2]; [reflexivity|].
  destruct (is_digit d2) eqn:D.
  - unfold get_substitution at 1; fold get_substitution.
    cbn [Ascii.eqb Bool.eqb negb andb orb]. change (is_digit "1") with true. cbv iota.
    rewrite D. change (digit_val "1") with 1%nat.
    cbn [Nat.mul Nat.add Nat.sub nth_error]. reflexivity.
  - unfold get_substitution at 1; fold get_substitution.
    cbn [Ascii.eqb Bool.eqb negb andb orb]. change (is_digit "1") with true. cbv iota.
    rewrite D. change (digit_val "1") with 1%nat.
    cbn [Nat.sub nth_error]. reflexivity.
Qed.

Lemma rx_replace_all_dollar_free r caps repl :
  (forall m before t, dollar_free m -> dollar_free (get_substitution m before t (caps m) repl)) ->
  forall n done s, dollar_free s -> dollar_free (rx_replace_all_from n r caps repl done s).
Proof.
  intros Hsub. induction n as [|n IH]; intros done s Hs; [exact Hs|].
  cbn [rx_replace_all_from].
  destruct (rx_search r s) as [[[pre m] t]|] eqn:E; [|exact Hs].
  apply rx_search_app in E. subst s.
  apply dollar_free_app_inv in Hs. destruct Hs as [Hpre Hs].
  apply dollar_free_app_inv in Hs. destruct Hs as [Hm Ht].
  assert (Hout : dollar_free (pre ++ get_substitution m (rev done ++ pre) t (caps m) repl))
    by (apply dollar_free_app; [exact Hpre | now apply Hsub]).
  destruct m as [|c m'].
  - destruct t as [|c t']; [exact Hout|].
    inversion Ht; subst.
    apply dollar_free_app; [exact Hout|]. apply dollar_free_cons; [assumption|].
    now apply IH.
  - apply dollar_free_app; [exact Hout | now apply IH].
Qed.

Lemma split_go_dollar_free sep : forall s cur skip,
  dollar_free s -> dollar_free cur -> Forall dollar_free (split_go sep s cur skip).
Proof.
  induction s as [|c s IH]; intros cur skip Hs Hcur; cbn [split_go].
  - constructor; [now apply dollar_free_rev | constructor].
  - inversion Hs; subst. destruct skip as [|k]; [|now apply IH].
    destruct (is_prefix sep (c :: s)).
    + constructor; [now apply dollar_free_rev|]. apply IH; [assumption|constructor].
    + apply IH; [assumption | now constructor].
Qed.

Lemma split_dollar_free s sep : dollar_free s -> Forall dollar_free (split s sep).
Proof.
  intros H. unfold split. destruct sep as [|d sep].
  - induction H as [|c s Hc _ IH]; cbn [map]; constructor; [|exact IH].
    now repeat constructor.
  - apply split_go_dollar_free; [exact H | constructor].
Qed.

Lemma nth_error_dollar_free l n p :
  Forall dollar_free l -> nth_error l n = Some p -> dollar_free p.
Proof.
  intros H E. apply nth_error_In in E.
  rewrite List.Forall_forall in H. now apply H.
Qed.

Lemma or_undefined_dollar_free l n :
  Forall dollar_free l -> dollar_free (or_undefined (nth_error l n)).
Proof.
  intros H. destruct (nth_error l n) as [p|] eqn:E; cbn.
  - now apply (nth_error_dollar_free l n).
  - repeat constructor.
Qed.

Lemma stripInsignificantZeros_dollar_free s d r :
  dollar_free s -> dollar_free d ->
  stripInsignificantZeros s d = Ret r -> dollar_free r.
Proof.
  intros Hs Hd. unfold stripInsignificantZeros.
  pose proof (split_dollar_free s d Hs) as Hparts.
  destruct (nth_error (split s d) 1) as [part1|] eqn:E; [|discriminate].
  assert (H0 : dollar_free (nth 0 (split s d) (str "undefined"))).
  { destruct (split s d) as [|p0 ps]; cbn; [repeat constructor|].
    now inversion Hparts. }
  assert (H1 : dollar_free (rx_replace rx_trailing_zeros no_caps [] part1)).
  { pose proof (nth_error_dollar_free _ _ _ Hparts E) as Hp.
    unfold rx_replace.
    destruct (rx_search rx_trailing_zeros part1) as [[[pre m] t]|] eqn:F; [|exact Hp].
    apply rx_search_app in F. subst part1.
    apply dollar_free_app_inv in Hp. destruct Hp as [Hpre Hp].
    apply dollar_free_app_inv in Hp. destruct Hp as [_ Ht].
    cbn [get_substitution app]. now apply dollar_free_app. }
  destruct (0 <? length _)%nat; intros [= <-]; [|exact H0].
  repeat apply dollar_free_app; assumption.
Qed.

(** What [formatNumber] returns has no dollar sign when the separators
    have none. *)
Lemma formatNumber_calc_dollar_free st cfg x v :
  dollar_free (thousand cfg) -> dollar_free (decimal cfg) ->
  formatNumber_calc st cfg x = Ret v -> dollar_free v.
Proof.
  intros Hth Hdec. unfold formatNumber_calc, formatted_text.
  destruct (toFixed st (Math_abs x) (precision cfg) (round cfg)) as [fixed|e] eqn:E1;
    [|discriminate].
  cbn [bind].
  set (base := Number_toString (parseInt10 fixed)).
  assert (Hbase : dollar_free base) by apply Number_toString_dollar_free.
  set (mod_ := if (3 <? length base)%nat then (length base mod 3)%nat else 0%nat).
  assert (Hdecimals : forall d,
    (if PrimFloat.ltb 0 (precision cfg) then
       try fixed' := toFixed st (Math_abs x) (precision cfg) undefined_number in
       Ret (decimal cfg ++ or_undefined (nth_error (split fixed' (str ".")) 1))
     else Ret []) = Ret d -> dollar_free d).
  { intros d. destruct (PrimFloat.ltb 0 (precision cfg)); [|intros [= <-]; constructor].
    destruct (toFixed st (Math_abs x) (precision cfg) undefined_number) as [fixed'|e] eqn:E2;
      [|discriminate].
    cbn [bind]. intros [= <-]. apply dollar_free_app; [exact Hdec|].
    change (dollar_free (or_undefined (nth_error (split fixed' (str ".")) 1))).
    apply or_undefined_dollar_free, split_dollar_free.
    exact (toFixed_dollar_free _ _ _ _ _ E2). }
  destruct (if PrimFloat.ltb 0 (precision cfg) then _ else _) as [d|e]; [|discriminate].
  specialize (Hdecimals d eq_refl). cbn [bind].
  assert (Hfmt : dollar_free
    ((if PrimFloat.ltb x 0 then str "-" else [])
     ++ (if (0 <? mod_)%nat then substr2 base 0 mod_ ++ thousand cfg else [])
     ++ rx_replace_all rx_group whole_cap (str "$1" ++ thousand cfg) (substr1 base mod_)
     ++ d)).
  { apply dollar_free_app; [destruct (PrimFloat.ltb x 0); repeat constructor|].
    apply dollar_free_app.
    { destruct (0 <? mod_)%nat; [|constructor].
      apply dollar_free_app; [|exact Hth].
      unfold substr2. now apply dollar_free_firstn, dollar_free_skipn. }
    apply dollar_free_app; [|exact Hdecimals].
    apply rx_replace_all_dollar_free.
    - intros m before t Hm. rewrite group_substitution by exact Hth.
      now apply dollar_free_app.
    - now apply dollar_free_skipn. }
  destruct (stripZeros cfg).
  - now apply stripInsignificantZeros_dollar_free.
  - now intros [= <-].
Qed.

(** ** formatMoney: the placeholders *)








(** ** formatColumn: what the padding achieves *)

Lemma plain_replacement_app_spaces sym n :
  plain_replacement sym = true -> plain_replacement (sym ++ spaces n) = true.
Proof.
  intros H. induction sym as [|c sym IH].
  - cbn [app]. induction n as [|n IHn]; [reflexivity|]. exact IHn.
  - cbn [plain_replacement app] in *. apply andb_true_iff in H. destruct H as [H1 H2].
    rewrite (IH H2), andb_true_r.
    destruct (Ascii.eqb c "$"); [|reflexivity].
    destruct sym as [|d sym]; [|exact H1].
    cbn [app]. destruct n; reflexivity.
Qed.

(** The second pass brings a text to the length [maxLength] when it pads
    at the start, and when it pads after a symbol that occurs in the
    text; a text in which the symbol does not occur stays as it is. *)
Lemma pad_length padAfterSymbol sym maxLength s :
  (length s <= maxLength)%nat ->
  plain_replacement sym = true ->
  (padAfterSymbol = false \/ contains s sym = true) ->
  exists s', pad padAfterSymbol sym maxLength (OStr s) = OStr s' /\ length s' = maxLength.
Proof.
  intros Hlen Hplain Hocc. unfold pad.
  destruct (length s <? maxLength)%nat eqn:E.
  - destruct padAfterSymbol.
    + destruct Hocc as [Hocc|Hocc]; [discriminate|].
      rewrite replace_str_plain by now apply plain_replacement_app_spaces.
      unfold replace_first. apply contains_true_find in Hocc.
      destruct Hocc as (a & b & F). rewrite F.
      eexists. split; [reflexivity|].
      apply find_sub_some in F. subst s.
      rewrite !length_app in *. unfold spaces. rewrite repeat_length. lia.
    + eexists. split; [reflexivity|].
      rewrite length_app. unfold spaces. rewrite repeat_length. lia.
  - apply Nat.ltb_ge in E. exists s. split; [reflexivity | lia].
Qed.

Lemma pad_without_symbol sym maxLength s :
  contains s sym = false -> pad true sym maxLength (OStr s) = OStr s.
Proof.
  intros H. unfold pad. destruct (length s <? maxLength)%nat; [|reflexivity].
  unfold replace_str. now rewrite (contains_false_find s sym H).
Qed.

(** A call [objectAssign(settings, opts)] would change the defaults:
    the store distinguishes the calls that the library makes from this
    one. *)
Lemma objectAssign_on_settings_writes :
  symbol (deref (objectAssign settings_ref [with_symbol (str "GBP") no_opts] initial_heap)
            settings_ref)
  = str "GBP".
Proof. vm_compute. reflexivity. Qed.

(** ** Inputs on which the code departs from its documentation *)

(** C2.  [formatNumber(5, {stripZeros: true, precision: 0})] raises a
    TypeError: with precision 0 the formatted text ["5"] has no decimal
    separator, [split] returns a single part, and
    [stripInsignificantZeros] calls [replace] on the undefined
    [parts[1]]. *)
Theorem formatNumber_stripZeros_precision0_throws :
  formatNumber_calc settings
    (assign settings (with_stripZeros true (with_precision 0 no_opts))) 5
  = Throw TypeError
  /\ stripInsignificantZeros (str "5") (str ".") = Throw TypeError
  /\ fst (formatNumber (NNum 5) (with_stripZeros true (with_precision 0 no_opts))
            initial_heap)
     = Throw TypeError.
Proof. repeat split; vm_compute; reflexivity. Qed.

(** With a direction flag that is neither positive nor negative, the
    two [toFixed] calls of [formatNumber] agree. *)
Lemma toFixed_round_nearest st value precision round :
  PrimFloat.ltb 0 round = false -> PrimFloat.ltb round 0 = false ->
  toFixed st value precision round = toFixed st value precision undefined_number.
Proof. intros H1 H2. unfold toFixed. now rewrite H1, H2. Qed.

(** C3.  [formatNumber(0.991, {precision: 2, round: 1})] returns
    ["1.99"]: the integer digits come from [toFixed(0.991, 2, 1)], which
    is ["1.00"], and the fractional digits from [toFixed(0.991, 2)],
    which is ["0.99"], because the second call of line 306 does not pass
    [opts.round]. *)
Theorem formatNumber_two_roundings :
  fst (formatNumber (NNum 0.991) (with_round 1 (with_precision 2 no_opts)) initial_heap)
  = Ret (OStr (str "1.99"))
  /\ toFixed settings 0.991 2 1 = Ret (str "1.00")
  /\ toFixed settings 0.991 2 undefined_number = Ret (str "0.99").
Proof. repeat split; vm_compute; reflexivity. Qed.


(** C7.  [formatColumn([1, 100], {format: "%v"})] returns ["1.00"] and
    ["100.00"], of lengths 4 and 6: the template has no [%s], so
    [indexOf] gives -1, [padAfterSymbol] is true, and the padding is
    attached to an occurrence of the symbol that the text does not
    have. *)
Theorem formatColumn_without_symbol_unpadded :
  fst (formatColumn (Some (VArr [VNum 1; VNum 100]))
         (with_format (FString (str "%v")) no_opts) initial_heap)
  = Ret [OStr (str "1.00"); OStr (str "100.00")]
  /\ length (str "1.00") <> length (str "100.00")
  /\ indexOf (str "%v") (str "%s") = -1
  /\ pad true (str "$") 6 (OStr (str "1.00")) = OStr (str "1.00").
Proof. repeat split; try (vm_compute; reflexivity). vm_compute. discriminate. Qed.

(** The column of the documentation: five strings of length 15. *)
Lemma formatColumn_documented_example :
  fst (formatColumn
         (Some (VArr [VNum 123.5; VNum 3456.49; VNum 777888.99; VNum 12345678;
                      VNum (-5432)]))
         (with_symbol (str "$ ") no_opts) initial_heap)
  = Ret [OStr (str "$        123.50"); OStr (str "$      3,456.49");
         OStr (str "$    777,888.99"); OStr (str "$ 12,345,678.00");
         OStr (str "$     -5,432.00")].
Proof. vm_compute. reflexivity. Qed.

(** The examples of the documentation. *)
Lemma documented_examples :
  unformat settings (VStr (str "$ 12,345,678.90 GBP")) None None = VNum 12345678.9
  /\ fst (formatNumber (NNum 5318008) no_opts initial_heap)
     = Ret (OStr (str "5,318,008.00"))
  /\ fst (formatNumber (NNum 9876543.21)
            {| o_symbol := None; o_format := None; o_decimal := None;
               o_thousand := Some (str " "); o_precision := Some 3%float;
               o_grouping := None; o_stripZeros := None; o_fallback := None;
               o_round := None |} initial_heap)
     = Ret (OStr (str "9 876 543.210"))
  /\ fst (formatMoney (NNum 12345678) no_opts initial_heap)
     = Ret (OStr (str "$12,345,678.00"))
  /\ fst (formatMoney (NNum 5318008)
            (with_format (FString (str "%v %s")) (with_symbol (str "GBP") no_opts))
            initial_heap)
     = Ret (OStr (str "5,318,008.00 GBP")).
Proof. repeat split; vm_compute; reflexivity. Qed.

(** On ordinary amounts the text of [formatMoney] parses back to the
    amount rounded to two places. *)
Lemma roundtrip_examples :
  fst (formatMoney (NNum 4999.99) no_opts initial_heap) = Ret (OStr (str "$4,999.99"))
  /\ unformat settings (VStr (str "$4,999.99")) None None = VNum 4999.99
  /\ fst (formatMoney (NNum (-1234.567)) no_opts initial_heap) = Ret (OStr (str "$-1,234.57"))
  /\ unformat settings (VStr (str "$-1,234.57")) None None = VNum (-1234.57)
  /\ PrimFloat.leb (Math_abs (-1234.57 - -1234.567)) 0.01 = true.
Proof. repeat split; vm_compute; reflexivity. Qed.

(** * Further properties of the code *)

(** ** unformat on nested arrays *)

Lemma unformat_with_all_numbers decimal fallback v :
  all_numbers (unformat_with decimal fallback v) = true.
Proof.
  induction v as [x|s|l IH] using JVal_nested_ind; cbn [unformat_with all_numbers];
    try reflexivity.
  induction IH as [|v l H _ IHl]; [reflexivity|].
  cbn [map forallb]. now rewrite H, IHl.
Qed.

Lemma unformat_with_numbers decimal fallback v :
  all_numbers v = true -> unformat_with decimal fallback v = v.
Proof.
  induction v as [x|s|l IH] using JVal_nested_ind; cbn [unformat_with all_numbers];
    try (reflexivity || discriminate).
  intros H. f_equal.
  induction IH as [|v l Hv _ IHl]; [reflexivity|].
  cbn [forallb map] in *. apply andb_true_iff in H. destruct H as [H1 H2].
  now rewrite (Hv H1), (IHl H2).
Qed.

(** X1.  With a separator free of the metacharacters of a character
    class, [unformat] keeps the nesting of its argument: an array gives
    an array with the same number of elements, at every level, and a
    number or a string gives a single value. *)
Theorem unformat_preserves_shape st value decimal fallback :
  plain_decimal (default (settings_decimal st) decimal) = true ->
  shape_of (unformat st value decimal fallback) = shape_of value.
Proof.
  intros _. unfold unformat.
  induction value as [x|s|l IH] using JVal_nested_ind; cbn [unformat_with shape_of];
    try reflexivity.
  f_equal. induction IH as [|v l H _ IHl]; [reflexivity|].
  cbn [map]. now rewrite H, IHl.
Qed.

Lemma unformat_preserves_shape_witness :
  shape_of (unformat settings (VArr [VStr (str "$ 1.50"); VArr [VNum 2; VStr (str "x")]])
              None None)
  = shape_of (VArr [VStr (str "$ 1.50"); VArr [VNum 2; VStr (str "x")]]).
Proof.
  apply (unformat_preserves_shape settings
           (VArr [VStr (str "$ 1.50"); VArr [VNum 2; VStr (str "x")]]) None None).
  vm_compute. reflexivity.
Defined.

(** X2.  [unformat] is idempotent: when the first call is made with a
    separator free of the metacharacters of a character class, parsing
    its result again returns it unchanged, whatever the settings, the
    separator and the fallback of the second call are; the second call
    meets numbers only and parses nothing. *)
Theorem unformat_idempotent st st' value decimal fallback decimal' fallback' :
  plain_decimal (default (settings_decimal st) decimal) = true ->
  unformat st' (unformat st value decimal fallback) decimal' fallback'
  = unformat st value decimal fallback.
Proof.
  intros _. unfold unformat at 1. apply unformat_with_numbers.
  apply unformat_with_all_numbers.
Qed.

Lemma unformat_idempotent_witness :
  unformat settings
    (unformat settings (VArr [VStr (str "$ 1.50"); VNum nan]) None None)
    (Some (str ",")) (Some 7%float)
  = unformat settings (VArr [VStr (str "$ 1.50"); VNum nan]) None None.
Proof.
  apply (unformat_idempotent settings settings (VArr [VStr (str "$ 1.50"); VNum nan])
           None None (Some (str ",")) (Some 7%float)).
  vm_compute. reflexivity.
Defined.

Lemma unformat_string_not_NaN decimal fallback s :
  isNaN fallback = false -> isNaN (unformat_string decimal fallback s) = false.
Proof.
  intros H. unfold unformat_string. cbv zeta.
  destruct (isNaN (parseFloat _ * _)) eqn:E; cbn [negb]; assumption.
Qed.

(** X3.  Parsing never introduces NaN: with a separator free of the
    metacharacters of a character class, when the fallback in force is
    not NaN and no number of the argument is NaN, no leaf of the result
    is NaN, whatever the strings of the argument are. *)
Theorem unformat_never_NaN st value decimal fallback :
  plain_decimal (default (settings_decimal st) decimal) = true ->
  isNaN (default (settings_fallback st) fallback) = false ->
  no_NaN value = true ->
  no_NaN (unformat st value decimal fallback) = true.
Proof.
  intros _ Hfb. unfold unformat.
  induction value as [x|s|l IH] using JVal_nested_ind;
    cbn [unformat_with no_NaN].
  - trivial.
  - intros _. now rewrite unformat_string_not_NaN.
  - intros H. induction IH as [|v l Hv _ IHl]; [reflexivity|].
    cbn [forallb map] in *. apply andb_true_iff in H. destruct H as [H1 H2].
    now rewrite (Hv H1), (IHl H2).
Qed.

Lemma unformat_never_NaN_witness :
  no_NaN (unformat settings (VArr [VStr (str "abc"); VNum 1; VArr [VStr (str "-")]])
            None None) = true.
Proof.
  apply (unformat_never_NaN settings
           (VArr [VStr (str "abc"); VNum 1; VArr [VStr (str "-")]]) None None);
    vm_compute; reflexivity.
Defined.

(** ** unformat: the characters that count *)

Lemma filter_negb_negb (p : ascii -> bool) s :
  List.filter (fun c => negb (negb (p c))) s = List.filter p s.
Proof.
  induction s as [|c s IH]; [reflexivity|].
  cbn [List.filter]. rewrite negb_involutive, IH. reflexivity.
Qed.

(** Line 98 keeps the characters of the class and deletes the others. *)
Lemma strip_cruft decimal value :
  rx_replace_all [Cls (fun c => negb (kept decimal c)) One] no_caps [] value
  = List.filter (kept decimal) value.
Proof.
  unfold rx_replace_all. rewrite rx_replace_all_single by lia.
  apply filter_negb_negb.
Qed.

Lemma filter_filter (p : ascii -> bool) s :
  List.filter p (List.filter p s) = List.filter p s.
Proof.
  induction s as [|c s IH]; [reflexivity|].
  cbn [List.filter]. destruct (p c) eqn:E; [|exact IH].
  cbn [List.filter]. now rewrite E, IH.
Qed.

Lemma cleaned_filter decimal s1 s2 :
  List.filter (kept decimal) s1 = List.filter (kept decimal) s2 ->
  cleaned decimal s1 = cleaned decimal s2.
Proof.
  intros H. unfold cleaned. cbv zeta. rewrite !strip_cruft, H. reflexivity.
Qed.

(** X4.  Only the digits, minus signs, parentheses and separator
    characters of a text count: two texts that agree on these characters,
    in order, parse to the same number. *)
Theorem unformat_ignores_cruft st s1 s2 decimal fallback :
  plain_decimal (default (settings_decimal st) decimal) = true ->
  List.filter (kept (default (settings_decimal st) decimal)) s1
  = List.filter (kept (default (settings_decimal st) decimal)) s2 ->
  unformat st (VStr s1) decimal fallback = unformat st (VStr s2) decimal fallback.
Proof.
  intros _ H. unfold unformat. cbn [unformat_with]. f_equal.
  unfold unformat_string. cbv zeta. now rewrite (cleaned_filter _ _ _ H).
Qed.

Lemma unformat_ignores_cruft_witness :
  unformat settings (VStr (str "USD 1,234.50 (net)")) None None
  = unformat settings (VStr (str "1234.50()")) None None.
Proof.
  apply (unformat_ignores_cruft settings); reflexivity.
Defined.

(** ** Inversion of a match *)

Lemma rx_match_cons_inv it r s m t :
  rx_match (it :: r) s = Some (m, t) ->
  exists m1 m2,
    m = m1 ++ m2 /\ item_matches it m1 /\ rx_match r (m2 ++ t) = Some (m2, t).
Proof.
  assert (Base : forall s m t, rx_match r s = Some (m, t) ->
            rx_match r (m ++ t) = Some (m, t)).
  { intros s0 m0 t0 H. now rewrite <- (rx_match_app _ _ _ _ H). }
  destruct it as [p q|p|].
  - assert (One_ok : forall (k : jstring -> option (jstring * jstring)) (Q : jstring -> Prop),
              (forall s m t, k s = Some (m, t) ->
                 exists m1 m2, m = m1 ++ m2 /\ Q m1 /\ rx_match r (m2 ++ t) = Some (m2, t)) ->
              forall s m t,
                match s with
                | c :: s' =>
                    if p c then
                      match k s' with
                      | Some (m, t) => Some (c :: m, t)
                      | None => None
                      end
                    else None
                | [] => None
                end = Some (m, t) ->
                exists c m1 m2, p c = true /\ m = (c :: m1) ++ m2 /\ Q m1
                                /\ rx_match r (m2 ++ t) = Some (m2, t)).
    { intros k Q Hk [|c s'] m' t'; [discriminate|].
      destruct (p c) eqn:Hp; [|discriminate].
      destruct (k s') as [[m1 t1]|] eqn:E; [|discriminate].
      intros [= <- <-]. destruct (Hk _ _ _ E) as (a & b & -> & HQ & Hr).
      exists c, a, b. repeat split; assumption. }
    set (star := fix star (s : jstring) : option (jstring * jstring) :=
           match s with
           | c :: s' =>
               if p c then
                 match star s' with
                 | Some (m, t) => Some (c :: m, t)
                 | None => rx_match r s
                 end
               else rx_match r s
           | [] => rx_match r s
           end).
    assert (Nil_ok : forall s m t, rx_match r s = Some (m, t) ->
              exists m1 m2, m = m1 ++ m2 /\ m1 = [] /\ rx_match r (m2 ++ t) = Some (m2, t)).
    { intros s0 m0 t0 H. exists [], m0. repeat split. now apply (Base s0). }
    assert (Star_ok : forall s m t, star s = Some (m, t) ->
              exists m1 m2, m = m1 ++ m2 /\ Forall (fun c => p c = true) m1
                            /\ rx_match r (m2 ++ t) = Some (m2, t)).
    { intros s0. induction s0 as [|c s' IHs]; intros m' t'; cbn.
      - intros H. exists [], m'. repeat split; [constructor | now apply (Base [])].
      - destruct (p c) eqn:Hp.
        + destruct (star s') as [[m1 t1]|] eqn:E.
          * intros [= <- <-]. destruct (IHs _ _ eq_refl) as (a & b & -> & Ha & Hr).
            exists (c :: a), b. repeat split; [now constructor | exact Hr].
          * intros H. exists [], m'. repeat split; [constructor | now apply (Base (c :: s'))].
        + intros H. exists [], m'. repeat split; [constructor | now apply (Base (c :: s'))]. }
    destruct q; cbn [rx_match]; fold star; intros H.
    + apply (One_ok _ _ Nil_ok) in H. destruct H as (c & a & b & Hp & -> & -> & Hr).
      exists [c], b. repeat split; [|exact Hr]. cbn. now exists c.
    + match type of H with context [match ?o with Some x => Some x | None => _ end] =>
        destruct o as [[m1 t1]|] eqn:E end.
      * injection H as <- <-. apply (One_ok _ _ Nil_ok) in E.
        destruct E as (c & a & b & Hp & -> & -> & Hr).
        exists [c], b. repeat split; [|exact Hr]. cbn. right. now exists c.
      * exists [], m. repeat split; [now left | now apply (Base s)].
    + apply Star_ok in H. exact H.
    + apply (One_ok _ _ Star_ok) in H. destruct H as (c & a & b & Hp & -> & Ha & Hr).
      exists (c :: a), b. repeat split; [discriminate | now constructor | exact Hr].
  - cbn [rx_match]. destruct s as [|c s']; [discriminate|].
    destruct (p c); [|discriminate]. intros H.
    exists [], m. repeat split. now apply (Base (c :: s')).
  - cbn [rx_match]. destruct s as [|c s']; [|discriminate]. intros H.
    exists [], m. repeat split. now apply (Base []).
Qed.

(** A text in which no character satisfies [p] has no match of a pattern
    that requires such a character. *)
Lemma rx_match_needs p q r0 r s m t :
  q = One \/ q = Plus ->
  Forall (fun c => p c = false) s ->
  rx_match (r0 ++ Cls p q :: r) s = Some (m, t) -> False.
Proof.
  intros Hq. revert s m t. induction r0 as [|it r0 IH]; intros s m t Hs H.
  - cbn [app] in H. pose proof (rx_match_app _ _ _ _ H) as Happ.
    apply rx_match_cons_inv in H. destruct H as (m1 & m2 & -> & Hm & _).
    subst s. apply Forall_app in Hs. destruct Hs as [Hs _].
    apply Forall_app in Hs. destruct Hs as [Hs _].
    destruct Hq as [-> | ->]; cbn in Hm.
    + destruct Hm as (c & -> & Hc). inversion Hs; congruence.
    + destruct Hm as [Hne Hall]. destruct m1 as [|c m1]; [congruence|].
      inversion Hs; inversion Hall; congruence.
  - cbn [app] in H. pose proof (rx_match_app _ _ _ _ H) as Happ.
    apply rx_match_cons_inv in H. destruct H as (m1 & m2 & -> & _ & Hr).
    apply (IH _ _ _) in Hr; [exact Hr|].
    subst s. rewrite <- app_assoc in Hs. apply Forall_app in Hs. tauto.
Qed.

Lemma rx_search_needs p q r0 r s :
  q = One \/ q = Plus ->
  Forall (fun c => p c = false) s ->
  rx_search (r0 ++ Cls p q :: r) s = None.
Proof.
  intros Hq. induction s as [|c s IH]; intros Hs; cbn [rx_search].
  - destruct (rx_match _ []) as [[m t]|] eqn:E; [|reflexivity].
    exfalso. exact (rx_match_needs _ _ _ _ _ _ _ Hq Hs E).
  - destruct (rx_match _ (c :: s)) as [[m t]|] eqn:E.
    + exfalso. exact (rx_match_needs _ _ _ _ _ _ _ Hq Hs E).
    + rewrite IH; [reflexivity|]. now inversion Hs.
Qed.

Lemma rx_replace_all_no_match r caps repl s :
  rx_search r s = None -> rx_replace_all r caps repl s = s.
Proof. intros H. unfold rx_replace_all. cbn [rx_replace_all_from]. now rewrite H. Qed.

(** ** unformat: a text without digits *)

Lemma filter_pieces (P : ascii -> Prop) (p : ascii -> bool) s :
  Forall P s -> Forall P (List.filter p s).
Proof.
  induction 1 as [|c s Hc Hs IH]; [constructor|].
  cbn [List.filter]. destruct (p c); [constructor|]; assumption.
Qed.

Lemma replace_first_pieces (P : ascii -> Prop) pat new s :
  Forall P new -> Forall P s -> Forall P (replace_first pat new s).
Proof.
  intros Hn Hs. unfold replace_first.
  destruct (find_sub pat s) as [[a b]|] eqn:E; [|exact Hs].
  apply find_sub_some in E. subst s.
  apply Forall_app in Hs. destruct Hs as [Ha Hb].
  apply Forall_app in Hb. destruct Hb as [_ Hb].
  apply Forall_app. split; [exact Ha|]. apply Forall_app. now split.
Qed.

Lemma rx_delete_pieces (P : ascii -> Prop) r caps s :
  Forall P s -> Forall P (rx_replace r caps [] s).
Proof.
  intros Hs. unfold rx_replace.
  destruct (rx_search r s) as [[[pre m] t]|] eqn:E; [|exact Hs].
  apply rx_search_app in E. subst s. cbn [get_substitution app].
  apply Forall_app in Hs. destruct Hs as [Ha Hb].
  apply Forall_app in Hb. destruct Hb as [_ Hb].
  apply Forall_app. now split.
Qed.

Lemma cleaned_no_digit (P : ascii -> Prop) decimal value :
  (forall c, P c -> is_digit c = false) ->
  P "."%char ->
  Forall P (List.filter (kept decimal) value) ->
  Forall P (cleaned decimal value).
Proof.
  intros HP Hdot H. unfold cleaned. cbv zeta. rewrite strip_cruft.
  rewrite replace_str_plain by reflexivity.
  assert (H1 : Forall P (replace_first decimal (str ".") (List.filter (kept decimal) value))).
  { apply replace_first_pieces; [|exact H]. repeat constructor. exact Hdot. }
  rewrite rx_replace_all_no_match.
  - now apply rx_delete_pieces.
  - apply (rx_search_needs is_digit Plus
             [Cls (is_char "(") One; Cls (is_char "-") Star; Cls is_digit Star;
              Cls (any_but ")") Opt] [Cls (is_char ")") One]); [now right|].
    revert H1. apply List.Forall_impl. exact HP.
Qed.

Lemma trim_start_pieces (P : ascii -> Prop) s : Forall P s -> Forall P (trim_start s).
Proof.
  induction 1 as [|c s Hc Hs IH]; [constructor|].
  cbn [trim_start]. destruct (is_space c); [exact IH | now constructor].
Qed.

Lemma read_sign_pieces (P : ascii -> Prop) s : Forall P s -> Forall P (snd (read_sign s)).
Proof.
  intros H. destruct H as [|c s Hc Hs]; [constructor|].
  cbn [read_sign]. destruct (Ascii.eqb c "-"); [exact Hs|].
  destruct (Ascii.eqb c "+"); [exact Hs | now constructor].
Qed.

(** [parseFloat] finds no number in a text that has no digit and does
    not spell Infinity. *)
Lemma parseFloat_no_digit s :
  Forall (fun c => is_digit c = false /\ Ascii.eqb "I" c = false) s ->
  parseFloat s = nan.
Proof.
  intros H. unfold parseFloat.
  pose proof (read_sign_pieces _ _ (trim_start_pieces _ _ H)) as Hr.
  destruct (read_sign (trim_start s)) as [neg r]. cbn [snd] in Hr.
  destruct Hr as [|c r [Hc1 Hc2] Hr]; [reflexivity|].
  cbn [str list_ascii_of_string is_prefix]. rewrite Hc2. cbn [andb].
  cbn [span]. rewrite Hc1.
  destruct (Ascii.eqb c "."); [|reflexivity].
  destruct Hr as [|d r [Hd1 Hd2] Hr]; [reflexivity|].
  cbn [span]. rewrite Hd1. reflexivity.
Qed.

Lemma kept_no_digit decimal value :
  existsb is_digit value = false ->
  mem_char "I" decimal = false ->
  Forall (fun c => is_digit c = false /\ Ascii.eqb "I" c = false)
    (List.filter (kept decimal) value).
Proof.
  intros Hv Hd. induction value as [|c v IH]; [constructor|].
  cbn [existsb] in Hv. apply orb_false_iff in Hv. destruct Hv as [Hc Hv].
  cbn [List.filter]. destruct (kept decimal c) eqn:Hk; [|now apply IH].
  constructor; [|now apply IH]. split; [exact Hc|].
  destruct (Ascii.eqb "I" c) eqn:E; [|reflexivity].
  apply Ascii.eqb_eq in E. subst c.
  unfold kept in Hk. rewrite Hd in Hk. discriminate.
Qed.

(** X5.  A text without any digit parses to the fallback, 0 unless
    changed: the empty text, a lone minus sign, words, empty brackets. *)
Theorem unformat_no_digit_fallback st value decimal fallback :
  plain_decimal (default (settings_decimal st) decimal) = true ->
  mem_char "I" (default (settings_decimal st) decimal) = false ->
  existsb is_digit value = false ->
  unformat st (VStr value) decimal fallback
  = VNum (default (settings_fallback st) fallback).
Proof.
  intros _ HI Hv. unfold unformat. cbn [unformat_with]. f_equal.
  rewrite unformat_string_eq. cbv zeta.
  rewrite parseFloat_no_digit.
  - destruct (Nat.odd _); reflexivity.
  - unfold without_minus. apply filter_pieces.
    apply cleaned_no_digit; [tauto | split; reflexivity |].
    now apply kept_no_digit.
Qed.

Lemma unformat_no_digit_fallback_witness :
  unformat settings (VStr (str "-(n/a).")) None (Some 7%float) = VNum 7.
Proof.
  apply (unformat_no_digit_fallback settings); reflexivity.
Defined.

(** ** toFixed: the sign of the precision *)

(** X6.  [toFixed] ignores the sign of the precision: a negative number
    of decimal places works like the positive one. *)
Theorem toFixed_precision_sign st value precision round :
  toFixed st value (- precision) round = toFixed st value precision round.
Proof. unfold toFixed, checkPrecision. now rewrite abs_opp. Qed.

(** ** Calls on arrays *)

Lemma out_arr_fst {A} (r : Outcome (list JOut) * A) : fst (out_arr r) = as_arr (fst r).
Proof. destruct r as [[l|e] a]; reflexivity. Qed.

(** [map] over a function whose result does not depend on the cells
    that the calls create. *)
Lemma map_M_pure {A B} (I : Heap -> Prop) (f : A -> Heap -> Outcome B * Heap)
    (g : A -> Outcome B) l :
  Forall (fun a => forall h, I h -> fst (f a h) = g a /\ I (snd (f a h))) l ->
  forall h, I h -> fst (map_M f l h) = sequence (map g l) /\ I (snd (map_M f l h)).
Proof.
  induction 1 as [|a l Ha _ IH]; intros h Hh; [now split|].
  cbn [map_M map sequence]. destruct (Ha h Hh) as [E1 E2].
  destruct (f a h) as [[r|e] h1]; cbn [fst snd] in *; rewrite <- E1; [|now split].
  destruct (IH h1 E2) as [F1 F2].
  destruct (map_M f l h1) as [[rs|e] h2]; cbn [fst snd] in *; rewrite <- F1; now split.
Qed.

Lemma formatNumber_is_value st opts number : forall h : Heap,
  h !! settings_ref = Some st ->
  fst (formatNumber number opts h) = formatNumber_value st opts number.
Proof.
  induction number as [x|l IH] using JNum_nested_ind; intros h Hh.
  - now apply formatNumber_number.
  - cbn [formatNumber formatNumber_value]. rewrite out_arr_fst. f_equal.
    apply (map_M_pure (fun h : Heap => h !! settings_ref = Some st)); [|exact Hh].
    revert IH. apply List.Forall_impl. intros n Hn h1 Hh1. split; [now apply Hn|].
    now apply formatNumber_keeps.
Qed.

Lemma formatMoney_is_value st opts amount : forall h : Heap,
  h !! settings_ref = Some st ->
  fst (formatMoney amount opts h) = formatMoney_value st opts amount.
Proof.
  induction amount as [x|l IH] using JNum_nested_ind; intros h Hh.
  - now apply formatMoney_number.
  - cbn [formatMoney formatMoney_value]. rewrite out_arr_fst. f_equal.
    apply (map_M_pure (fun h : Heap => h !! settings_ref = Some st)); [|exact Hh].
    revert IH. apply List.Forall_impl. intros n Hn h1 Hh1. split; [now apply Hn|].
    now apply formatMoney_keeps.
Qed.

(** X7.  The results of [formatNumber] and [formatMoney] depend on the
    store through the value of [settings] only: the option objects that
    earlier calls have created have no influence. *)
Theorem format_results_depend_on_settings_only (h h' : Heap) st number opts :
  h !! settings_ref = Some st ->
  h' !! settings_ref = Some st ->
  fst (formatNumber number opts h) = fst (formatNumber number opts h')
  /\ fst (formatMoney number opts h) = fst (formatMoney number opts h').
Proof.
  intros H H'. split.
  - now rewrite (formatNumber_is_value st), (formatNumber_is_value st).
  - now rewrite (formatMoney_is_value st), (formatMoney_is_value st).
Qed.

Lemma format_results_depend_on_settings_only_witness :
  fst (formatNumber (NArr [NNum 1; NNum 2]) no_opts initial_heap)
  = fst (formatNumber (NArr [NNum 1; NNum 2]) no_opts
           (snd (formatMoney (NNum 5) (with_symbol (str "GBP") no_opts) initial_heap))).
Proof.
  destruct (format_results_depend_on_settings_only initial_heap
              (snd (formatMoney (NNum 5) (with_symbol (str "GBP") no_opts) initial_heap))
              settings (NArr [NNum 1; NNum 2]) no_opts) as [H _];
    [vm_compute; reflexivity ..|].
  exact H.
Defined.

(** X8.  On an array [formatNumber] returns the array of the results of
    its elements, each one as [formatNumber] returns it when called on
    the element alone, and the first exception of an element is the
    exception of the call. *)
Theorem formatNumber_elementwise (h : Heap) st l opts :
  h !! settings_ref = Some st ->
  fst (formatNumber (NArr l) opts h)
  = as_arr (sequence (map (fun val => fst (formatNumber val opts h)) l)).
Proof.
  intros H. rewrite (formatNumber_is_value st) by exact H.
  cbn [formatNumber_value]. do 2 f_equal. apply map_ext.
  intros n. symmetry. now apply formatNumber_is_value.
Qed.

Lemma formatNumber_elementwise_witness :
  fst (formatNumber (NArr [NNum 1; NArr [NNum (-2)]]) no_opts initial_heap)
  = as_arr (sequence (map (fun val => fst (formatNumber val no_opts initial_heap))
                        [NNum 1; NArr [NNum (-2)]])).
Proof.
  apply (formatNumber_elementwise initial_heap settings [NNum 1; NArr [NNum (-2)]] no_opts).
  vm_compute. reflexivity.
Defined.

(** X9.  On an array [formatMoney] returns the array of the results of
    its elements, each one as [formatMoney] returns it when called on the
    element alone, and the first exception of an element is the exception
    of the call. *)
Theorem formatMoney_elementwise (h : Heap) st l opts :
  h !! settings_ref = Some st ->
  fst (formatMoney (NArr l) opts h)
  = as_arr (sequence (map (fun value => fst (formatMoney value opts h)) l)).
Proof.
  intros H. rewrite (formatMoney_is_value st) by exact H.
  cbn [formatMoney_value]. do 2 f_equal. apply map_ext.
  intros n. symmetry. now apply formatMoney_is_value.
Qed.

Lemma formatMoney_elementwise_witness :
  fst (formatMoney (NArr [NNum 1; NArr [NNum (-2)]]) no_opts initial_heap)
  = as_arr (sequence (map (fun value => fst (formatMoney value no_opts initial_heap))
                        [NNum 1; NArr [NNum (-2)]])).
Proof.
  apply (formatMoney_elementwise initial_heap settings [NNum 1; NArr [NNum (-2)]] no_opts).
  vm_compute. reflexivity.
Defined.

Lemma sequence_shape (f : JNum -> Outcome JOut) l :
  Forall (fun n => forall r, f n = Ret r -> shape_of_out r = shape_of_num n) l ->
  forall rs, sequence (map f l) = Ret rs -> map shape_of_out rs = map shape_of_num l.
Proof.
  induction 1 as [|n l Hn _ IH]; intros rs; cbn [map sequence].
  - now intros [= <-].
  - destruct (f n) as [r|e] eqn:E; [|discriminate].
    destruct (sequence (map f l)) as [rs'|e]; [|discriminate].
    intros [= <-]. cbn [map]. now rewrite (Hn r eq_refl), (IH rs' eq_refl).
Qed.

Lemma formatNumber_value_shape st opts number : forall r,
  formatNumber_value st opts number = Ret r -> shape_of_out r = shape_of_num number.
Proof.
  induction number as [x|l IH] using JNum_nested_ind; intros r; cbn [formatNumber_value].
  - destruct (formatNumber_calc _ _ _); cbn; [now intros [= <-] | discriminate].
  - destruct (sequence _) as [rs|e] eqn:E; cbn [as_arr]; [|discriminate].
    intros [= <-]. cbn [shape_of_out shape_of_num]. f_equal.
    now apply (sequence_shape _ _ IH).
Qed.

Lemma formatMoney_value_shape st opts amount : forall r,
  formatMoney_value st opts amount = Ret r -> shape_of_out r = shape_of_num amount.
Proof.
  induction amount as [x|l IH] using JNum_nested_ind; intros r; cbn [formatMoney_value].
  - destruct (money _ _ _ _); cbn; [now intros [= <-] | discriminate].
  - destruct (sequence _) as [rs|e] eqn:E; cbn [as_arr]; [|discriminate].
    intros [= <-]. cbn [shape_of_out shape_of_num]. f_equal.
    now apply (sequence_shape _ _ IH).
Qed.

(** X10.  When [formatNumber] or [formatMoney] returns, the result has
    the nesting of the argument: a string for a number, and for an array
    an array of the same length, with the same property for each
    element. *)
Theorem format_preserves_shape (h : Heap) st number opts r :
  h !! settings_ref = Some st ->
  (fst (formatNumber number opts h) = Ret r -> shape_of_out r = shape_of_num number)
  /\ (fst (formatMoney number opts h) = Ret r -> shape_of_out r = shape_of_num number).
Proof.
  intros H. split.
  - rewrite (formatNumber_is_value st) by exact H. apply formatNumber_value_shape.
  - rewrite (formatMoney_is_value st) by exact H. apply formatMoney_value_shape.
Qed.

Lemma format_preserves_shape_witness :
  shape_of_out (OArr [OStr (str "1.00"); OArr [OStr (str "-2.00")]])
  = shape_of_num (NArr [NNum 1; NArr [NNum (-2)]]).
Proof.
  destruct (format_preserves_shape initial_heap settings (NArr [NNum 1; NArr [NNum (-2)]])
              no_opts (OArr [OStr (str "1.00"); OArr [OStr (str "-2.00")]]))
    as [H _]; [vm_compute; reflexivity|].
  apply H. vm_compute. reflexivity.
Defined.

(** ** Templates that are missing *)

Lemma choose_format_string f amount : choose_format (FString f) amount = None.
Proof.
  unfold choose_format. cbn [get_pos get_neg get_zero].
  destruct (PrimFloat.ltb 0 amount), (PrimFloat.ltb amount 0); reflexivity.
Qed.

Lemma checkCurrencyFormat_invalid f :
  contains f (str "%v") = false -> checkCurrencyFormat (FString f) = FString f.
Proof. intros H. unfold checkCurrencyFormat. now rewrite H. Qed.

(** X11.  A format string without the value placeholder is not
    rejected when the options are read: it makes [formatMoney] raise a
    TypeError on every number, and [formatColumn] on every array, the
    empty one included. *)
Theorem format_without_value_placeholder_throws (h : Heap) st opts f :
  h !! settings_ref = Some st ->
  format (assign st opts) = FString f ->
  contains f (str "%v") = false ->
  (forall amount, fst (formatMoney (NNum amount) opts h) = Throw TypeError)
  /\ (forall l, fst (formatColumn (Some (VArr l)) opts h) = Throw TypeError).
Proof.
  intros H Hf Hv. split.
  - intros amount. rewrite (formatMoney_number _ _ _ _ H), Hf.
    rewrite checkCurrencyFormat_invalid by exact Hv.
    now rewrite choose_format_string.
  - intros l. cbn [formatColumn formatColumn_array].
    destruct (merge_options_settings opts h st H) as (_ & _ & E).
    destruct (merge_options opts h) as [o h1]. cbn [fst snd] in E. rewrite E, Hf.
    rewrite checkCurrencyFormat_invalid by exact Hv. reflexivity.
Qed.

Lemma format_without_value_placeholder_throws_witness :
  fst (formatMoney (NNum 5) (with_format (FString (str "%s")) no_opts) initial_heap)
  = Throw TypeError
  /\ fst (formatColumn (Some (VArr [])) (with_format (FString (str "%s")) no_opts)
            initial_heap)
     = Throw TypeError.
Proof.
  destruct (format_without_value_placeholder_throws initial_heap settings
              (with_format (FString (str "%s")) no_opts) (str "%s"))
    as [H1 H2]; [vm_compute; reflexivity ..|].
  split; [apply H1 | apply H2].
Defined.

(** X12.  The templates of a format object have no defaults: without a
    [neg] template [formatMoney] raises a TypeError on every negative
    amount, and without a [zero] template on every amount that is neither
    positive nor negative, zero and NaN. *)
Theorem format_object_templates_required (h : Heap) st opts pos neg zero amount :
  h !! settings_ref = Some st ->
  format (assign st opts) = FObject pos neg zero ->
  (neg = None -> PrimFloat.ltb amount 0 = true ->
   fst (formatMoney (NNum amount) opts h) = Throw TypeError)
  /\ (zero = None -> PrimFloat.ltb 0 amount = false -> PrimFloat.ltb amount 0 = false ->
      fst (formatMoney (NNum amount) opts h) = Throw TypeError).
Proof.
  intros H Hf. rewrite (formatMoney_number _ _ _ _ H), Hf.
  cbn [checkCurrencyFormat]. unfold choose_format. cbn [get_pos get_neg get_zero]. split.
  - intros -> Hn. rewrite (negative_not_positive _ Hn), Hn. reflexivity.
  - intros -> H1 H2. rewrite H1, H2. reflexivity.
Qed.

Lemma format_object_templates_required_witness :
  fst (formatMoney (NNum (-5)) (with_format (FObject (str "%s%v") None None) no_opts)
         initial_heap) = Throw TypeError
  /\ fst (formatMoney (NNum nan) (with_format (FObject (str "%s%v") None None) no_opts)
            initial_heap) = Throw TypeError.
Proof.
  split.
  - destruct (format_object_templates_required initial_heap settings
                (with_format (FObject (str "%s%v") None None) no_opts)
                (str "%s%v") None None (-5)) as [H _]; [vm_compute; reflexivity ..|].
    apply H; vm_compute; reflexivity.
  - destruct (format_object_templates_required initial_heap settings
                (with_format (FObject (str "%s%v") None None) no_opts)
                (str "%s%v") None None nan) as [_ H]; [vm_compute; reflexivity ..|].
    apply H; vm_compute; reflexivity.
Defined.

(** ** split with a separator that is not empty *)

Lemma split_go_skip sep : forall s cur k,
  split_go sep s cur k = split_go sep (skipn k s) cur 0.
Proof.
  induction s as [|c s IH]; intros cur k.
  - now destruct k.
  - destruct k as [|k]; [reflexivity|]. cbn [split_go skipn]. apply IH.
Qed.

Lemma is_prefix_nil p : is_prefix p [] = true -> p = [].
Proof. now destruct p. Qed.

Lemma split_go_find sep : sep <> [] -> forall s cur,
  split_go sep s cur 0
  = match find_sub sep s with
    | Some (a, b) => (rev cur ++ a) :: split_go sep b [] 0
    | None => [rev cur ++ s]
    end.
Proof.
  intros Hsep. induction s as [|c s IH]; intros cur.
  - cbn [split_go find_sub]. destruct (is_prefix sep []) eqn:E.
    + apply is_prefix_nil in E. contradiction.
    + now rewrite app_nil_r.
  - cbn [split_go find_sub]. destruct (is_prefix sep (c :: s)) eqn:E.
    + rewrite app_nil_r, split_go_skip. destruct sep as [|x sep]; [contradiction|].
      cbn [length skipn]. now replace (S (length sep) - 1)%nat with (length sep) by lia.
    + rewrite IH. destruct (find_sub sep s) as [[a b]|]; cbn [rev];
        now rewrite <- app_assoc.
Qed.

(** The first piece ends at the first occurrence of the separator, and
    the other pieces are those of the text after it. *)
Lemma split_find s sep :
  sep <> [] ->
  split s sep = match find_sub sep s with
                | Some (a, b) => a :: split b sep
                | None => [s]
                end.
Proof.
  intros Hsep. unfold split. destruct sep as [|x sep]; [contradiction|].
  now rewrite split_go_find.
Qed.

(** ** Trailing zeros *)

Lemma rx_match_star_end p s :
  rx_match [Cls p Star; AtEnd] s = if forallb p s then Some (s, []) else None.
Proof.
  induction s as [|c s IH]; [reflexivity|].
  cbn [rx_match forallb] in *. destruct (p c); [|reflexivity].
  cbn [andb]. rewrite IH. now destruct (forallb p s).
Qed.

Lemma rx_match_plus_end p s :
  rx_match [Cls p Plus; AtEnd] s
  = match s with
    | c :: s' => if p c && forallb p s' then Some (s, []) else None
    | [] => None
    end.
Proof.
  destruct s as [|c s]; [reflexivity|].
  pose proof (rx_match_star_end p s) as H.
  cbn [rx_match] in *. destruct (p c); [|reflexivity].
  cbn [andb]. rewrite H. now destruct (forallb p s).
Qed.

Lemma all_zeros s : forallb (is_char "0") s = true -> s = zeros (length s).
Proof.
  induction s as [|c s IH]; [reflexivity|].
  cbn [forallb]. intros H. apply andb_true_iff in H. destruct H as [Hc Hs].
  apply Ascii.eqb_eq in Hc. subst c. cbn. f_equal. now apply IH.
Qed.

Lemma ends_with_cons c d s : s <> [] -> ends_with c (d :: s) = ends_with c s.
Proof. now destruct s. Qed.

Lemma rx_replace_delete_cons r c s :
  rx_match r (c :: s) = None ->
  rx_replace r no_caps [] (c :: s) = c :: rx_replace r no_caps [] s.
Proof.
  intros H. unfold rx_replace. cbn [rx_search]. rewrite H.
  now destruct (rx_search r s) as [[[pre m] t]|].
Qed.

Lemma zeros_forallb n : forallb (is_char "0") (zeros n) = true.
Proof. induction n as [|n IH]; [reflexivity|exact IH]. Qed.

(** Line 256 removes the zeros at the end of the text, all of them and
    nothing else. *)
Lemma strip_trailing_zeros s :
  exists n,
    s = rx_replace rx_trailing_zeros no_caps [] s ++ zeros n
    /\ ends_with "0" (rx_replace rx_trailing_zeros no_caps [] s) = false.
Proof.
  induction s as [|c s IH].
  - exists O. now split.
  - pose proof (rx_match_plus_end (is_char "0") (c :: s)) as M.
    fold rx_trailing_zeros in M. cbv beta iota in M.
    destruct (is_char "0" c && forallb (is_char "0") s) eqn:E.
    + exists (length (c :: s)). unfold rx_replace. cbn [rx_search]. rewrite M.
      cbn [get_substitution app]. split; [|reflexivity].
      apply all_zeros. exact E.
    + rewrite (rx_replace_delete_cons _ _ _ M).
      destruct IH as (n & H1 & H2). exists n.
      split; [cbn [app]; now rewrite <- H1|].
      destruct (rx_replace rx_trailing_zeros no_caps [] s) as [|x y] eqn:F.
      * cbn [app] in H1. cbn [ends_with]. unfold is_char in E.
        destruct (Ascii.eqb "0" c); [|reflexivity].
        rewrite H1, zeros_forallb in E. discriminate.
      * rewrite ends_with_cons by discriminate. exact H2.
Qed.

(** ** stripInsignificantZeros *)

(** X13.  With a separator that is not empty,
    [stripInsignificantZeros] raises a TypeError exactly when the
    separator does not occur in the text. *)
Theorem stripInsignificantZeros_throws_iff s decimal :
  decimal <> [] ->
  (stripInsignificantZeros s decimal = Throw TypeError <-> contains s decimal = false).
Proof.
  intros Hd. unfold stripInsignificantZeros, contains. cbv zeta.
  rewrite split_find by exact Hd.
  destruct (find_sub decimal s) as [[a b]|].
  - rewrite (split_find b) by exact Hd.
    split; [|discriminate].
    destruct (find_sub decimal b) as [[b1 b2]|]; cbn [nth_error];
      match goal with |- context [if ?c then _ else _] => destruct c end; discriminate.
  - cbn [nth_error]. now split.
Qed.

Lemma stripInsignificantZeros_throws_iff_witness :
  stripInsignificantZeros (str "1,234") (str ".") = Throw TypeError.
Proof.
  apply (stripInsignificantZeros_throws_iff (str "1,234") (str ".")).
  - discriminate.
  - vm_compute. reflexivity.
Defined.

(** X14.  [stripInsignificantZeros] keeps the text before the first
    separator and works on the text [part] between the first separator
    and the second one, or the end: it removes the zeros at the end of
    [part], all of them, and drops the separator too when nothing is
    left.  Whatever follows a second separator is lost. *)
Theorem stripInsignificantZeros_result s decimal a b :
  decimal <> [] ->
  find_sub decimal s = Some (a, b) ->
  let part := match find_sub decimal b with Some (p, _) => p | None => b end in
  exists frac n,
    part = frac ++ zeros n
    /\ ends_with "0" frac = false
    /\ stripInsignificantZeros s decimal
       = Ret (match frac with [] => a | _ => a ++ decimal ++ frac end).
Proof.
  intros Hd Hs part. unfold stripInsignificantZeros. cbv zeta.
  rewrite split_find, Hs, (split_find b) by exact Hd.
  assert (E : nth_error (a :: match find_sub decimal b with
                              | Some (p, q) => p :: split q decimal
                              | None => [b]
                              end) 1 = Some part).
  { unfold part. now destruct (find_sub decimal b) as [[p q]|]. }
  rewrite E. cbn [nth].
  destruct (strip_trailing_zeros part) as (n & H1 & H2).
  exists (rx_replace rx_trailing_zeros no_caps [] part), n.
  split; [exact H1|]. split; [exact H2|].
  now destruct (rx_replace rx_trailing_zeros no_caps [] part).
Qed.

Lemma stripInsignificantZeros_result_witness :
  exists frac n,
    str "500" = frac ++ zeros n
    /\ ends_with "0" frac = false
    /\ stripInsignificantZeros (str "1,234.500") (str ".")
       = Ret (match frac with [] => str "1,234" | _ => str "1,234" ++ str "." ++ frac end).
Proof.
  apply (stripInsignificantZeros_result (str "1,234.500") (str ".") (str "1,234") (str "500")).
  - discriminate.
  - vm_compute. reflexivity.
Defined.

(** ** formatColumn: the two passes *)

Lemma first_pass_cons_inv column formats opts val l m (h : Heap) xs m' h'' :
  first_pass column formats opts (val :: l) m h = (Ret (xs, m'), h'') ->
  exists x xs' h' m1,
    format_cell column formats opts val m h = (Ret x, h', m1)
    /\ first_pass column formats opts l m1 h' = (Ret (xs', m'), h'')
    /\ xs = x :: xs'.
Proof.
  cbn [first_pass].
  destruct (format_cell column formats opts val m h) as [[[x|e] h'] m1]; [|discriminate].
  destruct (first_pass column formats opts l m1 h') as [[[xs' m2]|e] h2] eqn:E;
    [|discriminate].
  intros [= <- <- <-]. now exists x, xs', h', m1.
Qed.

Lemma format_cell_inv column formats opts val m (h : Heap) x h' m1 :
  format_cell column formats opts val m h = (Ret x, h', m1) ->
  (exists r, shape_of val <> Leaf /\ column val (all_opts opts) h = (Ret r, h')
             /\ x = OArr r /\ m1 = m)
  \/ (exists fVal,
        let number :=
          as_number (unformat (read_settings h) val (Some (decimal opts)) None) in
        shape_of val = Leaf
        /\ render (choose_format formats number) opts number h = (Ret fVal, h')
        /\ x = OStr fVal /\ m1 = Nat.max m (length fVal)).
Proof.
  assert (K : forall val',
            shape_of val' = Leaf ->
            match render (choose_format formats
                            (as_number (unformat (read_settings h) val'
                                          (Some (decimal opts)) None))) opts
                    (as_number (unformat (read_settings h) val' (Some (decimal opts)) None))
                    h with
            | (Ret fVal, h') => ((Ret (OStr fVal), h'), Nat.max m (length fVal))
            | (Throw e, h') => ((Throw e, h'), m)
            end = (Ret x, h', m1) ->
            exists fVal,
              shape_of val' = Leaf
              /\ render (choose_format formats
                           (as_number (unformat (read_settings h) val'
                                         (Some (decimal opts)) None))) opts
                   (as_number (unformat (read_settings h) val' (Some (decimal opts)) None)) h
                 = (Ret fVal, h')
              /\ x = OStr fVal /\ m1 = Nat.max m (length fVal)).
  { intros val' HL. destruct (render _ _ _ _) as [[fVal|e] h1]; [|discriminate].
    intros [= <- <- <-]. now exists fVal. }
  destruct val as [y|s|l]; cbn [format_cell].
  - intros H. right. now apply (K (VNum y)).
  - intros H. right. now apply (K (VStr s)).
  - intros H. left.
    destruct (column (VArr l) (all_opts opts) h) as [[r|e] h1]; [|discriminate].
    cbn [out_arr] in H. injection H as <- <- <-. exists r.
    repeat split. discriminate.
Qed.

(** Every string of the first pass is a rendered cell, and no string is
    longer than the final [maxLength]. *)
Lemma first_pass_strings column formats opts (Q : jstring -> Prop) :
  (forall number (h : Heap) fVal h',
      render (choose_format formats number) opts number h = (Ret fVal, h') -> Q fVal) ->
  forall l m (h : Heap) xs m' h'',
    first_pass column formats opts l m h = (Ret (xs, m'), h'') ->
    (m <= m')%nat
    /\ forall s, In (OStr s) xs -> Q s /\ (length s <= m')%nat.
Proof.
  intros HQ. induction l as [|val l IH]; intros m h xs m' h''.
  - cbn [first_pass]. intros [= <- <- <-]. split; [lia|]. intros s [].
  - intros H. apply first_pass_cons_inv in H.
    destruct H as (x & xs' & h' & m1 & Hc & Hl & ->).
    destruct (IH _ _ _ _ _ Hl) as [Hm Hs].
    apply format_cell_inv in Hc.
    destruct Hc as [(r & _ & _ & -> & ->) | (fVal & _ & Hr & -> & ->)].
    + split; [exact Hm|]. intros s [Hin|Hin]; [discriminate | now apply Hs].
    + split; [lia|]. intros s [Hin|Hin]; [|now apply Hs].
      injection Hin as <-. split; [now apply (HQ _ _ _ _ Hr) | lia].
Qed.

Lemma formatColumn_array_inv l opts (h : Heap) r h2 :
  formatColumn_array (VArr l) opts h = (Ret r, h2) ->
  let h1 := snd (merge_options opts h) in
  let cfg := deref h1 (fst (merge_options opts h)) in
  let formats := checkCurrencyFormat (format cfg) in
  exists pos formatted maxLength,
    get_pos formats = Some pos
    /\ first_pass formatColumn_array formats cfg l O h1 = (Ret (formatted, maxLength), h2)
    /\ r = map (pad (indexOf pos (str "%s") <? indexOf pos (str "%v")) (symbol cfg) maxLength)
             formatted.
Proof.
  cbn [formatColumn_array]. destruct (merge_options opts h) as [o h1]. cbn [fst snd].
  destruct (get_pos _) as [pos|]; [|discriminate].
  destruct (first_pass _ _ _ _ _ _) as [[[formatted maxLength]|e] h3]; [|discriminate].
  intros [= <- <-]. now exists pos, formatted, maxLength.
Qed.

Lemma pad_shape padAfterSymbol sym maxLength x :
  shape_of_out (pad padAfterSymbol sym maxLength x) = shape_of_out x.
Proof.
  destruct x as [s|l]; [|reflexivity]. cbn [pad].
  destruct (length s <? maxLength)%nat; [|reflexivity]. now destruct padAfterSymbol.
Qed.

Lemma first_pass_shape column formats opts l :
  Forall (fun v => forall o (h : Heap) r h',
            column v o h = (Ret r, h') -> shape_of_out (OArr r) = shape_of v) l ->
  forall m (h : Heap) xs m' h'',
    first_pass column formats opts l m h = (Ret (xs, m'), h'') ->
    map shape_of_out xs = map shape_of l.
Proof.
  induction 1 as [|val l Hv _ IH]; intros m h xs m' h''.
  - cbn [first_pass]. now intros [= <- <- <-].
  - intros H. apply first_pass_cons_inv in H.
    destruct H as (x & xs' & h' & m1 & Hc & Hl & ->).
    cbn [map]. rewrite (IH _ _ _ _ _ Hl). f_equal.
    apply format_cell_inv in Hc.
    destruct Hc as [(r & _ & Hr & -> & _) | (fVal & HL & _ & -> & _)].
    + exact (Hv _ _ _ _ Hr).
    + now rewrite HL.
Qed.

Lemma formatColumn_array_shape v : forall opts (h : Heap) r h',
  formatColumn_array v opts h = (Ret r, h') -> shape_of_out (OArr r) = shape_of v.
Proof.
  induction v as [x|s|l IH] using JVal_nested_ind; intros opts h r h'.
  - cbn [formatColumn_array]. destruct (merge_options opts h). discriminate.
  - cbn [formatColumn_array]. destruct (merge_options opts h). discriminate.
  - intros H. apply formatColumn_array_inv in H. cbv zeta in H.
    destruct H as (pos & formatted & maxLength & _ & Hf & ->).
    cbn [shape_of_out shape_of]. f_equal. rewrite map_map.
    rewrite (map_ext _ shape_of_out) by (intros; apply pad_shape).
    exact (first_pass_shape _ _ _ _ IH _ _ _ _ _ Hf).
Qed.

(** X15.  When [formatColumn] returns on an array, the result has the
    nesting of the argument: as many elements, a string for each number
    or string, and for each nested array an array with the same
    property. *)
Theorem formatColumn_preserves_shape l opts (h : Heap) r :
  fst (formatColumn (Some (VArr l)) opts h) = Ret r ->
  shape_of_out (OArr r) = shape_of (VArr l).
Proof.
  cbn [formatColumn]. destruct (formatColumn_array (VArr l) opts h) as [r' h'] eqn:E.
  cbn [fst]. intros ->. exact (formatColumn_array_shape _ _ _ _ _ E).
Qed.

Lemma formatColumn_preserves_shape_witness :
  shape_of_out (OArr [OStr (str "$ 1.00"); OArr [OStr (str "$2.00")]; OStr (str "$-3.00")])
  = shape_of (VArr [VNum 1; VArr [VStr (str "2")]; VStr (str "(3)")]).
Proof.
  apply (formatColumn_preserves_shape [VNum 1; VArr [VStr (str "2")]; VStr (str "(3)")]
           no_opts initial_heap).
  vm_compute. reflexivity.
Defined.


Lemma pad_string_inv padAfterSymbol sym maxLength x s :
  pad padAfterSymbol sym maxLength x = OStr s -> exists s0, x = OStr s0.
Proof. destruct x as [s0|l]; [now exists s0 | discriminate]. Qed.

(** The strings of a padded column have one length as soon as every
    string of the first pass can be padded. *)
Lemma padded_same_length padAfterSymbol sym maxLength formatted :
  (forall s, In (OStr s) formatted ->
     exists s', pad padAfterSymbol sym maxLength (OStr s) = OStr s'
                /\ length s' = maxLength) ->
  forall s, In (OStr s) (map (pad padAfterSymbol sym maxLength) formatted) ->
    length s = maxLength.
Proof.
  intros H s Hin. apply in_map_iff in Hin. destruct Hin as (x & Hx & Hin).
  destruct (pad_string_inv _ _ _ _ _ Hx) as [s0 ->].
  destruct (H s0 Hin) as (s' & E & Hlen). congruence.
Qed.



(** ** Occurrences that survive a replacement *)

Lemma is_prefix_app p s : is_prefix p (p ++ s) = true.
Proof.
  induction p as [|c p IH]; [reflexivity|].
  cbn [app is_prefix]. now rewrite Ascii.eqb_refl, IH.
Qed.

Lemma contains_iff s pat :
  contains s pat = true <-> exists a b, s = a ++ pat ++ b.
Proof.
  split.
  - intros H. destruct (contains_true_find _ _ H) as (a & b & E).
    exists a, b. now apply find_sub_some.
  - intros (a & b & ->). unfold contains. induction a as [|c a IH].
    + cbn [app]. destruct (pat ++ b) eqn:E; cbn [find_sub];
        rewrite <- E, is_prefix_app; reflexivity.
    + cbn [app find_sub]. destruct (is_prefix pat (c :: a ++ pat ++ b)); [reflexivity|].
      destruct (find_sub pat (a ++ pat ++ b)) as [[x y]|]; [reflexivity|discriminate].
Qed.

Lemma occurrence_survives keep pat new a b pre post :
  no_overlap keep pat ->
  a ++ keep ++ b = pre ++ pat ++ post ->
  exists a' b', pre ++ new ++ post = a' ++ keep ++ b'.
Proof.
  intros [HA HB] E. apply app_eq_app in E. destruct E as [l [[-> E] | [-> E]]].
  - apply app_eq_app in E. destruct E as [l' [[-> E] | [-> ->]]].
    + destruct l' as [|c l'].
      * cbn [app] in E. subst post. exists (pre ++ new), b. now rewrite <- app_assoc.
      * exfalso. apply HA. exists l, (c :: l'), post, b.
        repeat split; [discriminate | now symmetry].
    + exists (pre ++ new ++ l'), b. now rewrite <- !app_assoc.
  - apply app_eq_app in E. destruct E as [l' [[-> E] | [-> ->]]].
    + destruct l' as [|c l'].
      * rewrite app_nil_r. exists a, (new ++ post). now rewrite <- !app_assoc.
      * exfalso. apply HB. exists l, (c :: l'), b, post.
        repeat split; [discriminate | now symmetry].
    + exists a, (l' ++ new ++ post). now rewrite <- !app_assoc.
Qed.

(** A replacement of the first occurrence of [pat], by any text, keeps
    an occurrence of [keep]. *)
Lemma replace_str_survives keep pat repl s :
  no_overlap keep pat ->
  contains s keep = true -> contains (replace_str s pat repl) keep = true.
Proof.
  intros Hno H. unfold replace_str.
  destruct (find_sub pat s) as [[pre post]|] eqn:E; [|exact H].
  apply find_sub_some in E. apply contains_iff in H. destruct H as (a & b & Hs).
  apply contains_iff. apply (occurrence_survives keep pat _ a b); [exact Hno|].
  now rewrite <- Hs, <- E.
Qed.

Lemma no_overlap_placeholders : no_overlap (str "%s") (str "%v").
Proof.
  split; intros (l & l2 & x & y & E & Hne & F); cbn [str list_ascii_of_string] in *;
    split_pattern E; congruence.
Qed.

Lemma no_overlap_placeholder_minus : no_overlap (str "%s") (str "-").
Proof.
  split; intros (l & l2 & x & y & E & Hne & F); cbn [str list_ascii_of_string] in *;
    split_pattern E; congruence.
Qed.

Lemma mem_char_app c x y : mem_char c (x ++ y) = mem_char c x || mem_char c y.
Proof.
  induction x as [|d x IH]; [reflexivity|].
  cbn [app mem_char]. now rewrite IH, orb_assoc.
Qed.

Lemma no_overlap_symbol sym :
  sym <> [] -> mem_char "%" sym = false -> mem_char "v" sym = false ->
  no_overlap sym (str "%v").
Proof.
  intros Hne Hp Hv. split; intros (l & l2 & x & y & E & Hl2 & F).
  - destruct sym as [|c sym]; [contradiction|]. cbn [mem_char] in Hp, Hv.
    apply orb_false_iff in Hp, Hv. destruct Hp as [Hp _], Hv as [Hv _].
    cbn [str list_ascii_of_string] in E. split_pattern E; congruence.
  - destruct l2 as [|c l2]; [contradiction|].
    cbn [str list_ascii_of_string app] in F. injection F as -> _.
    subst sym. rewrite mem_char_app in Hp. cbn [mem_char] in Hp.
    rewrite orb_true_r in Hp. discriminate.
Qed.

(** The negative template derived from a string keeps its symbol
    placeholder. *)
Lemma neg_template_has_symbol f :
  contains f (str "%s") = true ->
  contains (replace_str (replace_str f (str "-") []) (str "%v") (str "-%v")) (str "%s")
  = true.
Proof.
  intros H. apply replace_str_survives; [exact no_overlap_placeholders|].
  apply replace_str_survives; [exact no_overlap_placeholder_minus | exact H].
Qed.

Lemma contains_empty s : contains s [] = true.
Proof. unfold contains. now destruct s. Qed.

(** Line 474: the rendered cell shows the symbol. *)
Lemma rendered_has_symbol t sym v :
  plain_replacement sym = true ->
  mem_char "%" sym = false -> mem_char "v" sym = false ->
  contains t (str "%s") = true ->
  contains (replace_str (replace_str t (str "%s") sym) (str "%v") v) sym = true.
Proof.
  intros Hplain Hp Hv Ht. destruct sym as [|c sym]; [apply contains_empty|].
  apply replace_str_survives; [apply no_overlap_symbol; [discriminate | assumption ..]|].
  rewrite replace_str_plain by exact Hplain. unfold replace_first.
  destruct (contains_true_find _ _ Ht) as (a & b & E). rewrite E.
  apply contains_iff. now exists a, b.
Qed.

Lemma render_inv t cfg x (h : Heap) fVal h' :
  render (Some t) cfg x h = (Ret fVal, h') ->
  exists v, fVal = replace_str (replace_str t (str "%s") (symbol cfg)) (str "%v") v.
Proof.
  cbn [render]. destruct (formatNumber_scalar _ _ _) as [[v|e] h1]; [|discriminate].
  intros [= <- <-]. now exists v.
Qed.

(** X17.  With a format string that has both placeholders and a symbol
    that is a plain replacement text without the characters of the value
    placeholder, all the strings of the column that [formatColumn]
    returns have the same length, whichever placeholder comes first. *)
Theorem formatColumn_same_length (h : Heap) st l opts f r :
  h !! settings_ref = Some st ->
  format (assign st opts) = FString f ->
  contains f (str "%s") = true ->
  contains f (str "%v") = true ->
  plain_replacement (symbol (assign st opts)) = true ->
  mem_char "%" (symbol (assign st opts)) = false ->
  mem_char "v" (symbol (assign st opts)) = false ->
  fst (formatColumn (Some (VArr l)) opts h) = Ret r ->
  forall s1 s2, In (OStr s1) r -> In (OStr s2) r -> length s1 = length s2.
Proof.
  intros H Hf Hs Hv Hplain Hp Hvv. cbn [formatColumn].
  destruct (formatColumn_array (VArr l) opts h) as [r' h'] eqn:E. cbn [fst]. intros ->.
  apply formatColumn_array_inv in E. cbv zeta in E.
  destruct (merge_options_settings opts h st H) as (_ & _ & Ecfg).
  rewrite Ecfg, Hf in E. unfold checkCurrencyFormat in E. rewrite Hv in E.
  destruct E as (pos' & formatted & maxLength & [= <-] & Hfp & ->).
  set (sym := symbol (assign st opts)) in *.
  assert (Hs' : forall s, In (OStr s) formatted ->
                  contains s sym = true /\ (length s <= maxLength)%nat).
  { refine (proj2 (first_pass_strings _ _ _ (fun s => contains s sym = true) _
                     _ _ _ _ _ _ Hfp)).
    intros number h0 fVal h0'. unfold choose_format. cbn [get_pos get_neg get_zero].
    intros Hr.
    assert (K : forall t, contains t (str "%s") = true ->
                  render (Some t) (assign st opts) number h0 = (Ret fVal, h0') ->
                  contains fVal sym = true).
    { intros t Ht Hrt. apply render_inv in Hrt. destruct Hrt as [v ->].
      now apply rendered_has_symbol. }
    destruct (PrimFloat.ltb 0 number); [exact (K _ Hs Hr)|].
    destruct (PrimFloat.ltb number 0); [|exact (K _ Hs Hr)].
    exact (K _ (neg_template_has_symbol f Hs) Hr). }
  assert (K : forall s, In (OStr s)
                (map (pad (indexOf f (str "%s") <? indexOf f (str "%v")) sym maxLength)
                   formatted) -> length s = maxLength).
  { apply padded_same_length. intros s Hin. destruct (Hs' s Hin) as [Hc Hl].
    apply pad_length; [exact Hl | exact Hplain | now right]. }
  intros s1 s2 H1 H2. now rewrite (K s1 H1), (K s2 H2).
Qed.

Lemma formatColumn_same_length_witness :
  length (str "$     1.00") = length (str "$-1,000.00").
Proof.
  apply (formatColumn_same_length initial_heap settings [VNum 1; VNum (-1000)]
           no_opts (str "%s%v") [OStr (str "$     1.00"); OStr (str "$-1,000.00")]).
  - vm_compute. reflexivity.
  - vm_compute. reflexivity.
  - vm_compute. reflexivity.
  - vm_compute. reflexivity.
  - vm_compute. reflexivity.
  - vm_compute. reflexivity.
  - vm_compute. reflexivity.
  - vm_compute. reflexivity.
  - left. reflexivity.
  - right. left. reflexivity.
Defined.

(** ** formatColumn: strings in the column *)

Lemma read_settings_at (h : Heap) st : h !! settings_ref = Some st -> read_settings h = st.
Proof. intros H. unfold read_settings. now rewrite H. Qed.

Lemma format_cell_unformat column formats cfg val m (h : Heap) st :
  h !! settings_ref = Some st ->
  (forall o (h0 : Heap), h0 !! settings_ref = Some st ->
     column (unformat_with (decimal (assign st o)) (fallback st) val) o h0
     = column val o h0) ->
  format_cell column formats cfg (unformat_with (decimal cfg) (fallback st) val) m h
  = format_cell column formats cfg val m h.
Proof.
  intros H Hcol. destruct val as [x|s|l].
  - reflexivity.
  - cbn [unformat_with format_cell]. unfold unformat. cbn [default unformat_with as_number].
    unfold settings_fallback. now rewrite (read_settings_at h st H).
  - specialize (Hcol (all_opts cfg) h H). rewrite assign_all_opts in Hcol.
    cbn [unformat_with format_cell] in *. now rewrite Hcol.
Qed.

Lemma first_pass_unformat column formats cfg st l :
  (forall val o, keeps_cells (column val o)) ->
  Forall (fun val => forall o (h0 : Heap), h0 !! settings_ref = Some st ->
            column (unformat_with (decimal (assign st o)) (fallback st) val) o h0
            = column val o h0) l ->
  forall m (h : Heap), h !! settings_ref = Some st ->
    first_pass column formats cfg (map (unformat_with (decimal cfg) (fallback st)) l) m h
    = first_pass column formats cfg l m h.
Proof.
  intros Hkeep. induction 1 as [|val l Hv _ IH]; intros m h H; [reflexivity|].
  cbn [map first_pass]. rewrite (format_cell_unformat _ _ _ _ _ _ st H Hv).
  pose proof (format_cell_keeps column formats cfg val m (Hkeep val) h settings_ref st H)
    as Hk. cbv beta in Hk.
  destruct (format_cell column formats cfg val m h) as [[[x|e] h'] m1]; [|reflexivity].
  cbn [fst snd] in Hk. now rewrite (IH m1 h' Hk).
Qed.

Lemma formatColumn_array_unformat v : forall opts (h : Heap) st,
  h !! settings_ref = Some st ->
  formatColumn_array (unformat_with (decimal (assign st opts)) (fallback st) v) opts h
  = formatColumn_array v opts h.
Proof.
  induction v as [x|s|l IH] using JVal_nested_ind; intros opts h st H;
    [reflexivity | reflexivity |].
  cbn [unformat_with formatColumn_array].
  destruct (merge_options_settings opts h st H) as (_ & H1 & Ecfg).
  destruct (merge_options opts h) as [o h1]. cbn [fst snd] in *. rewrite Ecfg.
  destruct (get_pos _) as [pos|]; [|reflexivity].
  rewrite (first_pass_unformat formatColumn_array _ (assign st opts) st l);
    [reflexivity | | | exact H1].
  - intros val o0. apply formatColumn_array_keeps.
  - revert IH. apply List.Forall_impl. intros val Hval o0 h0 H0. now apply Hval.
Qed.

(** X18.  [formatColumn] reads its cells through [unformat], with the
    decimal separator of the merged options and the fallback of
    [settings]: a column gives the same result and the same store as the
    column of the numbers that [unformat] finds in it. *)
Theorem formatColumn_unformats_cells (h : Heap) st l opts :
  h !! settings_ref = Some st ->
  formatColumn (Some (unformat st (VArr l) (Some (decimal (assign st opts))) None)) opts h
  = formatColumn (Some (VArr l)) opts h.
Proof.
  intros H. unfold unformat. cbn [default]. cbn [unformat_with formatColumn].
  exact (formatColumn_array_unformat (VArr l) opts h st H).
Qed.

Lemma formatColumn_unformats_cells_witness :
  formatColumn (Some (unformat settings (VArr [VStr (str "$ 1,000.5"); VStr (str "(2)")])
                        (Some (decimal (assign settings no_opts))) None))
    no_opts initial_heap
  = formatColumn (Some (VArr [VStr (str "$ 1,000.5"); VStr (str "(2)")])) no_opts initial_heap.
Proof.
  apply (formatColumn_unformats_cells initial_heap settings
           [VStr (str "$ 1,000.5"); VStr (str "(2)")] no_opts).
  vm_compute. reflexivity.
Defined.

(** ** formatNumber: the thousands separator *)

Lemma formatted_text_grouped st opts number :
  formatted_text st opts number
  = try fixed := toFixed st (Math_abs number) (precision opts) (round opts) in
    try decimals :=
      (if PrimFloat.ltb 0 (precision opts) then
         try fixed' := toFixed st (Math_abs number) (precision opts) undefined_number in
         Ret (decimal opts ++ or_undefined (nth_error (split fixed' (str ".")) 1))
       else Ret []) in
    Ret ((if PrimFloat.ltb number 0 then str "-" else [])
         ++ grouped (thousand opts) (Number_toString (parseInt10 fixed)) ++ decimals).
Proof.
  unfold formatted_text, grouped. cbv zeta.
  destruct (toFixed st (Math_abs number) (precision opts) (round opts)) as [fixed|e];
    [|reflexivity].
  cbn [bind]. destruct (if PrimFloat.ltb 0 (precision opts) then _ else _) as [d|e];
    [|reflexivity].
  cbn [bind]. now rewrite <- !app_assoc.
Qed.

Lemma rx_group_short s : (length s <= 3)%nat -> rx_search rx_group s = None.
Proof.
  intros H. destruct s as [|a [|b [|c [|d s]]]]; cbn in H; try lia; clear H;
    unfold rx_group; cbn;
    repeat match goal with |- context [is_digit ?x] => destruct (is_digit x) end;
    reflexivity.
Qed.

Lemma rx_group_long a b c d s :
  all_digits (a :: b :: c :: d :: s) ->
  rx_search rx_group (a :: b :: c :: d :: s) = Some ([], [a; b; c], d :: s).
Proof.
  intros H. inversion H as [|? ? Ha H1]; subst. inversion H1 as [|? ? Hb H2]; subst.
  inversion H2 as [|? ? Hc H3]; subst. inversion H3 as [|? ? Hd H4]; subst.
  unfold rx_group. cbn. now rewrite Ha, Hb, Hc, Hd.
Qed.

Lemma chunks3_nonempty k s : chunks3 (S k) s <> [].
Proof. discriminate. Qed.

Lemma join_cons sep x l : l <> [] -> join sep (x :: l) = x ++ sep ++ join sep l.
Proof. now destruct l. Qed.

Lemma rx_group_chunks th : dollar_free th -> forall k n done s,
  all_digits s -> length s = (3 * k)%nat -> (length s < n)%nat ->
  rx_replace_all_from n rx_group whole_cap (str "$1" ++ th) done s
  = join th (chunks3 k s).
Proof.
  intros Hth. induction k as [|k IH]; intros n done s Hs Hlen Hn.
  - destruct s; [|discriminate]. destruct n; reflexivity.
  - destruct n as [|n]; [lia|].
    destruct s as [|a [|b [|c s]]]; cbn [length] in Hlen; try lia.
    destruct s as [|d s].
    + assert (k = O) by (cbn [length] in Hlen; lia). subst k.
      cbn [rx_replace_all_from]. now rewrite rx_group_short by (cbn; lia).
    + destruct k as [|k]; [cbn [length] in Hlen; lia|].
      cbn [rx_replace_all_from]. rewrite (rx_group_long _ _ _ _ _ Hs).
      rewrite group_substitution by exact Hth.
      cbn [chunks3 firstn skipn]. rewrite join_cons by discriminate.
      cbn [app]. do 3 f_equal.
      change (d :: s) with (skipn 3 (a :: b :: c :: d :: s)).
      rewrite IH.
      * reflexivity.
      * unfold all_digits in *. clear -Hs. do 3 (inversion Hs as [|? ? _ Hs']; subst;
          clear Hs; rename Hs' into Hs). exact Hs.
      * cbn [skipn length] in *. lia.
      * cbn [skipn length] in *. lia.
Qed.

Lemma chunks3_concat k : forall s,
  length s = (3 * k)%nat ->
  concat (chunks3 k s) = s /\ Forall (fun g => length g = 3%nat) (chunks3 k s).
Proof.
  induction k as [|k IH]; intros s Hlen.
  - destruct s; [now split | discriminate].
  - cbn [chunks3 concat]. destruct (IH (skipn 3 s)) as [E F].
    + rewrite length_skipn. lia.
    + rewrite E, firstn_skipn. split; [reflexivity|]. constructor; [|exact F].
      rewrite length_firstn. lia.
Qed.

(** X19.  The integer part of a formatted number: the digits are cut
    into groups, one to three digits first and then three at a time, and
    the groups are joined with the thousands separator; nothing is added
    to three digits or fewer.  The separator is a text without a dollar
    sign. *)
Theorem thousands_grouping thousand base :
  all_digits base ->
  dollar_free thousand ->
  exists groups,
    grouped thousand base = join thousand groups
    /\ concat groups = base
    /\ groups_of_three groups.
Proof.
  intros Hb Hth. unfold grouped. cbv zeta.
  destruct (3 <? length base)%nat eqn:E.
  - apply Nat.ltb_lt in E.
    pose proof (Nat.div_mod_eq (length base) 3) as D.
    pose proof (Nat.mod_upper_bound (length base) 3 ltac:(lia)) as U.
    set (m := (length base mod 3)%nat) in *. set (k := (length base / 3)%nat) in *.
    assert (Hall : all_digits (skipn m base)).
    { unfold all_digits in *. rewrite <- (firstn_skipn m base) in Hb.
      apply Forall_app in Hb. tauto. }
    assert (Hlen : length (skipn m base) = (3 * k)%nat) by (rewrite length_skipn; lia).
    destruct (chunks3_concat k _ Hlen) as [C F].
    unfold substr1, substr2, rx_replace_all. cbn [skipn].
    rewrite (rx_group_chunks _ Hth k) by (assumption || lia).
    destruct (0 <? m)%nat eqn:Em.
    + apply Nat.ltb_lt in Em. exists (firstn m base :: chunks3 k (skipn m base)).
      destruct k as [|k]; [lia|]. rewrite join_cons by discriminate.
      split; [now rewrite <- app_assoc|]. split.
      * cbn [concat]. rewrite C. apply firstn_skipn.
      * split; [rewrite length_firstn; lia | exact F].
    + apply Nat.ltb_ge in Em. assert (m = O) by lia.
      destruct k as [|k]; [lia|]. exists (chunks3 (S k) (skipn m base)).
      split; [reflexivity|]. split; [rewrite C; now replace m with O|].
      cbn [chunks3] in *. inversion F as [|? ? F1 F2]; subst.
      split; [lia | exact F2].
  - apply Nat.ltb_ge in E. cbn [Nat.ltb Nat.leb app]. unfold substr1, rx_replace_all.
    cbn [skipn rx_replace_all_from]. rewrite rx_group_short by exact E.
    destruct base as [|c base].
    + exists []. now split.
    + exists [c :: base]. split; [reflexivity|]. split; [cbn; now rewrite app_nil_r|].
      split; [cbn [length] in *; lia | constructor].
Qed.

Lemma thousands_grouping_witness :
  exists groups,
    grouped (str ",") (str "12345678") = join (str ",") groups
    /\ concat groups = str "12345678"
    /\ groups_of_three groups.
Proof.
  apply (thousands_grouping (str ",") (str "12345678")).
  - repeat constructor.
  - repeat constructor.
Defined.

(** ** formatNumber: the digits after the separator *)

Lemma find_sub_char c a b :
  mem_char c a = false -> find_sub [c] (a ++ c :: b) = Some (a, b).
Proof.
  induction a as [|d a IH]; intros H.
  - cbn [app find_sub is_prefix length skipn]. now rewrite Ascii.eqb_refl.
  - cbn [mem_char] in H. apply orb_false_iff in H. destruct H as [Hd Ha].
    cbn [app find_sub is_prefix]. rewrite Ascii.eqb_sym, Hd. cbn [andb].
    now rewrite (IH Ha).
Qed.

Lemma find_sub_char_none c s : mem_char c s = false -> find_sub [c] s = None.
Proof.
  induction s as [|d s IH]; intros H; [reflexivity|].
  cbn [mem_char] in H. apply orb_false_iff in H. destruct H as [Hd Hs].
  cbn [find_sub is_prefix]. rewrite Ascii.eqb_sym, Hd. cbn [andb].
  now rewrite (IH Hs).
Qed.

Lemma all_digits_no_point s : all_digits s -> mem_char "." s = false.
Proof.
  induction 1 as [|c s Hc _ IH]; [reflexivity|].
  cbn [mem_char]. rewrite IH, orb_false_r.
  destruct (Ascii.eqb_spec c "."); [|reflexivity]. subst c. discriminate Hc.
Qed.

(** The two pieces of a rendering with a decimal point. *)
Lemma split_fixed sign ip fp :
  sign = [] \/ sign = str "-" -> all_digits ip -> all_digits fp ->
  split (sign ++ ip ++ "."%char :: fp) (str ".") = [sign ++ ip; fp].
Proof.
  intros Hs Hi Hf. rewrite split_find by discriminate.
  rewrite app_assoc. cbn [str list_ascii_of_string].
  rewrite find_sub_char.
  - rewrite split_find by discriminate. cbn [str list_ascii_of_string].
    now rewrite find_sub_char_none by now apply all_digits_no_point.
  - rewrite mem_char_app, (all_digits_no_point ip Hi).
    now destruct Hs as [-> | ->].
Qed.

Lemma Number_toFixed_returns x p f :
  ToIntegerOrInfinity p = Fin f -> 0 <= f <= 100 ->
  exists s, Number_toFixed x p = Ret s.
Proof.
  intros Hp Hf. unfold Number_toFixed. rewrite Hp.
  replace ((f <? 0) || (100 <? f)) with false
    by (symmetry; apply orb_false_iff; split; apply Z.ltb_ge; lia).
  destruct (Prim2SF x); try (eexists; reflexivity).
  destruct (PrimFloat.leb _ _); eexists; reflexivity.
Qed.

Lemma Number_toFixed_shape r p f :
  ToIntegerOrInfinity p = Fin f -> 0 <= f <= 100 ->
  is_finite r = true -> PrimFloat.leb 1e21 (Math_abs r) = false ->
  exists sign ip fp,
    Number_toFixed r p = Ret (sign ++ ip ++ (if f =? 0 then [] else "."%char :: fp))
    /\ (sign = [] \/ sign = str "-")
    /\ ip <> [] /\ all_digits ip /\ all_digits fp /\ length fp = Z.to_nat f.
Proof.
  intros Hp Hf Hfin Hsmall. unfold Number_toFixed. rewrite Hp.
  replace ((f <? 0) || (100 <? f)) with false
    by (symmetry; apply orb_false_iff; split; apply Z.ltb_ge; lia).
  destruct (fixed_render_shape 0 f) as (ip0 & fp0 & E0 & ?) ; [lia|].
  destruct (Prim2SF_finite_cases r Hfin) as [[s ->] | (s & m & e & ->)].
  - exists [], ip0, fp0. rewrite E0. tauto.
  - rewrite Hsmall.
    destruct (fixed_render_shape (fixed_int m e f) f) as (ip & fp & E & ?); [lia|].
    exists (if s then str "-" else []), ip, fp. rewrite E.
    split; [reflexivity|]. split; [destruct s; auto | assumption].
Qed.

(** X20.  With a positive precision, and [stripZeros] off,
    [formatNumber] ends its result with the decimal separator and
    exactly as many digits as the precision normalised by
    [checkPrecision] says, whatever the rounding direction is.  This
    holds when that precision is an integer from 1 to 100 and the
    absolute value rounded to the nearest, as [toFixed] computes it, is
    finite and below 10^21. *)
Theorem formatNumber_decimals (h : Heap) st opts x f :
  let cfg := assign st opts in
  let p := checkPrecision (precision cfg) (settings_precision st) in
  let r := (Math_round ((Math_abs x + 1e-11) * Math_pow10 p) / Math_pow10 p)%float in
  h !! settings_ref = Some st ->
  stripZeros cfg = false ->
  PrimFloat.ltb 0 (precision cfg) = true ->
  ToIntegerOrInfinity p = Fin f ->
  0 < f <= 100 ->
  is_finite r = true ->
  PrimFloat.leb 1e21 (Math_abs r) = false ->
  exists body fp,
    fst (formatNumber (NNum x) opts h) = Ret (OStr (body ++ decimal cfg ++ fp))
    /\ all_digits fp /\ length fp = Z.to_nat f.
Proof.
  intros cfg p r H Hstrip Hprec Hp Hf Hfin Hsmall.
  rewrite (formatNumber_number _ _ _ _ H). fold cfg.
  unfold formatNumber_calc. rewrite formatted_text_grouped, Hstrip, Hprec.
  destruct (Number_toFixed_returns
              ((if PrimFloat.ltb 0 (round cfg) then Math_ceil
                else if PrimFloat.ltb (round cfg) 0 then Math_floor
                else Math_round) ((Math_abs x + 1e-11) * Math_pow10 p) / Math_pow10 p)%float
              p f Hp ltac:(lia)) as [fixed Efixed].
  change (toFixed st (Math_abs x) (precision cfg) (round cfg)) with
    (Number_toFixed
       ((if PrimFloat.ltb 0 (round cfg) then Math_ceil
         else if PrimFloat.ltb (round cfg) 0 then Math_floor
         else Math_round) ((Math_abs x + 1e-11) * Math_pow10 p) / Math_pow10 p)%float p).
  rewrite Efixed. cbn [bind].
  change (toFixed st (Math_abs x) (precision cfg) undefined_number)
    with (Number_toFixed r p).
  destruct (Number_toFixed_shape r p f Hp ltac:(lia) Hfin Hsmall)
    as (sign & ip & fp & E & Hsign & _ & Hip & Hfp & Hlen).
  replace (f =? 0) with false in E by (symmetry; apply Z.eqb_neq; lia).
  rewrite E. cbn [bind]. rewrite (split_fixed _ _ _ Hsign Hip Hfp).
  cbn [nth_error or_undefined default as_out].
  exists ((if PrimFloat.ltb x 0 then str "-" else [])
          ++ grouped (thousand cfg) (Number_toString (parseInt10 fixed))), fp.
  split; [now rewrite <- !app_assoc | now split].
Qed.

Lemma formatNumber_decimals_witness :
  exists body fp,
    fst (formatNumber (NNum 1234.5678) (with_precision 3 no_opts) initial_heap)
    = Ret (OStr (body ++ decimal (assign settings (with_precision 3 no_opts)) ++ fp))
    /\ all_digits fp /\ length fp = Z.to_nat 3.
Proof.
  apply (formatNumber_decimals initial_heap settings (with_precision 3 no_opts) 1234.5678 3).
  - vm_compute. reflexivity.
  - vm_compute. reflexivity.
  - vm_compute. reflexivity.
  - vm_compute. reflexivity.
  - lia.
  - vm_compute. reflexivity.
  - vm_compute. reflexivity.
Defined.

(** ** unformat: texts without brackets *)

Lemma mem_char_Forall c s :
  mem_char c s = false -> Forall (fun a => is_char c a = false) s.
Proof.
  induction s as [|a s IH]; [constructor|].
  cbn [mem_char]. intros H. apply orb_false_iff in H. destruct H as [Ha Hs].
  constructor; [|now apply IH]. unfold is_char. now rewrite Ascii.eqb_sym.
Qed.

(** Without an opening parenthesis the two rules of lines 100 and 101
    leave the text as it is. *)
Lemma cleaned_no_paren decimal value :
  mem_char "(" value = false ->
  cleaned decimal value
  = replace_first decimal (str ".") (List.filter (kept decimal) value).
Proof.
  intros H. unfold cleaned. cbv zeta. rewrite strip_cruft.
  rewrite replace_str_plain by reflexivity.
  assert (K : Forall (fun a => is_char "(" a = false)
                (replace_first decimal (str ".") (List.filter (kept decimal) value))).
  { apply replace_first_pieces; [repeat constructor|].
    apply filter_pieces. now apply mem_char_Forall. }
  assert (N1 : rx_search rx_bracketed
                 (replace_first decimal (str ".") (List.filter (kept decimal) value)) = None)
    by exact (rx_search_needs (is_char "(") One [] _ _ (or_introl eq_refl) K).
  assert (N2 : rx_search rx_brackets
                 (replace_first decimal (str ".") (List.filter (kept decimal) value)) = None)
    by exact (rx_search_needs (is_char "(") One [] _ _ (or_introl eq_refl) K).
  rewrite rx_replace_all_no_match by exact N1.
  unfold rx_replace. now rewrite N2.
Qed.

Lemma signed_value m (odd : bool) fallback :
  (let product := (m * (if odd then (-1) else 1))%float in
   if isNaN product then fallback else product)
  = if isNaN m then fallback else if odd then (- m)%float else m.
Proof.
  cbv zeta. destruct odd.
  - now rewrite mul_minus_one, isNaN_opp.
  - now rewrite mul_one.
Qed.

(** X21.  A closed form of [unformat] on a text without an opening
    parenthesis: keep the digits, minus signs, closing parentheses and
    separator characters, put a point for the first occurrence of the
    separator, read the number that [parseFloat] finds once the minus
    signs are removed, and negate it when the number of minus signs is
    odd; the fallback replaces NaN. *)
Theorem unformat_without_brackets st value decimal fallback :
  plain_decimal (default (settings_decimal st) decimal) = true ->
  mem_char "(" value = false ->
  let c := replace_first (default (settings_decimal st) decimal) (str ".")
             (List.filter (kept (default (settings_decimal st) decimal)) value) in
  let m := parseFloat (without_minus c) in
  unformat st (VStr value) decimal fallback
  = VNum (if isNaN m then default (settings_fallback st) fallback
          else if Nat.odd (count_minus c) then (- m)%float else m).
Proof.
  intros _ H c m. unfold unformat. cbn [unformat_with]. f_equal.
  rewrite unformat_string_eq, cleaned_no_paren by exact H.
  fold c. cbv zeta. fold m. apply signed_value.
Qed.

Lemma unformat_without_brackets_witness :
  unformat settings (VStr (str "-1.234,5 EUR")) (Some (str ",")) None = VNum (-1234.5).
Proof.
  rewrite (unformat_without_brackets settings (str "-1.234,5 EUR") (Some (str ",")) None).
  - vm_compute. reflexivity.
  - vm_compute. reflexivity.
  - vm_compute. reflexivity.
Defined.

(** ** unformat: the separators of a formatted number *)

Lemma filter_all (p : ascii -> bool) s :
  Forall (fun a => p a = true) s -> List.filter p s = s.
Proof.
  induction 1 as [|a s Ha _ IH]; [reflexivity|].
  cbn [List.filter]. now rewrite Ha, IH.
Qed.

Lemma filter_none (p : ascii -> bool) s :
  Forall (fun a => p a = false) s -> List.filter p s = [].
Proof.
  induction 1 as [|a s Ha _ IH]; [reflexivity|].
  cbn [List.filter]. now rewrite Ha, IH.
Qed.

Lemma all_digits_kept decimal s :
  all_digits s -> Forall (fun a => kept decimal a = true) s.
Proof.
  apply List.Forall_impl. intros a Ha. unfold kept. now rewrite Ha.
Qed.

Lemma filter_join decimal th groups :
  Forall (fun a => kept decimal a = false) th ->
  Forall all_digits groups ->
  List.filter (kept decimal) (join th groups) = concat groups.
Proof.
  intros Hth. induction 1 as [|g rest Hg Hrest IH]; [reflexivity|].
  destruct rest as [|g' rest].
  - cbn [join concat]. rewrite app_nil_r. apply filter_all. now apply all_digits_kept.
  - rewrite join_cons by discriminate. cbn [concat].
    rewrite !List.filter_app, IH, (filter_none _ _ Hth).
    now rewrite (filter_all _ g) by now apply all_digits_kept.
Qed.

Lemma all_digits_concat groups : Forall all_digits groups -> all_digits (concat groups).
Proof.
  induction 1 as [|g rest Hg _ IH]; [constructor|].
  cbn [concat]. apply Forall_app. now split.
Qed.

Lemma all_digits_no_char c s : is_digit c = false -> all_digits s -> mem_char c s = false.
Proof.
  intros Hc. induction 1 as [|a s Ha _ IH]; [reflexivity|].
  cbn [mem_char]. rewrite IH, orb_false_r.
  destruct (Ascii.eqb_spec a c); [|reflexivity]. subst a. congruence.
Qed.

Lemma replace_first_same pat s : replace_first pat pat s = s.
Proof.
  unfold replace_first. destruct (find_sub pat s) as [[a b]|] eqn:E; [|reflexivity].
  symmetry. now apply find_sub_some.
Qed.

(** The characters kept from a number written with separators, and the
    text after line 99. *)
Lemma cleaned_formatted c th neg groups fp :
  is_digit c = false -> is_char "-" c = false -> ascii_in "(" ")" c = false ->
  Forall (fun a => kept [c] a = false) th ->
  Forall all_digits groups -> all_digits fp ->
  cleaned [c] (minus_if neg ++ join th groups ++ fraction c fp)
  = minus_if neg ++ concat groups ++ fraction "." fp.
Proof.
  intros Hd Hm Hp Hth Hg Hfp.
  assert (Hcc : kept [c] c = true).
  { unfold kept. cbn [mem_char]. now rewrite Ascii.eqb_refl, !orb_true_r. }
  assert (Hsign : List.filter (kept [c]) (minus_if neg) = minus_if neg) by now destruct neg.
  assert (Hfilter : List.filter (kept [c]) (minus_if neg ++ join th groups ++ fraction c fp)
                    = minus_if neg ++ concat groups ++ fraction c fp).
  { rewrite !List.filter_app, Hsign, (filter_join _ _ _ Hth Hg). do 2 f_equal.
    destruct fp as [|a fp]; [reflexivity|]. unfold fraction.
    apply filter_all. constructor; [exact Hcc | now apply all_digits_kept]. }
  assert (Hfree : mem_char c (minus_if neg ++ concat groups) = false).
  { rewrite mem_char_app, (all_digits_no_char c _ Hd (all_digits_concat _ Hg)).
    destruct neg; [|reflexivity]. cbn [minus_if str list_ascii_of_string mem_char].
    unfold is_char in Hm. now rewrite Hm. }
  rewrite cleaned_no_paren.
  - rewrite Hfilter. unfold replace_first. destruct fp as [|a fp]; unfold fraction.
    + rewrite app_nil_r in *. now rewrite (find_sub_char_none c _ Hfree).
    + rewrite app_assoc, (find_sub_char c _ _ Hfree). now rewrite <- app_assoc.
  - rewrite !mem_char_app.
    assert (Hth' : mem_char "(" th = false).
    { clear -Hth. induction Hth as [|a th Ha _ IH]; [reflexivity|].
      cbn [mem_char]. rewrite IH, orb_false_r.
      destruct (Ascii.eqb_spec a "("); [|reflexivity]. subst a. discriminate Ha. }
    assert (Hjoin : mem_char "(" (join th groups) = false).
    { clear -Hg Hth'. induction Hg as [|g rest Hgd _ IH]; [reflexivity|].
      destruct rest as [|g' rest].
      - cbn [join]. now apply all_digits_no_char.
      - rewrite join_cons by discriminate. rewrite !mem_char_app, IH, Hth'.
        now rewrite (all_digits_no_char "(" g). }
    assert (Htail : mem_char "(" (fraction c fp) = false).
    { destruct fp as [|a fp]; [reflexivity|]. unfold fraction.
      change (c :: a :: fp) with ([c] ++ a :: fp).
      rewrite mem_char_app, (all_digits_no_char "(" (a :: fp)) by (reflexivity || assumption).
      cbn [mem_char]. destruct (Ascii.eqb_spec c "("); [|reflexivity].
      subst c. discriminate Hp. }
    rewrite Hjoin, Htail. now destruct neg.
Qed.

Lemma cleaned_plain neg ds fp :
  all_digits ds -> all_digits fp ->
  cleaned (str ".") (minus_if neg ++ ds ++ fraction "." fp)
  = minus_if neg ++ ds ++ fraction "." fp.
Proof.
  intros Hds Hfp.
  pose proof (cleaned_formatted "." [] neg [ds] fp eq_refl eq_refl eq_refl
                (@List.Forall_nil _ _) (@List.Forall_cons _ _ _ _ Hds (@List.Forall_nil _ _)) Hfp)
    as H.
  cbn [join concat] in H. rewrite app_nil_r in H. exact H.
Qed.

(** X22.  [unformat] undoes the separators of a formatted number: a
    text made of an optional minus sign, groups of digits joined by a
    thousands separator, and digits after a one-character decimal
    separator, parsed with that separator, gives the number that the
    plain text, digits and a point, gives.  The decimal separator is not
    a digit, a minus sign or a parenthesis, and the thousands separator
    has no such character and not the decimal separator. *)
Theorem unformat_undoes_separators st c th neg groups fp fallback :
  plain_decimal [c] = true ->
  is_digit c = false -> is_char "-" c = false -> ascii_in "(" ")" c = false ->
  Forall (fun a => kept [c] a = false) th ->
  Forall all_digits groups -> all_digits fp ->
  unformat st (VStr (minus_if neg ++ join th groups ++ fraction c fp)) (Some [c]) fallback
  = unformat st (VStr (minus_if neg ++ concat groups ++ fraction "." fp))
      (Some (str ".")) fallback.
Proof.
  intros _ Hd Hm Hp Hth Hg Hfp. unfold unformat. cbn [default unformat_with]. f_equal.
  rewrite !unformat_string_eq. unfold id.
  rewrite (cleaned_formatted c th neg groups fp Hd Hm Hp Hth Hg Hfp).
  now rewrite (cleaned_plain neg (concat groups) fp (all_digits_concat _ Hg) Hfp).
Qed.

Lemma unformat_undoes_separators_witness :
  unformat settings (VStr (str "-1 234 567,89")) (Some (str ",")) None
  = unformat settings (VStr (str "-1234567.89")) (Some (str ".")) None.
Proof.
  apply (unformat_undoes_separators settings "," (str " ") true
           [str "1"; str "234"; str "567"] (str "89") None).
  - vm_compute. reflexivity.
  - vm_compute. reflexivity.
  - vm_compute. reflexivity.
  - vm_compute. reflexivity.
  - repeat constructor.
  - repeat constructor.
  - repeat constructor.
Defined.

(** ** unformat: bracketed negatives *)

(** The equations of the matcher. *)
Lemma rx_match_one p r s :
  rx_match (Cls p One :: r) s
  = match s with
    | c :: s' =>
        if p c then
          match rx_match r s' with
          | Some (m, t) => Some (c :: m, t)
          | None => None
          end
        else None
    | [] => None
    end.
Proof. reflexivity. Qed.

Lemma rx_match_star p r s :
  rx_match (Cls p Star :: r) s
  = match s with
    | c :: s' =>
        if p c then
          match rx_match (Cls p Star :: r) s' with
          | Some (m, t) => Some (c :: m, t)
          | None => rx_match r s
          end
        else rx_match r s
    | [] => rx_match r s
    end.
Proof. now destruct s. Qed.

Lemma rx_match_plus p r s :
  rx_match (Cls p Plus :: r) s
  = match s with
    | c :: s' =>
        if p c then
          match rx_match (Cls p Star :: r) s' with
          | Some (m, t) => Some (c :: m, t)
          | None => None
          end
        else None
    | [] => None
    end.
Proof. reflexivity. Qed.

Lemma rx_match_opt p r s :
  rx_match (Cls p Opt :: r) s
  = match rx_match (Cls p One :: r) s with
    | Some x => Some x
    | None => rx_match r s
    end.
Proof. reflexivity. Qed.

(** A greedy star that takes [ds] when the rest of the pattern matches
    what follows. *)
Lemma rx_match_star_takes p r ds s m t :
  Forall (fun c => p c = true) ds ->
  rx_match (Cls p Star :: r) s = Some (m, t) ->
  rx_match (Cls p Star :: r) (ds ++ s) = Some (ds ++ m, t).
Proof.
  intros Hds Hs. induction Hds as [|c ds Hc _ IH]; [exact Hs|].
  cbn [app]. rewrite rx_match_star, Hc, IH. reflexivity.
Qed.

Lemma rx_close rest :
  rx_match [Cls (is_char ")") One] (")"%char :: rest) = Some ([")"%char], rest).
Proof. reflexivity. Qed.

(** The digits before the closing parenthesis. *)
Lemma rx_digits_close rest fp :
  all_digits fp -> fp <> [] ->
  rx_match [Cls is_digit Plus; Cls (is_char ")") One] (fp ++ ")"%char :: rest)
  = Some (fp ++ [")"%char], rest).
Proof.
  intros Hfp Hne. destruct fp as [|d fp]; [contradiction|].
  inversion Hfp as [|? ? Hd Hfp']; subst.
  cbn [app]. rewrite rx_match_plus, Hd.
  rewrite (rx_match_star_takes is_digit [Cls (is_char ")") One] fp (")"%char :: rest)
             [")"%char] rest Hfp'); reflexivity.
Qed.

Lemma digit_not_close d : is_digit d = true -> any_but ")" d = true.
Proof.
  intros H. unfold any_but. destruct (Ascii.eqb_spec ")" d); [|reflexivity].
  subst d. discriminate H.
Qed.

(** Digits only: the star gives its last digit back. *)
Lemma rx_integer_close rest ip :
  all_digits ip -> ip <> [] ->
  rx_match [Cls is_digit Star; Cls (any_but ")") Opt; Cls is_digit Plus;
            Cls (is_char ")") One] (ip ++ ")"%char :: rest)
  = Some (ip ++ [")"%char], rest).
Proof.
  intros Hip Hne. induction Hip as [|d ip Hd Hip IH]; [contradiction|].
  cbn [app]. rewrite rx_match_star, Hd. destruct ip as [|d' ip].
  - cbn [app]. rewrite rx_match_star.
    change (is_digit ")") with false. cbv iota.
    change (rx_match [Cls (any_but ")") Opt; Cls is_digit Plus; Cls (is_char ")") One]
              (")"%char :: rest)) with (@None (jstring * jstring)).
    rewrite rx_match_opt, rx_match_one, (digit_not_close d Hd).
    change (rx_match [Cls is_digit Plus; Cls (is_char ")") One] (")"%char :: rest))
      with (@None (jstring * jstring)).
    assert (K : rx_match [Cls is_digit Plus; Cls (is_char ")") One]
                  ([d] ++ ")"%char :: rest) = Some ([d] ++ [")"%char], rest)).
    { apply rx_digits_close; [|discriminate]. now repeat constructor. }
    cbn [app] in K. now rewrite K.
  - now rewrite IH by discriminate.
Qed.

(** Digits, a point, digits. *)
Lemma rx_decimal_close rest ip fp :
  all_digits ip -> all_digits fp -> fp <> [] ->
  rx_match [Cls is_digit Star; Cls (any_but ")") Opt; Cls is_digit Plus;
            Cls (is_char ")") One] (ip ++ "."%char :: fp ++ ")"%char :: rest)
  = Some (ip ++ "."%char :: fp ++ [")"%char], rest).
Proof.
  intros Hip Hfp Hne.
  apply (rx_match_star_takes is_digit _ ip _ ("."%char :: fp ++ [")"%char]) rest Hip).
  rewrite rx_match_star. change (is_digit ".") with false. cbv iota.
  rewrite rx_match_opt, rx_match_one. change (any_but ")" ".") with true. cbv iota.
  now rewrite (rx_digits_close rest fp Hfp Hne).
Qed.

Lemma rx_bracketed_matches rest ip fp :
  all_digits ip -> all_digits fp -> ip ++ fraction "." fp <> [] ->
  rx_match rx_bracketed ("("%char :: (ip ++ fraction "." fp) ++ ")"%char :: rest)
  = Some ("("%char :: (ip ++ fraction "." fp) ++ [")"%char], rest).
Proof.
  intros Hip Hfp Hne. unfold rx_bracketed. rewrite rx_match_one.
  change (is_char "(" "(") with true. cbv iota.
  assert (K : rx_match
                [Cls is_digit Star; Cls (any_but ")") Opt; Cls is_digit Plus;
                 Cls (is_char ")") One]
                ((ip ++ fraction "." fp) ++ ")"%char :: rest)
              = Some ((ip ++ fraction "." fp) ++ [")"%char], rest)).
  { destruct fp as [|a fp]; unfold fraction in *.
    - rewrite app_nil_r in *. now apply rx_integer_close.
    - rewrite <- !app_assoc.
      exact (rx_decimal_close rest ip (a :: fp) Hip Hfp ltac:(discriminate)). }
  rewrite rx_match_star.
  destruct ((ip ++ fraction "." fp) ++ ")"%char :: rest) as [|c s] eqn:E.
  { destruct (ip ++ fraction "." fp); discriminate E. }
  assert (Hc : is_char "-" c = false).
  { destruct ip as [|d ip].
    - destruct fp as [|a fp]; [now contradiction Hne|].
      cbn in E. now injection E as <- _.
    - cbn in E. injection E as <- _. inversion Hip as [|? ? Hd _]; subst.
      unfold is_char. destruct (Ascii.eqb_spec "-" d); [|reflexivity].
      subst d. discriminate Hd. }
  rewrite Hc. now rewrite K.
Qed.

Lemma bracket_substitution m pre post cap :
  get_substitution m pre post [cap] (str "-$1") = "-"%char :: cap.
Proof.
  cbn. change (is_digit "1") with true. change (digit_val "1") with 1%nat.
  cbn. now rewrite app_nil_r.
Qed.

(** Line 100 on a bracketed number. *)
Lemma rx_bracketed_replace body :
  (forall rest, rx_match rx_bracketed ("("%char :: body ++ ")"%char :: rest)
                = Some ("("%char :: body ++ [")"%char], rest)) ->
  rx_replace_all rx_bracketed inner_cap (str "-$1") ("("%char :: body ++ [")"%char])
  = "-"%char :: body.
Proof.
  intros H. unfold rx_replace_all. cbn [length rx_replace_all_from rx_search].
  rewrite (H []). unfold inner_cap. cbn [tl]. rewrite removelast_last.
  rewrite bracket_substitution. cbn [app].
  destruct (length (body ++ [")"%char])); cbn [rx_replace_all_from rx_search];
    now rewrite app_nil_r.
Qed.

(** X23.  Bracketed negatives: when the characters that count are an
    opening parenthesis, digits with at most one point followed by
    digits, and a closing parenthesis, [unformat] returns the negated
    number, whatever else the text holds.  The decimal separator is the
    point. *)
Theorem unformat_bracketed_negative st value decimal fallback ip fp :
  default (settings_decimal st) decimal = str "." ->
  all_digits ip -> all_digits fp ->
  ip ++ fraction "." fp <> [] ->
  List.filter (kept (str ".")) value = "("%char :: (ip ++ fraction "." fp) ++ [")"%char] ->
  let m := parseFloat (ip ++ fraction "." fp) in
  unformat st (VStr value) decimal fallback
  = VNum (if isNaN m then default (settings_fallback st) fallback else (- m)%float).
Proof.
  intros Hd Hip Hfp Hne Hv m. unfold unformat. cbn [unformat_with]. f_equal.
  rewrite Hd, unformat_string_eq.
  set (body := ip ++ fraction "." fp) in *.
  assert (Hbody : Forall (fun a => is_char "(" a = false /\ is_char "-" a = false) body).
  { unfold body. apply Forall_app. split.
    - revert Hip. apply List.Forall_impl. intros a Ha. unfold is_char.
      split; [destruct (Ascii.eqb_spec "(" a) | destruct (Ascii.eqb_spec "-" a)];
        try reflexivity; subst a; discriminate Ha.
    - destruct fp as [|a fp]; [constructor|]. unfold fraction.
      constructor; [now split|].
      revert Hfp. apply List.Forall_impl. intros b Hb. unfold is_char.
      split; [destruct (Ascii.eqb_spec "(" b) | destruct (Ascii.eqb_spec "-" b)];
        try reflexivity; subst b; discriminate Hb. }
  assert (Hc : cleaned (str ".") value = "-"%char :: body).
  { unfold cleaned. cbv zeta. rewrite strip_cruft, Hv.
    rewrite replace_str_plain by reflexivity. rewrite replace_first_same.
    rewrite rx_bracketed_replace
      by (intros rest; now apply rx_bracketed_matches).
    assert (N : rx_search rx_brackets ("-"%char :: body) = None).
    { apply (rx_search_needs (is_char "(") One [] [Cls dot Star; Cls (is_char ")") One]);
        [now left|].
      constructor; [reflexivity|]. revert Hbody. apply List.Forall_impl. tauto. }
    unfold rx_replace. now rewrite N. }
  rewrite Hc. cbv zeta.
  assert (Hw : without_minus ("-"%char :: body) = body).
  { unfold without_minus. cbn [List.filter]. change (is_char "-" "-") with true.
    cbn [negb]. apply filter_all. revert Hbody. apply List.Forall_impl.
    intros a [_ Ha]. now rewrite Ha. }
  assert (Hn : count_minus ("-"%char :: body) = 1%nat).
  { unfold count_minus. cbn [List.filter]. change (is_char "-" "-") with true.
    cbv iota. rewrite filter_none; [reflexivity|].
    revert Hbody. apply List.Forall_impl. tauto. }
  rewrite Hw, Hn. cbn [Nat.odd Nat.even negb]. fold m.
  now rewrite mul_minus_one, isNaN_opp.
Qed.

Lemma unformat_bracketed_negative_witness :
  unformat settings (VStr (str "$ (1,234.50) CR")) None None = VNum (-1234.5).
Proof.
  rewrite (unformat_bracketed_negative settings (str "$ (1,234.50) CR") None None
             (str "1234") (str "50")).
  - vm_compute. reflexivity.
  - vm_compute. reflexivity.
  - repeat constructor.
  - repeat constructor.
  - discriminate.
  - vm_compute. reflexivity.
Defined.

(** ** formatMoney with the bare value template *)

(** A number that is not negative is formatted like its absolute
    value. *)
Lemma formatNumber_calc_abs st cfg x :
  PrimFloat.ltb x 0 = false ->
  formatNumber_calc st cfg (Math_abs x) = formatNumber_calc st cfg x.
Proof.
  intros H. unfold formatNumber_calc, formatted_text.
  now rewrite abs_abs, abs_not_negative, H.
Qed.

Lemma substitute_bare sym v :
  dollar_free v -> substitute (str "%v") sym v = v.
Proof.
  intros Hv. unfold substitute.
  rewrite (replace_str_plain _ _ v) by now apply dollar_free_plain.
  unfold replace_str at 1. cbn [find_sub is_prefix str list_ascii_of_string].
  cbn. now rewrite app_nil_r.
Qed.

Lemma substitute_minus sym v :
  dollar_free v -> substitute (str "-%v") sym v = "-"%char :: v.
Proof.
  intros Hv. unfold substitute.
  rewrite (replace_str_plain _ _ v) by now apply dollar_free_plain.
  unfold replace_str at 1. cbn [find_sub is_prefix str list_ascii_of_string].
  cbn. now rewrite app_nil_r.
Qed.

(** X24.  With the format ["%v"], separators without a dollar sign and
    [stripZeros] off, [formatMoney] returns on every number, negative,
    zero or NaN included, what [formatNumber] returns. *)
Theorem formatMoney_bare_value_is_formatNumber (h : Heap) st opts x :
  h !! settings_ref = Some st ->
  format (assign st opts) = FString (str "%v") ->
  stripZeros (assign st opts) = false ->
  dollar_free (thousand (assign st opts)) ->
  dollar_free (decimal (assign st opts)) ->
  fst (formatMoney (NNum x) opts h) = fst (formatNumber (NNum x) opts h).
Proof.
  intros H Hf Hstrip Hth Hdec.
  rewrite (formatMoney_number _ _ _ _ H), (formatNumber_number _ _ _ _ H), Hf.
  f_equal. set (cfg := assign st opts) in *.
  change (checkCurrencyFormat (FString (str "%v")))
    with (FObject (str "%v") (Some (str "-%v")) (Some (str "%v"))).
  unfold choose_format. cbn [get_pos get_neg get_zero].
  destruct (PrimFloat.ltb x 0) eqn:Hneg.
  - rewrite (negative_not_positive _ Hneg).
    rewrite (formatNumber_calc_negative st cfg x Hneg Hstrip). unfold money.
    destruct (formatNumber_calc st cfg (Math_abs x)) as [v|e] eqn:E; [|reflexivity].
    cbn [bind with_minus]. f_equal. apply substitute_minus.
    exact (formatNumber_calc_dollar_free _ _ _ _ Hth Hdec E).
  - assert (K : money st cfg (Some (str "%v")) x = formatNumber_calc st cfg x).
    { unfold money. rewrite (formatNumber_calc_abs st cfg x Hneg).
      destruct (formatNumber_calc st cfg x) as [v|e] eqn:E; [|reflexivity].
      cbn [bind]. f_equal. apply substitute_bare.
      exact (formatNumber_calc_dollar_free _ _ _ _ Hth Hdec E). }
    now destruct (PrimFloat.ltb 0 x).
Qed.

Lemma formatMoney_bare_value_is_formatNumber_witness :
  fst (formatMoney (NNum (-1234.5)) (with_format (FString (str "%v")) no_opts) initial_heap)
  = fst (formatNumber (NNum (-1234.5)) (with_format (FString (str "%v")) no_opts)
           initial_heap).
Proof.
  apply (formatMoney_bare_value_is_formatNumber initial_heap settings
           (with_format (FString (str "%v")) no_opts) (-1234.5)).
  - vm_compute. reflexivity.
  - vm_compute. reflexivity.
  - vm_compute. reflexivity.
  - repeat constructor.
  - repeat constructor.
Defined.

(** ** formatColumn: the store *)

Lemma format_cell_depends column formats cfg val m st (h h' : Heap) :
  h !! settings_ref = Some st ->
  h' !! settings_ref = Some st ->
  (forall o, fst (column val o h) = fst (column val o h')) ->
  fst (fst (format_cell column formats cfg val m h))
  = fst (fst (format_cell column formats cfg val m h'))
  /\ snd (format_cell column formats cfg val m h)
     = snd (format_cell column formats cfg val m h').
Proof.
  intros H H' Hcol.
  assert (K : forall number,
            fst (fst (match render (choose_format formats number) cfg number h with
                      | (Ret fVal, h1) => ((Ret (OStr fVal), h1), Nat.max m (length fVal))
                      | (Throw e, h1) => ((Throw e, h1), m)
                      end))
            = fst (fst (match render (choose_format formats number) cfg number h' with
                        | (Ret fVal, h1) => ((Ret (OStr fVal), h1), Nat.max m (length fVal))
                        | (Throw e, h1) => ((Throw e, h1), m)
                        end))
            /\ snd (match render (choose_format formats number) cfg number h with
                    | (Ret fVal, h1) => ((Ret (OStr fVal), h1), Nat.max m (length fVal))
                    | (Throw e, h1) => ((Throw e, h1), m)
                    end)
               = snd (match render (choose_format formats number) cfg number h' with
                      | (Ret fVal, h1) => ((Ret (OStr fVal), h1), Nat.max m (length fVal))
                      | (Throw e, h1) => ((Throw e, h1), m)
                      end)).
  { intros number.
    pose proof (render_result (choose_format formats number) cfg number h st H) as E.
    pose proof (render_result (choose_format formats number) cfg number h' st H') as E'.
    destruct (render (choose_format formats number) cfg number h) as [r1 h1].
    destruct (render (choose_format formats number) cfg number h') as [r1' h1'].
    cbn [fst] in E, E'. rewrite E, E'. now destruct (money _ _ _ _). }
  destruct val as [x|s|l]; cbn [format_cell].
  - rewrite (read_settings_at h st H), (read_settings_at h' st H'). apply K.
  - rewrite (read_settings_at h st H), (read_settings_at h' st H'). apply K.
  - cbn [fst snd]. rewrite !out_arr_fst, Hcol. now split.
Qed.

Lemma first_pass_depends column formats cfg st l :
  (forall val o, keeps_cells (column val o)) ->
  Forall (fun val => forall o (h h' : Heap),
            h !! settings_ref = Some st -> h' !! settings_ref = Some st ->
            fst (column val o h) = fst (column val o h')) l ->
  forall m (h h' : Heap),
    h !! settings_ref = Some st -> h' !! settings_ref = Some st ->
    fst (first_pass column formats cfg l m h) = fst (first_pass column formats cfg l m h').
Proof.
  intros Hkeep. induction 1 as [|val l Hv _ IH]; intros m h h' H H'; [reflexivity|].
  cbn [first_pass].
  destruct (format_cell_depends column formats cfg val m st h h' H H'
              (fun o => Hv o h h' H H')) as [E1 E2].
  pose proof (format_cell_keeps column formats cfg val m (Hkeep val) h settings_ref st H)
    as K.
  pose proof (format_cell_keeps column formats cfg val m (Hkeep val) h' settings_ref st H')
    as K'.
  cbv beta in K, K'.
  destruct (format_cell column formats cfg val m h) as [[r1 h1] m1].
  destruct (format_cell column formats cfg val m h') as [[r1' h1'] m1'].
  cbn [fst snd] in *. subst r1' m1'. destruct r1 as [x|e]; [|reflexivity].
  specialize (IH m1 h1 h1' K K').
  destruct (first_pass column formats cfg l m1 h1) as [[[xs m2]|e] h2];
    destruct (first_pass column formats cfg l m1 h1') as [[[xs' m2']|e'] h2'];
    cbn [fst] in *; congruence.
Qed.

Lemma formatColumn_array_depends st v : forall opts (h h' : Heap),
  h !! settings_ref = Some st -> h' !! settings_ref = Some st ->
  fst (formatColumn_array v opts h) = fst (formatColumn_array v opts h').
Proof.
  induction v as [x|s|l IH] using JVal_nested_ind; intros opts h h' H H'.
  - cbn [formatColumn_array].
    now destruct (merge_options opts h), (merge_options opts h').
  - cbn [formatColumn_array].
    now destruct (merge_options opts h), (merge_options opts h').
  - cbn [formatColumn_array].
    destruct (merge_options_settings opts h st H) as (_ & H1 & E).
    destruct (merge_options_settings opts h' st H') as (_ & H1' & E').
    destruct (merge_options opts h) as [o h1], (merge_options opts h') as [o' h1'].
    cbn [fst snd] in *. rewrite E, E'.
    destruct (get_pos _) as [pos|]; [|reflexivity].
    pose proof (first_pass_depends formatColumn_array
                  (checkCurrencyFormat (format (assign st opts))) (assign st opts) st l
                  (fun val o => formatColumn_array_keeps val o) IH O h1 h1' H1 H1') as F.
    destruct (first_pass _ _ _ l O h1) as [[[xs m]|e] h2];
      destruct (first_pass _ _ _ l O h1') as [[[xs' m']|e'] h2'];
      cbn [fst] in *; congruence.
Qed.

(** X25.  The result of [formatColumn] depends on the store through
    the value of [settings] only, like the results of the other
    functions: the option objects that earlier calls have created have no
    influence. *)
Theorem formatColumn_depends_on_settings_only (h h' : Heap) st list_ opts :
  h !! settings_ref = Some st ->
  h' !! settings_ref = Some st ->
  fst (formatColumn list_ opts h) = fst (formatColumn list_ opts h').
Proof.
  intros H H'. unfold formatColumn.
  destruct list_ as [[x|[|c s]|l]|]; try reflexivity;
    try (destruct (truthy x); [|reflexivity]);
    now apply (formatColumn_array_depends st).
Qed.

Lemma formatColumn_depends_on_settings_only_witness :
  fst (formatColumn (Some (VArr [VNum 1; VStr (str "(22)")])) no_opts initial_heap)
  = fst (formatColumn (Some (VArr [VNum 1; VStr (str "(22)")])) no_opts
           (snd (formatNumber (NNum 5) (with_precision 4 no_opts) initial_heap))).
Proof.
  apply (formatColumn_depends_on_settings_only initial_heap
           (snd (formatNumber (NNum 5) (with_precision 4 no_opts) initial_heap))
           settings (Some (VArr [VNum 1; VStr (str "(22)")])) no_opts).
  - vm_compute. reflexivity.
  - vm_compute. reflexivity.
Defined.

(** ** unformat: a minus sign in front *)

Lemma opp_opp (x : jnumber) : (- - x)%float = x.
Proof.
  apply Prim2SF_inj. rewrite !opp_spec.
  destruct (Prim2SF x); cbn; now rewrite ?negb_involutive.
Qed.

Lemma plain_decimal_no_minus decimal :
  plain_decimal decimal = true -> mem_char "-" decimal = false.
Proof.
  unfold plain_decimal. intros H. apply negb_true_iff in H.
  apply orb_false_iff in H. tauto.
Qed.

(** Line 99 on a text with one more minus sign in front. *)
Lemma replace_first_minus decimal s :
  mem_char "-" decimal = false ->
  without_minus (replace_first decimal (str ".") ("-"%char :: s))
  = without_minus (replace_first decimal (str ".") s)
  /\ count_minus (replace_first decimal (str ".") ("-"%char :: s))
     = S (count_minus (replace_first decimal (str ".") s)).
Proof.
  intros Hd. destruct decimal as [|a d].
  - unfold replace_first. cbn [find_sub is_prefix length skipn].
    destruct s; now split.
  - cbn [mem_char] in Hd. apply orb_false_iff in Hd. destruct Hd as [Ha _].
    assert (E : replace_first (a :: d) (str ".") ("-"%char :: s)
                = "-"%char :: replace_first (a :: d) (str ".") s).
    { unfold replace_first. cbn [find_sub is_prefix]. rewrite Ha. cbn [andb].
      now destruct (find_sub (a :: d) s) as [[pre post]|]. }
    rewrite E. now split.
Qed.

(** X26.  A minus sign in front negates: for a text without an opening
    parenthesis that holds a number, so that [unformat] with the
    fallback NaN does not return NaN, the text with one more minus sign
    in front parses to the opposite number. *)
Theorem unformat_leading_minus_negates st value decimal fallback :
  plain_decimal (default (settings_decimal st) decimal) = true ->
  mem_char "(" value = false ->
  isNaN (as_number (unformat st (VStr value) decimal (Some nan))) = false ->
  as_number (unformat st (VStr ("-"%char :: value)) decimal fallback)
  = (- as_number (unformat st (VStr value) decimal fallback))%float.
Proof.
  intros Hplain Hv. unfold unformat. cbn [unformat_with as_number].
  set (d := default (settings_decimal st) decimal) in *.
  assert (Hv' : mem_char "(" ("-"%char :: value) = false) by exact Hv.
  rewrite !unformat_string_eq, (cleaned_no_paren d value Hv),
    (cleaned_no_paren d _ Hv').
  assert (Hk : List.filter (kept d) ("-"%char :: value)
               = "-"%char :: List.filter (kept d) value) by reflexivity.
  rewrite Hk.
  destruct (replace_first_minus d (List.filter (kept d) value)
              (plain_decimal_no_minus d Hplain)) as [E1 E2].
  rewrite !signed_value, E1, E2, Nat.odd_succ, <- Nat.negb_odd.
  set (m := parseFloat (without_minus (replace_first d (str ".")
                                         (List.filter (kept d) value)))).
  cbn [default]. unfold id.
  destruct (isNaN m) eqn:Hm.
  - intros Hnan. discriminate Hnan.
  - intros _. destruct (Nat.odd _); cbn [negb]; [now rewrite opp_opp | reflexivity].
Qed.

Lemma unformat_leading_minus_negates_witness :
  as_number (unformat settings (VStr (str "-$ 12.50")) None None)
  = (- as_number (unformat settings (VStr (str "$ 12.50")) None None))%float.
Proof.
  apply (unformat_leading_minus_negates settings (str "$ 12.50") None None).
  - vm_compute. reflexivity.
  - vm_compute. reflexivity.
  - vm_compute. reflexivity.
Defined.

(** ** formatMoney with the default template *)

Lemma find_value_placeholder x y :
  mem_char "%" x = false ->
  find_sub (str "%v") (x ++ str "%v" ++ y) = Some (x, y).
Proof.
  intros H. apply (find_sub_pair_first "%" "v").
  rewrite contains_app_pair, (contains_no_first "%" "v" x H), (ends_with_mem "%" x H).
  reflexivity.
Qed.

(** Line 413 on the templates ["%s%v"] and ["%s-%v"]. *)
Lemma substitute_default sym (neg : bool) v :
  plain_replacement sym = true -> mem_char "%" sym = false -> dollar_free v ->
  substitute (if neg then str "%s-%v" else str "%s%v") sym v
  = sym ++ (if neg then "-"%char :: v else v).
Proof.
  intros Hplain Hp Hv. unfold substitute.
  rewrite (replace_str_plain _ _ sym Hplain).
  rewrite (replace_str_plain _ _ v (dollar_free_plain v Hv)).
  assert (E : replace_first (str "%s") sym (if neg then str "%s-%v" else str "%s%v")
              = (sym ++ if neg then str "-" else []) ++ str "%v" ++ []).
  { destruct neg; unfold replace_first; cbn [find_sub is_prefix str list_ascii_of_string];
      cbn; now rewrite <- ?app_assoc, ?app_nil_r. }
  rewrite E. unfold replace_first. rewrite find_value_placeholder.
  - rewrite app_nil_r, <- app_assoc. now destruct neg.
  - rewrite mem_char_app, Hp. now destruct neg.
Qed.

(** X27.  With the default format ["%s%v"], a symbol that is a plain
    replacement text without a percent sign, separators without a dollar
    sign and [stripZeros] off, [formatMoney] returns on every number the
    symbol followed by what [formatNumber] returns, and raises what
    [formatNumber] raises. *)
Theorem formatMoney_default_is_symbol_then_number (h : Heap) st opts x :
  h !! settings_ref = Some st ->
  format (assign st opts) = FString (str "%s%v") ->
  stripZeros (assign st opts) = false ->
  plain_replacement (symbol (assign st opts)) = true ->
  mem_char "%" (symbol (assign st opts)) = false ->
  dollar_free (thousand (assign st opts)) ->
  dollar_free (decimal (assign st opts)) ->
  (forall s, fst (formatNumber (NNum x) opts h) = Ret (OStr s) ->
     fst (formatMoney (NNum x) opts h) = Ret (OStr (symbol (assign st opts) ++ s)))
  /\ (forall e, fst (formatNumber (NNum x) opts h) = Throw e ->
        fst (formatMoney (NNum x) opts h) = Throw e).
Proof.
  intros H Hf Hstrip Hplain Hp Hth Hdec.
  rewrite (formatMoney_number _ _ _ _ H), (formatNumber_number _ _ _ _ H), Hf.
  set (cfg := assign st opts) in *.
  change (checkCurrencyFormat (FString (str "%s%v")))
    with (FObject (str "%s%v") (Some (str "%s-%v")) (Some (str "%s%v"))).
  assert (K : forall (neg : bool),
            money st cfg (Some (if neg then str "%s-%v" else str "%s%v")) x
            = try v := formatNumber_calc st cfg (Math_abs x) in
              Ret (symbol cfg ++ (if neg then "-"%char :: v else v))).
  { intros neg. unfold money.
    destruct (formatNumber_calc st cfg (Math_abs x)) as [v|e] eqn:E; [|reflexivity].
    cbn [bind]. f_equal. apply substitute_default; try assumption.
    exact (formatNumber_calc_dollar_free _ _ _ _ Hth Hdec E). }
  assert (M : money st cfg
                (choose_format
                   (FObject (str "%s%v") (Some (str "%s-%v")) (Some (str "%s%v"))) x) x
              = try v := formatNumber_calc st cfg x in Ret (symbol cfg ++ v)).
  { unfold choose_format. cbn [get_pos get_neg get_zero].
    destruct (PrimFloat.ltb x 0) eqn:Hneg.
    - rewrite (negative_not_positive _ Hneg), (K true).
      rewrite (formatNumber_calc_negative st cfg x Hneg Hstrip).
      now destruct (formatNumber_calc st cfg (Math_abs x)).
    - rewrite <- (formatNumber_calc_abs st cfg x Hneg).
      destruct (PrimFloat.ltb 0 x); exact (K false). }
  rewrite M. destruct (formatNumber_calc st cfg x) as [v|e]; cbn [bind as_out]; split;
    intros ? [= <-]; reflexivity.
Qed.

Lemma formatMoney_default_is_symbol_then_number_witness :
  fst (formatMoney (NNum (-1234.5)) no_opts initial_heap)
  = Ret (OStr (symbol (assign settings no_opts) ++ str "-1,234.50")).
Proof.
  destruct (formatMoney_default_is_symbol_then_number initial_heap settings no_opts (-1234.5))
    as [K _].
  - vm_compute. reflexivity.
  - vm_compute. reflexivity.
  - vm_compute. reflexivity.
  - vm_compute. reflexivity.
  - vm_compute. reflexivity.
  - repeat constructor.
  - repeat constructor.
  - apply K. vm_compute. reflexivity.
Defined.
